(** * YT_Downloader: the /info and /download route handlers

    A shallow embedding of the two Next.js route handlers of the repository
    (the /info route and [src/app/api/download/route.ts]) and of the
    JavaScript library operations they rely on: regular-expression matching
    ([String.prototype.match] on a non-global pattern), [parseInt],
    [String.prototype.split], [Array.prototype.sort], [try]/[catch] and the
    URL parser behind [NextResponse.redirect]. *)

From Stdlib Require Import String Ascii.
From Stdlib Require Import List NArith ZArith Bool Lia.
From Stdlib Require Import Permutation Sorted.
Import ListNotations.

(** ** JavaScript strings

    A JavaScript string is a sequence of UTF-16 code units.  A pattern
    without the [u] flag is matched code unit by code unit. *)

Definition jsstring := list N.

Definition js (s : string) : jsstring :=
  map N_of_ascii (list_ascii_of_string s).

Definition jsstring_eqb (a b : jsstring) : bool :=
  if list_eq_dec N.eq_dec a b then true else false.

(** [!s] for a string: only the empty string is falsy. *)
Definition falsy_string (s : jsstring) : bool :=
  match s with [] => true | _ => false end.

(** [!x] for [x : string | null] (or [string | undefined]). *)
Definition falsy (x : option jsstring) : bool :=
  match x with None => true | Some s => falsy_string s end.

Definition truthy (x : option jsstring) : bool := negb (falsy x).

(** ** Regular expressions (ECMAScript, no [u] flag) *)

Module RegExp.

Local Open Scope N_scope.

(** WhiteSpace and LineTerminator code units: what [\s] matches. *)
Definition is_space (c : N) : bool :=
  ((9 <=? c) && (c <=? 13)) || (c =? 32) || (c =? 160) || (c =? 5760)
  || ((8192 <=? c) && (c <=? 8202)) || (c =? 8232) || (c =? 8233)
  || (c =? 8239) || (c =? 8287) || (c =? 12288) || (c =? 65279).

(** LineTerminator code units: what [.] does not match. *)
Definition is_line_terminator (c : N) : bool :=
  (c =? 10) || (c =? 13) || (c =? 8232) || (c =? 8233).

Definition to_upper (c : N) : N :=
  if (97 <=? c) && (c <=? 122) then c - 32 else c.

Definition to_lower (c : N) : N :=
  if (65 <=? c) && (c <=? 90) then c + 32 else c.

(** Canonicalize of the ECMAScript pattern semantics, on what these
    patterns can observe.  Every literal character and class member below
    is ASCII or a white-space code unit; without the [u] flag a code unit
    of 128 or more never canonicalizes to an ASCII one, and no code unit
    other than a white-space one upper-cases to it.  So only the ASCII
    letters fold. *)
Definition canonicalize (ignoreCase : bool) (c : N) : N :=
  if ignoreCase then to_upper c else c.

Local Close Scope N_scope.

Inductive class_item : Type :=
| One (c : N)            (* a single character *)
| Range (lo hi : N)      (* lo-hi *)
| Space.                 (* \s *)

Inductive atom : Type :=
| Chr (c : N)                                   (* a pattern character *)
| Dot                                           (* . *)
| Class (negated : bool) (items : list class_item).   (* [...] and [^...] *)

(** Quantifiers are applied to one-character terms only, except [?],
    which the patterns also apply to a group. *)
Inductive regex : Type :=
| Eps
| Atom (a : atom)
| Seq (r1 r2 : regex)
| Alt (r1 r2 : regex)       (* r1|r2 *)
| Star (a : atom)           (* a*, greedy *)
| Plus (a : atom)           (* a+, greedy *)
| Times (n : nat) (a : atom)  (* a{n} *)
| Opt (r : regex)           (* (?:r)?, greedy *)
| Group (r : regex)         (* (r), the capturing group number 1 *)
| Bol                       (* ^ *)
| Eol.                      (* $ *)

Record pattern : Type := { source : regex; ignoreCase : bool }.

Definition item_mem (c : N) (it : class_item) : bool :=
  match it with
  | One a => (c =? a)%N
  | Range lo hi => (lo <=? c)%N && (c <=? hi)%N
  | Space => is_space c
  end.

Definition class_mem (items : list class_item) (c : N) : bool :=
  existsb (item_mem c) items.

(** CharacterSetMatcher: a member [a] of the set with
    [Canonicalize a = Canonicalize c] exists. *)
Definition atom_match (ic : bool) (a : atom) (c : N) : bool :=
  match a with
  | Chr x => (canonicalize ic x =? canonicalize ic c)%N
  | Dot => negb (is_line_terminator c)
  | Class negated items =>
      xorb negated
        (class_mem items c
         || (ic && (class_mem items (to_upper c) || class_mem items (to_lower c))))
  end.

(** A state of the matcher: the index reached, the input that is left, and
    the capture of group 1. *)
Record MatchState : Type :=
  { endIndex : nat; rest : jsstring; capture1 : option jsstring }.

Definition step (ic : bool) (a : atom) (st : MatchState) : list MatchState :=
  match rest st with
  | c :: t =>
      if atom_match ic a c
      then [ {| endIndex := S (endIndex st); rest := t; capture1 := capture1 st |} ]
      else []
  | [] => []
  end.

(** Greedy [a*]: the states after each number of repetitions, the longest
    first, which is the order backtracking tries them in. *)
Fixpoint star (ic : bool) (a : atom) (i : nat) (s : jsstring)
         (cap : option jsstring) : list MatchState :=
  match s with
  | c :: t =>
      if atom_match ic a c
      then star ic a (S i) t cap ++ [ {| endIndex := i; rest := s; capture1 := cap |} ]
      else [ {| endIndex := i; rest := s; capture1 := cap |} ]
  | [] => [ {| endIndex := i; rest := s; capture1 := cap |} ]
  end.

Definition star_from (ic : bool) (a : atom) (st : MatchState) : list MatchState :=
  star ic a (endIndex st) (rest st) (capture1 st).

Fixpoint times (ic : bool) (n : nat) (a : atom) (st : MatchState) : list MatchState :=
  match n with
  | O => [st]
  | S n' => flat_map (times ic n' a) (step ic a st)
  end.

Definition set_capture (st0 st : MatchState) : MatchState :=
  {| endIndex := endIndex st;
     rest := rest st;
     capture1 := Some (firstn (endIndex st - endIndex st0) (rest st0)) |}.

(** The matcher: every way [r] matches at [st], in the order backtracking
    explores them.  The head of the list is the match the engine reports. *)
Fixpoint exec (ic : bool) (r : regex) (st : MatchState) : list MatchState :=
  match r with
  | Eps => [st]
  | Atom a => step ic a st
  | Seq r1 r2 => flat_map (exec ic r2) (exec ic r1 st)
  | Alt r1 r2 => exec ic r1 st ++ exec ic r2 st
  | Star a => star_from ic a st
  | Plus a => flat_map (star_from ic a) (step ic a st)
  | Times n a => times ic n a st
  | Opt r1 => exec ic r1 st ++ [st]
  | Group r1 => map (set_capture st) (exec ic r1 st)
  | Bol => if Nat.eqb (endIndex st) 0 then [st] else []
  | Eol => match rest st with [] => [st] | _ :: _ => [] end
  end.

(** The match array of a successful match, as far as the callers read it:
    [index] and the capture [m[1]] ([None] is [undefined]). *)
Record MatchResult : Type :=
  { index : nat; lastIndex : nat; group1 : option jsstring }.

(** RegExpBuiltinExec for a pattern that is neither global nor sticky: the
    match is tried at index 0, 1, ..., up to the length of the input. *)
Fixpoint search (p : pattern) (i : nat) (s : jsstring) : option MatchResult :=
  match exec (ignoreCase p) (source p)
             {| endIndex := i; rest := s; capture1 := None |} with
  | st :: _ =>
      Some {| index := i; lastIndex := endIndex st; group1 := capture1 st |}
  | [] =>
      match s with
      | [] => None
      | _ :: t => search p (S i) t
      end
  end.

(** [s.match(p)] *)
Definition str_match (s : jsstring) (p : pattern) : option MatchResult :=
  search p 0 s.

(** Pattern text to syntax: a run of pattern characters. *)
Fixpoint chars (l : jsstring) : regex :=
  match l with
  | [] => Eps
  | c :: t => Seq (Atom (Chr c)) (chars t)
  end.

Definition lit (s : string) : regex := chars (js s).

End RegExp.

Import RegExp.

Declare Scope regex_scope.
Delimit Scope regex_scope with re.
Bind Scope regex_scope with regex.
Infix ">>" := Seq (at level 61, right associativity) : regex_scope.
Infix "<|>" := Alt (at level 62, right associativity) : regex_scope.

(** ** The identifier extractor

    Both route files define the same [extractVideoId]; each module below is
    translated from its own file. *)

(** The class that excludes the double quote (code unit 34), [&], [?], [/]
    and [\s].  The comments below write DQ for the double quote. *)
Definition not_delimiter : atom :=
  Class true [One 34; One 38; One 63; One 47; Space].

(** [[a-zA-Z0-9_-]] *)
Definition id_char : atom :=
  Class false [Range 97 122; Range 65 90; Range 48 57; One 95; One 45].

Definition slash : regex := Atom (Chr 47).

Module Info.

(** Lines 20-27 of the /info route. *)
Definition patterns : list pattern :=
  [ (* /(?:youtube\.com\/(?:[^\/]+\/.+\/|(?:v|e(?:mbed)?)\/|.*[?&]v=)|youtu\.be\/)([^DQ&?\/\s]{11})/i *)
    {| source :=
         ((lit "youtube.com/" >>
           ((Plus (Class true [One 47]) >> slash >> Plus Dot >> slash)
            <|> ((lit "v" <|> (lit "e" >> Opt (lit "mbed"))) >> slash)
            <|> (Star Dot >> Atom (Class false [One 63; One 38]) >> lit "v=")))
          <|> lit "youtu.be/") >>
         Group (Times 11 not_delimiter);
       ignoreCase := true |};
    (* /youtu\.be\/([^DQ&?\/\s]{11})/i *)
    {| source := lit "youtu.be/" >> Group (Times 11 not_delimiter);
       ignoreCase := true |};
    (* /youtube\.com\/embed\/([^DQ&?\/\s]{11})/i *)
    {| source := lit "youtube.com/embed/" >> Group (Times 11 not_delimiter);
       ignoreCase := true |};
    (* /youtube\.com\/shorts\/([^DQ&?\/\s]{11})/i *)
    {| source := lit "youtube.com/shorts/" >> Group (Times 11 not_delimiter);
       ignoreCase := true |};
    (* /youtube\.com\/v\/([^DQ&?\/\s]{11})/i *)
    {| source := lit "youtube.com/v/" >> Group (Times 11 not_delimiter);
       ignoreCase := true |};
    (* /^([a-zA-Z0-9_-]{11})$/ *)
    {| source := Bol >> Group (Times 11 id_char) >> Eol;
       ignoreCase := false |} ]%re.

(** [for (const pattern of patterns) { const match = url.match(pattern);
    if (match && match[1]) return match[1]; } return null;] *)
Fixpoint first_capture (ps : list pattern) (url : jsstring) : option jsstring :=
  match ps with
  | [] => None
  | p :: ps' =>
      match str_match url p with
      | Some m =>
          if truthy (group1 m) then group1 m else first_capture ps' url
      | None => first_capture ps' url
      end
  end.

Definition extractVideoId (url : jsstring) : option jsstring :=
  first_capture patterns url.

End Info.

Module Download.

(** Lines 7-14 of [src/app/api/download/route.ts]. *)
Definition patterns : list pattern :=
  [ (* /(?:youtube\.com\/(?:[^\/]+\/.+\/|(?:v|e(?:mbed)?)\/|.*[?&]v=)|youtu\.be\/)([^DQ&?\/\s]{11})/i *)
    {| source :=
         ((lit "youtube.com/" >>
           ((Plus (Class true [One 47]) >> slash >> Plus Dot >> slash)
            <|> ((lit "v" <|> (lit "e" >> Opt (lit "mbed"))) >> slash)
            <|> (Star Dot >> Atom (Class false [One 63; One 38]) >> lit "v=")))
          <|> lit "youtu.be/") >>
         Group (Times 11 not_delimiter);
       ignoreCase := true |};
    (* /youtu\.be\/([^DQ&?\/\s]{11})/i *)
    {| source := lit "youtu.be/" >> Group (Times 11 not_delimiter);
       ignoreCase := true |};
    (* /youtube\.com\/embed\/([^DQ&?\/\s]{11})/i *)
    {| source := lit "youtube.com/embed/" >> Group (Times 11 not_delimiter);
       ignoreCase := true |};
    (* /youtube\.com\/shorts\/([^DQ&?\/\s]{11})/i *)
    {| source := lit "youtube.com/shorts/" >> Group (Times 11 not_delimiter);
       ignoreCase := true |};
    (* /youtube\.com\/v\/([^DQ&?\/\s]{11})/i *)
    {| source := lit "youtube.com/v/" >> Group (Times 11 not_delimiter);
       ignoreCase := true |};
    (* /^([a-zA-Z0-9_-]{11})$/ *)
    {| source := Bol >> Group (Times 11 id_char) >> Eol;
       ignoreCase := false |} ]%re.

Fixpoint first_capture (ps : list pattern) (url : jsstring) : option jsstring :=
  match ps with
  | [] => None
  | p :: ps' =>
      match str_match url p with
      | Some m =>
          if truthy (group1 m) then group1 m else first_capture ps' url
      | None => first_capture ps' url
      end
  end.

Definition extractVideoId (url : jsstring) : option jsstring :=
  first_capture patterns url.

End Download.

(** ** Exceptions and outbound calls *)

(** A thrown value.  Every [throw] of the two files, every rejection of
    [fetch] and of [response.json()] throws an [Error] object; the handlers
    still test [error instanceof Error]. *)
Inductive Thrown : Type :=
| ErrorObject (message : jsstring)
| OtherValue.

Inductive Result (A : Type) : Type :=
| Returned (a : A)
| Threw (e : Thrown).

Arguments Returned {A} a.
Arguments Threw {A} e.

(** An outbound request, by the provider it goes to and the URL fetched. *)
Inductive Call : Type :=
| PrimaryCall (url : jsstring)
| FallbackCall (url : jsstring).

(** A computation that may throw and that records the outbound requests it
    makes, in order. *)
Definition IO (A : Type) : Type := list Call -> Result A * list Call.

Definition ret {A} (a : A) : IO A := fun log => (Returned a, log).

Definition throw {A} (e : Thrown) : IO A := fun log => (Threw e, log).

Definition bind {A B} (m : IO A) (k : A -> IO B) : IO B :=
  fun log =>
    match m log with
    | (Returned a, log') => k a log'
    | (Threw e, log') => (Threw e, log')
    end.

(** [try { m } catch (e) { h e }] *)
Definition try_catch {A} (m : IO A) (h : Thrown -> IO A) : IO A :=
  fun log =>
    match m log with
    | (Returned a, log') => (Returned a, log')
    | (Threw e, log') => h e log'
    end.

Declare Scope io_scope.
Delimit Scope io_scope with io.
Notation "x <- m ;; k" := (bind m (fun x => k))
  (at level 100, m at next level, right associativity) : io_scope.

(** What [fetch] gives: a rejection, or a response with its status and what
    [response.json()] gives (the parsed body or a rejection). *)
Inductive FetchOutcome (A : Type) : Type :=
| Rejected (e : Thrown)
| Responded (status : N) (json : Result A).

Arguments Rejected {A} e.
Arguments Responded {A} status json.

(** [response.ok] *)
Definition ok (status : N) : bool := ((200 <=? status) && (status <=? 299))%N.

(** ** JavaScript numbers, [toString], [split] and [parseInt]

    The numbers of these handlers are integers (identifiers, bit rates,
    counts, resolutions) or NaN.  An integer below 2^53 in magnitude is
    exact in JavaScript, and so are the sums and differences of two of them
    as far as their sign goes; beyond that magnitude a JavaScript number is
    rounded and [toString] leaves out digits or changes to the exponent
    notation.  The functions below compute with the integers themselves:
    they are what JavaScript computes below 2^53, and a statement that
    depends on the value or on the digits of a number carries that bound. *)

Inductive number : Type :=
| NaN
| Num (z : Z).

Definition sub (a b : number) : number :=
  match a, b with
  | Num x, Num y => Num (x - y)
  | _, _ => NaN
  end.

(** The number an arithmetic operator reads in a field that holds a number
    or is [undefined]: [undefined] reads as NaN. *)
Definition number_of (x : option Z) : number :=
  match x with
  | Some z => Num z
  | None => NaN
  end.

Definition digit_of (d : Z) : N := Z.to_N (48 + d).

Fixpoint digits_of (fuel : nat) (z : Z) (acc : jsstring) : jsstring :=
  match fuel with
  | O => acc
  | S fuel' =>
      if (z <? 10)%Z then digit_of z :: acc
      else digits_of fuel' (z / 10) (digit_of (z mod 10) :: acc)
  end.

(** [n.toString()] for an integer [n]. *)
Definition Z_toString (z : Z) : jsstring :=
  if (z <? 0)%Z
  then 45%N :: digits_of (S (Z.to_nat (Z.log2 (- z)))) (- z) []
  else digits_of (S (Z.to_nat (Z.log2 z))) z [].

(** [s.split(sep)[0]] for a one-character separator: the part before its
    first occurrence, the whole string when there is none. *)
Fixpoint split_head (sep : N) (s : jsstring) : jsstring :=
  match s with
  | [] => []
  | c :: t => if (c =? sep)%N then [] else c :: split_head sep t
  end.

Fixpoint trim_start (s : jsstring) : jsstring :=
  match s with
  | c :: t => if is_space c then trim_start t else s
  | [] => []
  end.

Definition digit_value (radix : Z) (c : N) : option Z :=
  let v :=
    if ((48 <=? c) && (c <=? 57))%N then Some (Z.of_N c - 48)%Z
    else if ((97 <=? c) && (c <=? 122))%N then Some (Z.of_N c - 87)%Z
    else if ((65 <=? c) && (c <=? 90))%N then Some (Z.of_N c - 55)%Z
    else None in
  match v with
  | Some d => if (d <? radix)%Z then Some d else None
  | None => None
  end.

(** The longest prefix of digits of the radix, read as a number; [None]
    when it is empty. *)
Fixpoint read_digits (radix : Z) (s : jsstring) (acc : option Z) : option Z :=
  match s with
  | c :: t =>
      match digit_value radix c with
      | Some d =>
          read_digits radix t
            (Some (match acc with Some a => a * radix + d | None => d end)%Z)
      | None => acc
      end
  | [] => acc
  end.

(** [parseInt(s)] with no radix argument: leading white space, a sign, a
    [0x] or [0X] prefix, then digits; NaN when no digit follows. *)
Definition parseInt (s : jsstring) : number :=
  let s1 := trim_start s in
  let '(sign, s2) :=
    match s1 with
    | 45%N :: t => ((-1)%Z, t)
    | 43%N :: t => (1%Z, t)
    | _ => (1%Z, s1)
    end in
  let '(radix, s3) :=
    match s2 with
    | 48%N :: 120%N :: t => (16%Z, t)
    | 48%N :: 88%N :: t => (16%Z, t)
    | _ => (10%Z, s2)
    end in
  match read_digits radix s3 None with
  | Some n => Num (sign * n)
  | None => NaN
  end.

(** [x || d] for strings. *)
Definition or_else (x : option jsstring) (d : jsstring) : jsstring :=
  match x with
  | Some ((_ :: _) as s) => s
  | _ => d
  end.

(** ** [Array.prototype.sort]

    SortCompare calls the comparator and reads NaN as +0.  The sort is
    stable (ECMAScript 2019 on), and for a consistent comparator stability
    fixes the result; the model is the stable insertion sort.  (On an
    inconsistent comparator the order is left to the implementation.) *)

Section Sort.

Variable A : Type.
Variable comparefn : A -> A -> number.

(** [true] when SortCompare(x, y) > 0, that is [y] must come before [x]. *)
Definition sort_after (x y : A) : bool :=
  match comparefn x y with
  | NaN => false
  | Num v => (0 <? v)%Z
  end.

Fixpoint insert (x : A) (l : list A) : list A :=
  match l with
  | [] => [x]
  | y :: l' => if sort_after x y then y :: insert x l' else x :: l
  end.

Fixpoint sort (l : list A) : list A :=
  match l with
  | [] => []
  | x :: l' => insert x (sort l')
  end.

End Sort.

Arguments sort_after {A} comparefn x y.
Arguments insert {A} comparefn x l.
Arguments sort {A} comparefn l.

(** ** The /info route *)

Module InfoRoute.

Import Info.
Local Open Scope io_scope.

(** [interface VideoFormat]; a field is [None] when it is [undefined]. *)
Record VideoFormat : Type :=
  { itag : jsstring;
    mimeType : option jsstring;
    qualityLabel : option jsstring;
    bitrate : option Z;
    hasVideo : bool;
    hasAudio : bool;
    container : option jsstring;
    codecs : option jsstring;
    contentLength : option jsstring }.

(** A JSON scalar that the handler calls [toString()] on. *)
Inductive Scalar : Type :=
| SNum (n : Z)
| SStr (s : jsstring).

Definition toString (v : Scalar) : jsstring :=
  match v with
  | SNum n => Z_toString n
  | SStr s => s
  end.

(** One entry of [videos.items] or [audios.items] of the primary
    provider's payload; a field the payload omits is [None].  The items are
    typed [any]: [interface VideoFormat] declares [bitrate] a number, but
    the handler copies whatever the item holds, a number or nothing. *)
Record RawItem : Type :=
  { id : option Scalar;
    raw_mimeType : option jsstring;
    raw_qualityLabel : option jsstring;
    raw_bitrate : option Z;
    audioQuality : option jsstring;
    raw_container : option jsstring;
    raw_codecs : option jsstring;
    raw_contentLength : option jsstring }.

(** The primary provider's payload, as far as the handler reads it.
    [videos_items] is [None] when [videos] or [videos.items] is missing,
    [channel_name] when [channel] or its [name] is, [thumbnail0_url] when
    [thumbnails], its first entry or that entry's [url] is.  A body of
    another shape (null, items that are no array) makes the handler throw
    inside the same [try] as a body that does not parse; the endpoint
    model below has it as a [json] that throws. *)
Record RapidApiData : Type :=
  { rapid_title : option jsstring;
    channel_name : option jsstring;
    rapid_lengthSeconds : option Scalar;
    rapid_viewCount : option Scalar;
    thumbnail0_url : option jsstring;
    videos_items : option (list RawItem);
    audios_items : option (list RawItem) }.

(** The fallback provider's payload. *)
Record OEmbedData : Type :=
  { oembed_title : option jsstring;
    author_name : option jsstring;
    thumbnail_url : option jsstring }.

(** The provider endpoints: what a [fetch] of a URL gives.  The handler
    fetches each URL at most once in a request.  [console.log] and
    [console.error] are not modelled. *)
Record World : Type :=
  { rapidApi : jsstring -> FetchOutcome RapidApiData;
    oEmbed : jsstring -> FetchOutcome OEmbedData }.

Record InfoResponse : Type :=
  { videoId : jsstring;
    title : option jsstring;
    author : option jsstring;
    lengthSeconds : jsstring;
    viewCount : jsstring;
    thumbnailUrl : option jsstring;
    formats : list VideoFormat }.

Inductive Body : Type :=
| ErrorBody (error : jsstring)
| InfoBody (info : InfoResponse).

(** [NextResponse.json(body, { status })]; the status is 200 when it is
    not given. *)
Record Response : Type := { status : N; body : Body }.

Section Handler.

Variable w : World.

Definition oembed_url (videoId : jsstring) : jsstring :=
  js "https://www.youtube.com/oembed?url=https://www.youtube.com/watch?v="
  ++ videoId ++ js "&format=json".

Definition rapidapi_url (videoId : jsstring) : jsstring :=
  js "https://youtube-media-downloader.p.rapidapi.com/v2/video/details?videoId="
  ++ videoId.

(** [await fetch(url)]: the request is made, and the promise rejects
    or resolves to a response. *)
Definition fetch {A} (call : Call) (outcome : FetchOutcome A)
  : IO (N * Result A) :=
  fun log =>
    match outcome with
    | Rejected e => (Threw e, log ++ [call])
    | Responded st json => (Returned (st, json), log ++ [call])
    end.

(** [await response.json()] *)
Definition response_json {A} (response : N * Result A) : IO A :=
  fun log => (snd response, log).

(** [fetchOEmbedInfo]: the [catch] logs and throws the error again. *)
Definition fetchOEmbedInfo (videoId : jsstring) : IO OEmbedData :=
  try_catch
    (let oembedUrl := oembed_url videoId in
     response <- fetch (FallbackCall oembedUrl) (oEmbed w oembedUrl) ;;
     if negb (ok (fst response))
     then throw (ErrorObject (js "oEmbed API returned status "
                              ++ Z_toString (Z.of_N (fst response))))
     else
       data <- response_json response ;;
       ret data)
    (fun error => throw error).

(** [fetchRapidApiInfo] *)
Definition fetchRapidApiInfo (videoId : jsstring) : IO RapidApiData :=
  try_catch
    (let url := rapidapi_url videoId in
     response <- fetch (PrimaryCall url) (rapidApi w url) ;;
     if negb (ok (fst response))
     then throw (ErrorObject (js "Rapid API returned status "
                              ++ Z_toString (Z.of_N (fst response))))
     else
       data <- response_json response ;;
       ret data)
    (fun error => throw error).

(** [item.id.toString()]: a TypeError when [item.id] is undefined. *)
Definition id_toString (item : RawItem) : IO jsstring :=
  match id item with
  | Some v => ret (toString v)
  | None =>
      throw (ErrorObject
               (js "Cannot read properties of undefined (reading 'toString')"))
  end.

(** The body of the first [forEach] (lines 126-136). *)
Definition video_format (item : RawItem) : IO VideoFormat :=
  i <- id_toString item ;;
  ret {| itag := i;
         mimeType := raw_mimeType item;
         qualityLabel := raw_qualityLabel item;
         bitrate := raw_bitrate item;
         hasVideo := true;
         hasAudio := match audioQuality item with Some _ => true | None => false end;
         container := raw_container item;
         codecs := raw_codecs item;
         contentLength := raw_contentLength item |}.

(** The body of the second [forEach] (lines 143-153). *)
Definition audio_format (item : RawItem) : IO VideoFormat :=
  i <- id_toString item ;;
  ret {| itag := i;
         mimeType := Some (js "audio/" ++ or_else (raw_container item) (js "mp3"));
         qualityLabel := Some (js "Audio Only");
         bitrate := raw_bitrate item;
         hasVideo := false;
         hasAudio := true;
         container := raw_container item;
         codecs := raw_codecs item;
         contentLength := raw_contentLength item |}.

(** [items.forEach(item => formats.push(f item))], run on [formats]. *)
Fixpoint push_each (f : RawItem -> IO VideoFormat) (items : list RawItem)
         (formats : list VideoFormat) : IO (list VideoFormat) :=
  match items with
  | [] => ret formats
  | item :: items' =>
      x <- f item ;;
      push_each f items' (formats ++ [x])
  end.

Definition push_items (f : RawItem -> IO VideoFormat)
           (items : option (list RawItem)) (formats : list VideoFormat)
  : IO (list VideoFormat) :=
  match items with
  | Some l => push_each f l formats
  | None => ret formats
  end.

(** Lines 121-155: the formats before they are sorted. *)
Definition collect_formats (rapidApiData : RapidApiData) : IO (list VideoFormat) :=
  formats <- push_items video_format (videos_items rapidApiData) [] ;;
  push_items audio_format (audios_items rapidApiData) formats.

(** [parseInt(f.qualityLabel?.split('p')[0] || '0')]; 112 is [p]. *)
Definition resolution (f : VideoFormat) : number :=
  parseInt (or_else (option_map (split_head 112) (qualityLabel f)) (js "0")).

(** The comparator of lines 158-172. *)
Definition compare_formats (a b : VideoFormat) : number :=
  if hasVideo a && negb (hasVideo b) then Num (-1)
  else if negb (hasVideo a) && hasVideo b then Num 1
  else if hasVideo a && hasVideo b
       then sub (resolution b) (resolution a)
       else sub (number_of (bitrate b)) (number_of (bitrate a)).

(** Lines 121-172: the Format Normalizer. *)
Definition normalize (rapidApiData : RapidApiData) : IO (list VideoFormat) :=
  formats <- collect_formats rapidApiData ;;
  ret (sort compare_formats formats).

Definition scalar_or (v : option Scalar) (d : jsstring) : jsstring :=
  or_else (option_map toString v) d.

(** Lines 117-187: the primary path. *)
Definition primary_path (videoId : jsstring) : IO Response :=
  rapidApiData <- fetchRapidApiInfo videoId ;;
  formats <- normalize rapidApiData ;;
  ret {| status := 200;
         body := InfoBody
           {| videoId := videoId;
              title := rapid_title rapidApiData;
              author := Some (or_else (channel_name rapidApiData) (js "Unknown"));
              lengthSeconds := scalar_or (rapid_lengthSeconds rapidApiData) (js "0");
              viewCount := scalar_or (rapid_viewCount rapidApiData) (js "0");
              thumbnailUrl := Some (or_else (thumbnail0_url rapidApiData) []);
              formats := formats |} |}.

(** Lines 197-220: the two formats of the fallback path. *)
Definition fallback_formats : list VideoFormat :=
  [ {| itag := js "18";
       mimeType := Some (js "video/mp4");
       qualityLabel := Some (js "360p");
       bitrate := Some 0%Z;
       hasVideo := true;
       hasAudio := true;
       container := Some (js "mp4");
       codecs := Some (js "avc1.42001E, mp4a.40.2");
       contentLength := Some (js "0") |};
    {| itag := js "140";
       mimeType := Some (js "audio/mp4");
       qualityLabel := Some (js "Audio Only");
       bitrate := Some 128000%Z;
       hasVideo := false;
       hasAudio := true;
       container := Some (js "mp4");
       codecs := Some (js "mp4a.40.2");
       contentLength := Some (js "0") |} ].

(** Lines 192-234: the fallback path. *)
Definition fallback_path (videoId : jsstring) : IO Response :=
  oembedData <- fetchOEmbedInfo videoId ;;
  ret {| status := 200;
         body := InfoBody
           {| videoId := videoId;
              title := oembed_title oembedData;
              author := author_name oembedData;
              lengthSeconds := js "0";
              viewCount := js "0";
              thumbnailUrl := thumbnail_url oembedData;
              formats := fallback_formats |} |}.

Definition json_error (message : jsstring) (st : N) : Response :=
  {| status := st; body := ErrorBody message |}.

(** [export async function GET(request)]; [url] is
    [request.nextUrl.searchParams.get('url')]. *)
Definition GET (url : option jsstring) : IO Response :=
  match url with
  | Some ((_ :: _) as url) =>
      try_catch
        (match extractVideoId url with
         | Some ((_ :: _) as videoId) =>
             try_catch (primary_path videoId)
               (fun rapidApiError =>
                  try_catch (fallback_path videoId)
                    (fun oembedError =>
                       throw (ErrorObject
                                (js "All methods failed to fetch video information"))))
         | _ => ret (json_error (js "Could not extract video ID from URL") 400)
         end)
        (fun error =>
           let errorMessage :=
             match error with
             | ErrorObject message => message
             | OtherValue => js "Failed to fetch video information"
             end in
           ret (json_error errorMessage 500))
  | _ => ret (json_error (js "URL parameter is required") 400)
  end.

End Handler.

(** A request served from an empty log: the response (or what escaped the
    handler) and the outbound calls made. *)
Definition serve (w : World) (url : option jsstring) : Result Response * list Call :=
  GET w url [].

End InfoRoute.

(** ** The URL parser

    [NextResponse.redirect(url)] sends [String(new URL(String(url)))] as
    the [Location] of its response.  Every address the /download handler
    passes is the text [https://www.y2mate.com/] followed by text of the
    request.  The scheme, authority and host states of the parser read that
    prefix, which has nothing to normalize, up to its last [/]; the path,
    query and fragment states read what follows.  They are the states
    modelled here, for a special scheme, with the percent-encode sets of the
    URL Standard.  The standard has [^] in the path percent-encode set, its
    earlier editions do not, and a runtime follows one or the other: the
    parser is modelled for either, by a flag. *)

Module URL.

Local Open Scope N_scope.

(** A string as a sequence of code points: a surrogate pair is one code
    point, a lone surrogate is read as U+FFFD. *)
Definition is_lead (c : N) : bool := (0xD800 <=? c) && (c <=? 0xDBFF).

Definition is_trail (c : N) : bool := (0xDC00 <=? c) && (c <=? 0xDFFF).

Fixpoint code_points (s : jsstring) : list N :=
  match s with
  | [] => []
  | c :: t =>
      if is_lead c then
        match t with
        | d :: t' =>
            if is_trail d
            then (0x10000 + (c - 0xD800) * 0x400 + (d - 0xDC00)) :: code_points t'
            else 0xFFFD :: code_points t
        | [] => [0xFFFD]
        end
      else if is_trail c then 0xFFFD :: code_points t
      else c :: code_points t
  end.

(** The octets of a code point in UTF-8. *)
Definition utf8 (c : N) : list N :=
  if c <? 0x80 then [c]
  else if c <? 0x800 then [0xC0 + c / 0x40; 0x80 + c mod 0x40]
  else if c <? 0x10000
       then [0xE0 + c / 0x1000; 0x80 + (c / 0x40) mod 0x40; 0x80 + c mod 0x40]
       else [0xF0 + c / 0x40000; 0x80 + (c / 0x1000) mod 0x40;
             0x80 + (c / 0x40) mod 0x40; 0x80 + c mod 0x40].

Definition hex_digit (d : N) : N := if d <? 10 then 48 + d else 55 + d.

(** [%] and the two upper-case hexadecimal digits of an octet. *)
Definition percent_encode (b : N) : jsstring :=
  [37; hex_digit (b / 16); hex_digit (b mod 16)].

(** The percent-encode sets. *)
Definition c0_control_set (c : N) : bool := (c <? 0x20) || (0x7E <? c).

Definition fragment_set (c : N) : bool :=
  c0_control_set c || existsb (N.eqb c) [0x20; 0x22; 0x3C; 0x3E; 0x60].

Definition query_set (c : N) : bool :=
  c0_control_set c || existsb (N.eqb c) [0x20; 0x22; 0x23; 0x3C; 0x3E].

Definition special_query_set (c : N) : bool := query_set c || (c =? 0x27).

(** [caret] tells whether the parser has [^] (0x5E) in the set. *)
Definition path_set (caret : bool) (c : N) : bool :=
  query_set c || existsb (N.eqb c) [0x3F; 0x60; 0x7B; 0x7D]
  || (caret && (c =? 0x5E)).

(** UTF-8 percent-encode a code point using a set. *)
Definition utf8_percent_encode (set : N -> bool) (c : N) : jsstring :=
  if set c then flat_map percent_encode (utf8 c) else [c].

(** The input without its trailing C0 controls and spaces and without any
    tab or newline.  (The leading ones are those of the whole address,
    which begins with the scheme.) *)
Definition is_c0_or_space (c : N) : bool := c <=? 0x20.

Definition is_tab_or_newline (c : N) : bool :=
  (c =? 0x09) || (c =? 0x0A) || (c =? 0x0D).

Fixpoint strip_leading (s : list N) : list N :=
  match s with
  | c :: t => if is_c0_or_space c then strip_leading t else s
  | [] => []
  end.

Definition strip_trailing (s : list N) : list N := rev (strip_leading (rev s)).

Definition cleaned (s : list N) : list N :=
  filter (fun c => negb (is_tab_or_newline c)) (strip_trailing s).

(** ASCII lower case, to compare a segment with the dot segments. *)
Definition lower (c : N) : N := if (65 <=? c) && (c <=? 90) then c + 32 else c.

Definition same_text (a b : jsstring) : bool :=
  if list_eq_dec N.eq_dec (map lower a) b then true else false.

Definition single_dot (buffer : jsstring) : bool :=
  same_text buffer (js ".") || same_text buffer (js "%2e").

Definition double_dot (buffer : jsstring) : bool :=
  same_text buffer (js "..") || same_text buffer (js ".%2e")
  || same_text buffer (js "%2e.") || same_text buffer (js "%2e%2e").

(** A parsed URL, after its host: the segments of the path, the query and
    the fragment ([None] is null). *)
Record Parts : Type :=
  { path : list jsstring;
    query : option jsstring;
    fragment : option jsstring }.

(** Path state, at the end of a segment; [slash] tells whether the segment
    ended at [/] or [\]. *)
Definition end_segment (buffer : jsstring) (slash : bool) (path : list jsstring)
  : list jsstring :=
  if double_dot buffer
  then (if slash then removelast path else removelast path ++ [[]])
  else if single_dot buffer
       then (if slash then path else path ++ [[]])
       else path ++ [buffer].

(** Fragment state. *)
Definition fragment_state (input : list N) : jsstring :=
  flat_map (utf8_percent_encode fragment_set) input.

(** Query state, for a special scheme; 35 is [#]. *)
Fixpoint query_state (input : list N) (buffer : jsstring)
  : jsstring * option jsstring :=
  match input with
  | [] => (buffer, None)
  | c :: t =>
      if c =? 35 then (buffer, Some (fragment_state t))
      else query_state t (buffer ++ utf8_percent_encode special_query_set c)
  end.

(** Path state, for a special scheme: 47 is [/], 92 the backslash, 63 [?]
    and 35 [#]. *)
Fixpoint path_state (caret : bool) (input : list N) (buffer : jsstring)
         (path : list jsstring) : Parts :=
  match input with
  | [] => {| path := end_segment buffer false path; query := None; fragment := None |}
  | c :: t =>
      if (c =? 47) || (c =? 92)
      then path_state caret t [] (end_segment buffer true path)
      else if c =? 63
      then let '(q, f) := query_state t [] in
           {| path := end_segment buffer false path; query := Some q; fragment := f |}
      else if c =? 35
      then {| path := end_segment buffer false path;
              query := None;
              fragment := Some (fragment_state t) |}
      else path_state caret t (buffer ++ utf8_percent_encode (path_set caret) c) path
  end.

(** The URL serializer, after the host. *)
Definition serialize (u : Parts) : jsstring :=
  flat_map (fun segment => 47 :: segment) (path u)
  ++ match query u with Some q => 63 :: q | None => [] end
  ++ match fragment u with Some f => 35 :: f | None => [] end.

(** [String(new URL(origin + '/' + rest))], for an [origin] that is a
    special scheme, [://] and a host as the parser writes it. *)
Definition href (caret : bool) (origin rest : jsstring) : jsstring :=
  origin ++ serialize (path_state caret (cleaned (code_points rest)) [] []).

End URL.

(** ** The /download route *)

Module DownloadRoute.

Import Download.
Local Open Scope io_scope.

Inductive Response : Type :=
| Json (status : N) (error : jsstring)    (* NextResponse.json({ error }, { status }) *)
| Redirect (location : jsstring).         (* NextResponse.redirect(url), by its Location *)

(** The mirror.  Every address the handler builds is the text
    [https://www.y2mate.com/] followed by a path of its own. *)
Definition mirror : jsstring := js "https://www.y2mate.com".

Definition at_mirror (rest : jsstring) : jsstring := mirror ++ 47%N :: rest.

Section Runtime.

(** The URL parser of the runtime: whether it encodes [^] in a path. *)
Variable caret : bool.

(** [NextResponse.redirect(at_mirror rest)].  The call throws on a string
    that is not an absolute URL; the URL parser accepts an address at the
    mirror whatever [rest] is, so the call returns.  The [Location] of the
    response is the address as the parser writes it back. *)
Definition redirect (rest : jsstring) : IO Response :=
  ret (Redirect (URL.href caret mirror rest)).

(** Lines 63-81: the redirect for [finalVideoId].  [mp3DownloadUrl] and
    [downloadUrl] are held without the [https://www.y2mate.com/] that each
    template starts with. *)
Definition download_link (itag format : option jsstring) (finalVideoId : jsstring)
  : IO Response :=
  if match format with
     | Some f => jsstring_eqb f (js "mp3")
     | None => false
     end
  then
    let mp3DownloadUrl := js "youtube-mp3/" ++ finalVideoId in
    redirect mp3DownloadUrl
  else
    let downloadUrl :=
      match itag with
      | Some ((_ :: _) as itag) =>
          js "youtube/" ++ finalVideoId ++ js "/mp4/" ++ itag
      | _ => js "youtube/" ++ finalVideoId
      end in
    redirect downloadUrl.

(** [export async function GET(request)]; the four arguments are the
    [searchParams.get] of [url], [itag], [format] and [videoId].
    [finalVideoId] starts as the empty string and is set from [videoId] or
    from the URL. *)
Definition GET (url itag format videoId : option jsstring) : IO Response :=
  if falsy url && falsy videoId
  then ret (Json 400 (js "URL or videoId parameter is required"))
  else
    try_catch
      (match videoId with
       | Some ((_ :: _) as videoId) => download_link itag format videoId
       | _ =>
           match url with
           | Some ((_ :: _) as url) =>
               match extractVideoId url with
               | Some ((_ :: _) as extractedId) => download_link itag format extractedId
               | _ => ret (Json 400 (js "Invalid YouTube URL. Could not extract video ID."))
               end
           | _ => download_link itag format []
           end
       end)
      (fun error =>
         let errorMessage :=
           match error with
           | ErrorObject message => message
           | OtherValue => js "Failed to process download"
           end in
         ret (Json 500 errorMessage)).

Definition serve (url itag format videoId : option jsstring) : Result Response * list Call :=
  GET url itag format videoId [].

End Runtime.

End DownloadRoute.

(** * Vocabulary of the statements *)

Module Vocabulary.

(** *** The matcher *)

Definition mk (i : nat) (s : jsstring) (cap : option jsstring) : MatchState :=
  {| endIndex := i; rest := s; capture1 := cap |}.

(** [st'] is [st] moved forward over [w]. *)
Definition advanced (st st' : MatchState) (w : jsstring) : Prop :=
  rest st = w ++ rest st' /\ endIndex st' = endIndex st + length w.

(** What is left of [s] after the pattern characters [l], if [s] starts
    with them. *)
Fixpoint strip (ic : bool) (l s : jsstring) : option jsstring :=
  match l with
  | [] => Some s
  | x :: l' =>
      match s with
      | c :: t => if atom_match ic (Chr x) c then strip ic l' t else None
      | [] => None
      end
  end.

(** Every match of [r] goes through a [/] (code unit 47) of the input:
    a sufficient syntactic test. *)
Fixpoint needs_slash (r : regex) : bool :=
  match r with
  | Atom (Chr c) => (c =? 47)%N
  | Seq r1 r2 => needs_slash r1 || needs_slash r2
  | Alt r1 r2 => needs_slash r1 && needs_slash r2
  | Group r1 => needs_slash r1
  | _ => false
  end.

(** Every match of [r] begins with the pattern character [x]: a
    sufficient syntactic test. *)
Fixpoint begins_with (x : N) (r : regex) : bool :=
  match r with
  | Atom (Chr c) => (c =? x)%N
  | Seq r1 _ => begins_with x r1
  | Alt r1 r2 => begins_with x r1 && begins_with x r2
  | Group r1 => begins_with x r1
  | _ => false
  end.

(** *** The identifier extractor *)

Local Open Scope N_scope.

(** The characters the captured run of the five URL rules excludes: the
    double quote, [&], [?], [/] and white space. *)
Definition is_delimiter (c : N) : bool :=
  (c =? 34) || (c =? 38) || (c =? 63) || (c =? 47) || is_space c.

(** The identifier alphabet [A-Za-z0-9_-]. *)
Definition is_id_char (c : N) : bool :=
  ((97 <=? c) && (c <=? 122)) || ((65 <=? c) && (c <=? 90))
  || ((48 <=? c) && (c <=? 57)) || (c =? 95) || (c =? 45).

(** [?] or [&]. *)
Definition is_query_sep (c : N) : bool := (c =? 63) || (c =? 38).

(** [v] or [V]. *)
Definition is_v (c : N) : bool := (c =? 118) || (c =? 86).

(** The input starts with [?v=] or [&v=], the [v] in either case. *)
Definition v_param_at (s : jsstring) : bool :=
  match s with
  | q :: t =>
      is_query_sep q
      && match t with
         | v :: t' =>
             is_v v && match t' with e :: _ => e =? 61 | [] => false end
         | [] => false
         end
  | [] => false
  end.

(** The input holds a [v] parameter somewhere. *)
Fixpoint has_v_param (s : jsstring) : bool :=
  match s with
  | [] => false
  | _ :: t => v_param_at s || has_v_param t
  end.

Definition has_slash (s : jsstring) : bool := existsb (N.eqb 47) s.

(** [y] or [Y]. *)
Definition is_y (c : N) : bool := (c =? 121) || (c =? 89).

(** A video identifier as the data model has it. *)
Definition valid_id (v : jsstring) : Prop :=
  length v = 11%nat /\ Forall (fun c => is_id_char c = true) v.

(** The URL forms with an identifier in them. *)
Inductive url_form : Type :=
| WatchUrl     (* youtube.com/watch?v=ID *)
| ShortLink    (* youtu.be/ID *)
| EmbedUrl     (* youtube.com/embed/ID *)
| ShortsUrl    (* youtube.com/shorts/ID *)
| VUrl.        (* youtube.com/v/ID *)

Definition form_path (f : url_form) : jsstring :=
  match f with
  | WatchUrl => js "youtube.com/watch?v="
  | ShortLink => js "youtu.be/"
  | EmbedUrl => js "youtube.com/embed/"
  | ShortsUrl => js "youtube.com/shorts/"
  | VUrl => js "youtube.com/v/"
  end.

Definition schemes : list jsstring := [ []; js "http://"; js "https://" ].

Definition subdomains : list jsstring := [ []; js "www."; js "m." ].

(** What may follow the identifier, form by form: anything after a short
    link; text without [/] after an embed or /v/ URL; text without [/] and
    without a further [v] parameter after a watch or shorts URL. *)
Definition plain_tail (f : url_form) (suf : jsstring) : bool :=
  match f with
  | ShortLink => true
  | EmbedUrl | VUrl => negb (has_slash suf)
  | WatchUrl | ShortsUrl => negb (has_slash suf) && negb (has_v_param suf)
  end.

(** [url] is one of the six recognized shapes around the identifier [v]. *)
Inductive recognized (v : jsstring) : jsstring -> Prop :=
| in_url scheme sub f suf :
    In scheme schemes -> In sub subdomains -> plain_tail f suf = true ->
    recognized v (scheme ++ sub ++ form_path f ++ v ++ suf)
| bare : recognized v v.

(** The player address of the IFrame API: an embed URL with parameters, the
    last of them an [origin]. *)
Definition embed_with_origin : jsstring :=
  js "http://www.youtube.com/embed/M7lc1UVf-VE?enablejsapi=1&origin=http://example.com".

Local Close Scope N_scope.

(** An input with no [y] in it, in either case. *)
Definition no_y (pre : jsstring) : Prop :=
  Forall (fun c => atom_match true (Chr 121) c = false) pre.

(** The first rule without its capturing group. *)
Definition rule1_head : regex :=
  ((lit "youtube.com/" >>
    ((Plus (Class true [One 47]) >> slash >> Plus Dot >> slash)
     <|> ((lit "v" <|> (lit "e" >> Opt (lit "mbed"))) >> slash)
     <|> (Star Dot >> Atom (Class false [One 63; One 38]) >> lit "v=")))
   <|> lit "youtu.be/")%re.

(** The pattern text [[?&]v=]. *)
Abbreviation v_param :=
  (Seq (Atom (Class false [One 63; One 38])) (chars [118%N; 61%N])).

(** *** The /info route *)

Import InfoRoute.

(** What [fetchRapidApiInfo] and [fetchOEmbedInfo] give for an identifier:
    the data, or what they throw. *)
Definition primary_outcome (w : World) (v : jsstring) : Result RapidApiData :=
  fst (fetchRapidApiInfo w v []).

Definition fallback_outcome (w : World) (v : jsstring) : Result OEmbedData :=
  fst (fetchOEmbedInfo w v []).

Definition is_fallback_call (c : Call) : bool :=
  match c with FallbackCall _ => true | PrimaryCall _ => false end.

Definition fallback_attempts (log : list Call) : nat :=
  length (filter is_fallback_call log).

(** A computation that makes no outbound call and does not read the log. *)
Definition pure {A} (m : IO A) : Prop := forall log, m log = (fst (m []), log).

(** The three responses to a request with an extractable identifier. *)
Definition primary_response (v : jsstring) (data : RapidApiData)
           (fs : list VideoFormat) : Response :=
  {| status := 200;
     body := InfoBody
       {| videoId := v;
          title := rapid_title data;
          author := Some (or_else (channel_name data) (js "Unknown"));
          lengthSeconds := scalar_or (rapid_lengthSeconds data) (js "0");
          viewCount := scalar_or (rapid_viewCount data) (js "0");
          thumbnailUrl := Some (or_else (thumbnail0_url data) []);
          formats := fs |} |}.

Definition fallback_response (v : jsstring) (d : OEmbedData) : Response :=
  {| status := 200;
     body := InfoBody
       {| videoId := v;
          title := oembed_title d;
          author := author_name d;
          lengthSeconds := js "0";
          viewCount := js "0";
          thumbnailUrl := thumbnail_url d;
          formats := fallback_formats |} |}.

Definition all_failed : Response :=
  json_error (js "All methods failed to fetch video information") 500.

(** Substrings. *)
Fixpoint starts_with (p s : jsstring) : bool :=
  match p, s with
  | [], _ => true
  | x :: p', c :: s' => (x =? c)%N && starts_with p' s'
  | _ :: _, [] => false
  end.

Fixpoint contains (needle hay : jsstring) : bool :=
  starts_with needle hay
  || match hay with
     | [] => false
     | _ :: t => contains needle t
     end.

Definition items_of (items : option (list RawItem)) : list RawItem :=
  match items with Some l => l | None => [] end.

(** [f] maps [item] to [x] without throwing. *)
Definition maps_to (f : RawItem -> IO VideoFormat) (item : RawItem)
           (x : VideoFormat) : Prop :=
  fst (f item []) = Returned x.

Definition is_present {A} (x : option A) : bool :=
  match x with Some _ => true | None => false end.

(** An integer that JavaScript holds exactly, with its neighbours: one
    below 2^53 in magnitude. *)
Definition safe_integer (z : Z) : Prop := (- 2 ^ 53 < z < 2 ^ 53)%Z.

(** [t] is the text of the scalar [v]: the string itself, or the decimal
    digits of a number that JavaScript holds exactly. *)
Definition text_of (v : Scalar) (t : jsstring) : Prop :=
  match v with
  | SStr s => t = s
  | SNum n => safe_integer n -> t = Z_toString n
  end.

(** The fields a Format takes over from its item as they are: the tag,
    which is the text of the item's [id], the bit rate, the container, the
    codecs and the content length. *)
Definition copied (item : RawItem) (x : VideoFormat) : Prop :=
  (exists v, id item = Some v /\ text_of v (itag x))
  /\ bitrate x = raw_bitrate item
  /\ container x = raw_container item
  /\ codecs x = raw_codecs item
  /\ contentLength x = raw_contentLength item.

(** The Format of a video item and of an audio item, field by field. *)
Definition video_rel (item : RawItem) (x : VideoFormat) : Prop :=
  hasVideo x = true /\ hasAudio x = is_present (audioQuality item)
  /\ qualityLabel x = raw_qualityLabel item
  /\ mimeType x = raw_mimeType item
  /\ copied item x.

Definition audio_rel (item : RawItem) (x : VideoFormat) : Prop :=
  hasVideo x = false /\ hasAudio x = true
  /\ qualityLabel x = Some (js "Audio Only")
  /\ mimeType x = Some (js "audio/" ++ or_else (raw_container item) (js "mp3"))
  /\ copied item x.

(** Sample provider endpoints and payloads. *)
Definition forbidden : World :=
  {| rapidApi := fun _ => Responded 403 (Threw (ErrorObject (js "Unexpected token")));
     oEmbed := fun _ =>
       Responded 200
         (Returned {| oembed_title := Some (js "Never Gonna Give You Up");
                      author_name := Some (js "Rick Astley");
                      thumbnail_url := None |}) |}.

Definition unreachable : World :=
  {| rapidApi := fun _ => Rejected (ErrorObject (js "fetch failed"));
     oEmbed := fun _ => Responded 404 (Threw (ErrorObject (js "Unexpected token"))) |}.

Definition webm_audio : RawItem :=
  {| id := Some (SNum 251);
     raw_mimeType := Some (js "audio/webm; codecs=opus");
     raw_qualityLabel := None;
     raw_bitrate := Some 160000%Z;
     audioQuality := Some (js "AUDIO_QUALITY_MEDIUM");
     raw_container := Some (js "webm");
     raw_codecs := Some (js "opus");
     raw_contentLength := None |}.

Definition one_audio : RapidApiData :=
  {| rapid_title := Some (js "T");
     channel_name := None;
     rapid_lengthSeconds := None;
     rapid_viewCount := None;
     thumbnail0_url := None;
     videos_items := None;
     audios_items := Some [webm_audio] |}.

Definition webm_format : VideoFormat :=
  {| itag := js "251";
     mimeType := Some (js "audio/webm");
     qualityLabel := Some (js "Audio Only");
     bitrate := Some 160000%Z;
     hasVideo := false;
     hasAudio := true;
     container := Some (js "webm");
     codecs := Some (js "opus");
     contentLength := None |}.

Definition primary_up : World :=
  {| rapidApi := fun _ => Responded 200 (Returned one_audio);
     oEmbed := fun _ => Rejected OtherValue |}.

Definition labelled (i : Z) (label : string) : RawItem :=
  {| id := Some (SNum i);
     raw_mimeType := Some (js "video/mp4");
     raw_qualityLabel := Some (js label);
     raw_bitrate := Some 0%Z;
     audioQuality := None;
     raw_container := Some (js "mp4");
     raw_codecs := None;
     raw_contentLength := None |}.

(** A payload with one video labelled [hd] and one labelled [720p]. *)
Definition unparseable_label : RapidApiData :=
  {| rapid_title := Some (js "T");
     channel_name := None;
     rapid_lengthSeconds := None;
     rapid_viewCount := None;
     thumbnail0_url := None;
     videos_items := Some [labelled 1 "hd"; labelled 22 "720p"];
     audios_items := None |}.

(** The number a video label stands for; 0 when [parseInt] gives NaN. *)
Definition resolution_value (f : VideoFormat) : Z :=
  match resolution f with Num r => r | NaN => 0%Z end.

(** The bit rate of a format; 0 when it has none. *)
Definition bitrate_value (f : VideoFormat) : Z :=
  match bitrate f with Some b => b | None => 0%Z end.

(** [a] must come before [b]: a video before an audio, the higher
    resolution first among videos, the higher bit rate first among audios. *)
Definition must_precede (a b : VideoFormat) : Prop :=
  (hasVideo a = true /\ hasVideo b = false)
  \/ (hasVideo a = true /\ hasVideo b = true
      /\ (resolution_value b < resolution_value a)%Z)
  \/ (hasVideo a = false /\ hasVideo b = false
      /\ (bitrate_value b < bitrate_value a)%Z).

(** The place of a Format in the ordering rule: the group, then the
    quality, both falling. *)
Definition rank (f : VideoFormat) : Z * Z :=
  if hasVideo f then (0, - resolution_value f)%Z else (1, - bitrate_value f)%Z.

(** The comparator can grade the format: the label of a video parses to an
    exact number, the bit rate of an audio is there and is one. *)
Definition graded (f : VideoFormat) : Prop :=
  if hasVideo f
  then exists r, resolution f = Num r /\ safe_integer r
  else exists b, bitrate f = Some b /\ safe_integer b.

Definition rank_lt (p q : Z * Z) : Prop :=
  (fst p < fst q)%Z \/ (fst p = fst q /\ (snd p < snd q)%Z).

(** [a] and [b] compare equal. *)
Definition same_rank (a b : VideoFormat) : bool :=
  (fst (rank a) =? fst (rank b))%Z && (snd (rank a) =? snd (rank b))%Z.

(** The formats of the ordering example: videos at 480p and 720p, audios at
    128 and 256 kbps. *)
Definition sample_format (label : string) (rate : Z) (video : bool) : VideoFormat :=
  {| itag := js label;
     mimeType := None;
     qualityLabel := Some (js label);
     bitrate := Some rate;
     hasVideo := video;
     hasAudio := true;
     container := None;
     codecs := None;
     contentLength := None |}.

Definition mixed_formats : list VideoFormat :=
  [ sample_format "480p" 0 true; sample_format "720p" 0 true;
    sample_format "Audio Only" 128000 false; sample_format "Audio Only" 256000 false ].

(** *** The /download route *)

Definition bad_request (resp : DownloadRoute.Response) : Prop :=
  exists e, resp = DownloadRoute.Json 400 e.

(** The mirror address for an identifier, a tag and a format:
    the MP3 page for the format [mp3]; otherwise the MP4 page of the tag
    when there is one, and the mirror's default page when there is none. *)
Definition mirror_target (id : jsstring) (itag format : option jsstring)
           (location : jsstring) : Prop :=
  (format = Some (js "mp3")
   /\ location = js "https://www.y2mate.com/youtube-mp3/" ++ id)
  \/ (format <> Some (js "mp3")
      /\ exists t, itag = Some t /\ t <> []
                   /\ location = js "https://www.y2mate.com/youtube/" ++ id
                                 ++ js "/mp4/" ++ t)
  \/ (format <> Some (js "mp3") /\ truthy itag = false
      /\ location = js "https://www.y2mate.com/youtube/" ++ id).

(** [location] is [address], an address at the mirror, as the URL parser
    writes it back. *)
Definition written_back (caret : bool) (address location : jsstring) : Prop :=
  exists rest, address = DownloadRoute.at_mirror rest
               /\ location = URL.href caret DownloadRoute.mirror rest.

(** A character that every parser copies into a path segment as it is: a
    visible ASCII character outside the path percent-encode set (the larger
    one, with [^]) that is neither [/] nor the backslash. *)
Definition path_char (c : N) : bool :=
  negb (URL.path_set true c) && negb (c =? 47)%N && negb (c =? 92)%N.

(** A text that the parser keeps as one path segment: it is made of such
    characters and is no dot segment. *)
Definition kept_segment (s : jsstring) : bool :=
  forallb path_char s && negb (URL.single_dot s) && negb (URL.double_dot s).

(** Segments with a [/] between them. *)
Fixpoint joined (segments : list jsstring) : jsstring :=
  match segments with
  | [] => []
  | [seg] => seg
  | seg :: rest => seg ++ 47%N :: joined rest
  end.

(** The response redirects for the identifier [id]: its [Location] is the
    mirror address of [id], the tag and the format as the URL parser writes
    it back, which is the address itself when the parser keeps the
    identifier and, where the address holds it, the tag. *)
Definition redirects_for (caret : bool) (id : jsstring) (itag format : option jsstring)
           (resp : DownloadRoute.Response) : Prop :=
  exists address location,
    resp = DownloadRoute.Redirect location
    /\ mirror_target id itag format address
    /\ written_back caret address location
    /\ (kept_segment id = true ->
        format = Some (js "mp3") \/ (forall t, itag = Some t -> kept_segment t = true) ->
        location = address).

End Vocabulary.

Import Vocabulary.

(** * The client components

    The React components that call the two routes and show what they
    answer: the pure computations of each component, and its event handlers
    as state transformers.  Rendering, [console] output, the timers of
    [useEffect] and [localStorage] are not modelled. *)

(** ** More of the JavaScript library *)

(** [s.trim()]: white space and line terminators are removed at both ends;
    they are the code units [\s] matches. *)
Definition trim_end (s : jsstring) : jsstring := rev (trim_start (rev s)).

Definition trim (s : jsstring) : jsstring := trim_end (trim_start s).

(** [s.startsWith(x)] and [s.includes(x)] *)
Fixpoint startsWith (s x : jsstring) : bool :=
  match x, s with
  | [], _ => true
  | a :: x', c :: s' => (a =? c)%N && startsWith s' x'
  | _ :: _, [] => false
  end.

Fixpoint includes (s x : jsstring) : bool :=
  startsWith s x
  || match s with
     | [] => false
     | _ :: t => includes t x
     end.

(** [p.test(s)] for a pattern that is neither global nor sticky. *)
Definition test (p : pattern) (s : jsstring) : bool :=
  match str_match s p with Some _ => true | None => false end.

(** [s.replace(c, '')] for a one-character string [c]: its first
    occurrence is removed. *)
Fixpoint remove_first (c : N) (s : jsstring) : jsstring :=
  match s with
  | [] => []
  | x :: t => if (x =? c)%N then t else x :: remove_first c t
  end.

(** [s.padStart(n, c)] for a one-character string [c]. *)
Definition padStart (n : nat) (c : N) (s : jsstring) : jsstring :=
  repeat c (n - length s) ++ s.

(** [x.toString()] and [`${x}`] for a number. *)
Definition number_toString (x : number) : jsstring :=
  match x with
  | NaN => js "NaN"
  | Num z => Z_toString z
  end.

(** [Math.floor(x / d)] and [x % d] for a positive integer [d]; the
    remainder has the sign of [x]. *)
Definition floor_div (x : number) (d : Z) : number :=
  match x with
  | NaN => NaN
  | Num z => Num (z / d)
  end.

Definition remainder (x : number) (d : Z) : number :=
  match x with
  | NaN => NaN
  | Num z => Num (Z.rem z d)
  end.


(** ** Handlers as state transformers

    An event handler runs on the state of its component, may throw, and
    leaves a state behind.  A call of a state setter with a value is an
    update of the field; a call with a function is the function applied to
    the field. *)

Module Eff.

Section Over.

Variable S : Type.

Definition M (A : Type) : Type := S -> Result A * S.

Definition ret {A} (a : A) : M A := fun s => (Returned a, s).

Definition throw {A} (e : Thrown) : M A := fun s => (Threw e, s).

Definition bind {A B} (m : M A) (k : A -> M B) : M B :=
  fun s =>
    match m s with
    | (Returned a, s') => k a s'
    | (Threw e, s') => (Threw e, s')
    end.

Definition modify (f : S -> S) : M unit := fun s => (Returned tt, f s).

(** A value that is there, or the exception of reading it. *)
Definition lift {A} (r : Result A) : M A := fun s => (r, s).

(** [try { m } catch (e) { h e }] *)
Definition try_catch {A} (m : M A) (h : Thrown -> M A) : M A :=
  fun s =>
    match m s with
    | (Returned a, s') => (Returned a, s')
    | (Threw e, s') => h e s'
    end.

(** [try { m } finally { f }]: [f] runs however [m] ends. *)
Definition finally {A} (m : M A) (f : M unit) : M A :=
  fun s =>
    match m s with
    | (r, s') =>
        match f s' with
        | (Returned _, s'') => (r, s'')
        | (Threw e, s'') => (Threw e, s'')
        end
    end.

End Over.

Arguments ret {S A} a.
Arguments throw {S A} e.
Arguments bind {S A B} m k.
Arguments modify {S} f.
Arguments lift {S A} r.
Arguments try_catch {S A} m h.
Arguments finally {S A} m f.

End Eff.

Declare Scope eff_scope.
Delimit Scope eff_scope with eff.
Notation "x <- m ;; k" := (Eff.bind m (fun x => k))
  (at level 100, m at next level, right associativity) : eff_scope.
Notation "m ;; k" := (Eff.bind m (fun _ => k))
  (at level 100, right associativity) : eff_scope.

(** A toast of [react-hot-toast], as the handlers use it. *)
Inductive Toast : Type :=
| ToastLoading (message : jsstring)     (* toast.loading(message) *)
| ToastDismiss (message : jsstring)     (* toast.dismiss(t), t the loading toast *)
| ToastError (message : jsstring)       (* toast.error(message) *)
| ToastSuccess (message : jsstring).    (* toast.success(message) *)

(** The [TypeError] of reading a property of [undefined]. *)
Definition type_error : Thrown :=
  ErrorObject (js "Cannot read properties of undefined").

(** [interface Format] of the components (the three files declare the same
    fields); a field is [None] when it is [undefined]. *)
Module Client.

Record Format : Type :=
  { itag : jsstring;
    mimeType : option jsstring;
    qualityLabel : option jsstring;
    bitrate : option Z;
    audioQuality : option jsstring;
    contentLength : option jsstring;
    hasVideo : bool;
    hasAudio : bool;
    url : option jsstring }.

(** A Format of the /info route as a component reads it. *)
Definition of_route (f : InfoRoute.VideoFormat) : Format :=
  {| itag := InfoRoute.itag f;
     mimeType := InfoRoute.mimeType f;
     qualityLabel := InfoRoute.qualityLabel f;
     bitrate := InfoRoute.bitrate f;
     audioQuality := None;
     contentLength := InfoRoute.contentLength f;
     hasVideo := InfoRoute.hasVideo f;
     hasAudio := InfoRoute.hasAudio f;
     url := None |}.

End Client.

(** ** [components/VideoForm.tsx] *)

Module VideoForm.

Local Open Scope eff_scope.

(** [/^[a-zA-Z0-9_-]{11}$/] *)
Definition bare_id : pattern :=
  {| source := (Bol >> Times 11 id_char >> Eol)%re; ignoreCase := false |}.

(** [/[a-zA-Z0-9_-]{11}/] *)
Definition id_run : pattern :=
  {| source := Times 11 id_char; ignoreCase := false |}.

(** The test of [VideoSchema] (line 57); [value] is [None] when the field
    is [undefined]. *)
Definition is_youtube_like (value : option jsstring) : bool :=
  match value with
  | Some ((_ :: _) as value) =>
      includes value (js "youtube") || includes value (js "youtu.be")
      || test id_run value
  | _ => true
  end.

(** Lines 65-73. *)
Definition cleanYouTubeUrl (url : jsstring) : jsstring :=
  if test bare_id url
  then js "https://www.youtube.com/watch?v=" ++ url
  else url.

(** [interface DownloadItem] *)
Record DownloadItem : Type :=
  { id : jsstring;
    title : option jsstring;
    thumbnail : option jsstring;
    url : jsstring;
    timestamp : jsstring;
    status : jsstring;
    progress : Z }.

(** The body of a response of [/api/info], as far as the handler reads it:
    [error] of an error body; [limitedInfo] (its truth value), [title] and
    [thumbnailUrl] of video information. *)
Record Json : Type :=
  { error : option jsstring;
    limitedInfo : bool;
    info_title : option jsstring;
    thumbnailUrl : option jsstring }.

(** What the handler acts on: the state its props set ([setError],
    [setVideoInfo], [setLoading], [setDownloadHistory]), the form
    ([setSubmitting], [resetForm]), and what it sends out. *)
Record State : Type :=
  { shown_error : jsstring;
    videoInfo : option Json;
    loading : bool;
    downloadHistory : list DownloadItem;
    submitting : bool;
    form_reset : bool;
    toasts : list Toast;
    requests : list jsstring }.

Definition setError (e : jsstring) : Eff.M State unit :=
  Eff.modify (fun s =>
    {| shown_error := e; videoInfo := videoInfo s; loading := loading s;
       downloadHistory := downloadHistory s; submitting := submitting s;
       form_reset := form_reset s; toasts := toasts s; requests := requests s |}).

Definition setVideoInfo (v : option Json) : Eff.M State unit :=
  Eff.modify (fun s =>
    {| shown_error := shown_error s; videoInfo := v; loading := loading s;
       downloadHistory := downloadHistory s; submitting := submitting s;
       form_reset := form_reset s; toasts := toasts s; requests := requests s |}).

Definition setLoading (b : bool) : Eff.M State unit :=
  Eff.modify (fun s =>
    {| shown_error := shown_error s; videoInfo := videoInfo s; loading := b;
       downloadHistory := downloadHistory s; submitting := submitting s;
       form_reset := form_reset s; toasts := toasts s; requests := requests s |}).

Definition setDownloadHistory (f : list DownloadItem -> list DownloadItem)
  : Eff.M State unit :=
  Eff.modify (fun s =>
    {| shown_error := shown_error s; videoInfo := videoInfo s; loading := loading s;
       downloadHistory := f (downloadHistory s); submitting := submitting s;
       form_reset := form_reset s; toasts := toasts s; requests := requests s |}).

Definition setSubmitting (b : bool) : Eff.M State unit :=
  Eff.modify (fun s =>
    {| shown_error := shown_error s; videoInfo := videoInfo s; loading := loading s;
       downloadHistory := downloadHistory s; submitting := b;
       form_reset := form_reset s; toasts := toasts s; requests := requests s |}).

Definition resetForm : Eff.M State unit :=
  Eff.modify (fun s =>
    {| shown_error := shown_error s; videoInfo := videoInfo s; loading := loading s;
       downloadHistory := downloadHistory s; submitting := submitting s;
       form_reset := true; toasts := toasts s; requests := requests s |}).

Definition toast (t : Toast) : Eff.M State unit :=
  Eff.modify (fun s =>
    {| shown_error := shown_error s; videoInfo := videoInfo s; loading := loading s;
       downloadHistory := downloadHistory s; submitting := submitting s;
       form_reset := form_reset s; toasts := toasts s ++ [t];
       requests := requests s |}).

(** [await fetch(url)]: the request goes out; the promise rejects or
    resolves to a response. *)
Definition fetch (url : jsstring) (outcome : FetchOutcome Json)
  : Eff.M State (N * Result Json) :=
  fun s =>
    let s' :=
      {| shown_error := shown_error s; videoInfo := videoInfo s; loading := loading s;
         downloadHistory := downloadHistory s; submitting := submitting s;
         form_reset := form_reset s; toasts := toasts s;
         requests := requests s ++ [url] |} in
    match outcome with
    | Rejected e => (Threw e, s')
    | Responded st json => (Returned (st, json), s')
    end.

Section Handler.

(** [encodeURIComponent], which throws a [URIError] on a lone surrogate. *)
Variable encodeURIComponent : jsstring -> Result jsstring.

(** What the world gives one run of the handler: the response to its
    request, [Math.random().toString(36).substring(2, 9)] and
    [new Date().toISOString()]. *)
Variable outcome : FetchOutcome Json.
Variable random_id : jsstring.
Variable now : jsstring.

Definition loading_message : jsstring := js "Fetching video information...".

Definition default_error : jsstring := js "Failed to fetch video information".

(** Lines 93-110: the response is not ok. *)
Definition on_error_response (response : N * Result Json) : Eff.M State unit :=
  errorData <- Eff.lift (snd response) ;;
  message <- match error errorData with
             | Some e => Eff.ret e
             | None => Eff.throw type_error     (* errorData.error.includes *)
             end ;;
  (if includes message (js "Invalid YouTube URL")
   then setError (js "Please enter a valid YouTube URL or video ID (e.g., https://youtube.com/watch?v=VIDEO_ID or just VIDEO_ID)")
   else if includes message (js "restricted")
        then setError (js "This video is restricted or unavailable. Please try another video.")
        else setError (or_else (Some message) default_error)) ;;
  toast (ToastError (js "Error: " ++ or_else (Some message) default_error)) ;;
  setSubmitting false ;;
  setLoading false.

(** Lines 112-139: the response is ok. *)
Definition on_ok_response (cleanedUrl : jsstring) (response : N * Result Json)
  : Eff.M State unit :=
  data <- Eff.lift (snd response) ;;
  (if limitedInfo data
   then toast (ToastError (js "Limited video information available. Some features may not work correctly."))
   else toast (ToastSuccess (js "Video information fetched successfully!"))) ;;
  setVideoInfo (Some data) ;;
  let newDownload :=
    {| id := random_id;
       title := info_title data;
       thumbnail := thumbnailUrl data;
       url := cleanedUrl;
       timestamp := now;
       status := js "ready";
       progress := 0 |} in
  setDownloadHistory (fun prev => newDownload :: prev) ;;
  resetForm.

(** Lines 75-148; [values_url] is [values.url]. *)
Definition handleSubmit (values_url : jsstring) : Eff.M State unit :=
  Eff.finally
    (Eff.try_catch
       (setError [] ;;
        setVideoInfo None ;;
        setLoading true ;;
        let cleanedUrl := cleanYouTubeUrl (trim values_url) in
        toast (ToastLoading loading_message) ;;
        encoded <- Eff.lift (encodeURIComponent cleanedUrl) ;;
        response <- fetch (js "/api/info?url=" ++ encoded) outcome ;;
        toast (ToastDismiss loading_message) ;;
        if negb (ok (fst response))
        then on_error_response response
        else on_ok_response cleanedUrl response)
       (fun error =>
          setError (js "Failed to fetch video information. Please try again.") ;;
          toast (ToastError (js "Error: Failed to fetch video information"))))
    (setSubmitting false ;;
     setLoading false).

End Handler.

(** A response of the /info route as the form reads it. *)
Definition of_route (b : InfoRoute.Body) : Json :=
  match b with
  | InfoRoute.ErrorBody e =>
      {| error := Some e; limitedInfo := false; info_title := None;
         thumbnailUrl := None |}
  | InfoRoute.InfoBody info =>
      {| error := None; limitedInfo := false;
         info_title := InfoRoute.title info;
         thumbnailUrl := InfoRoute.thumbnailUrl info |}
  end.

Definition route_outcome (r : InfoRoute.Response) : FetchOutcome Json :=
  Responded (InfoRoute.status r) (Returned (of_route (InfoRoute.body r))).

End VideoForm.

(** ** [components/DownloadManager.tsx] *)

Module DownloadManager.

(** [interface DownloadItem]; [progress] is a whole number, as every
    value the components give it is. *)
Record DownloadItem : Type :=
  { id : jsstring;
    title : jsstring;
    thumbnail : jsstring;
    url : jsstring;
    timestamp : jsstring;
    status : jsstring;
    progress : Z }.

Definition with_status (download : DownloadItem) (st : jsstring) (p : Z)
  : DownloadItem :=
  {| id := id download;
     title := title download;
     thumbnail := thumbnail download;
     url := url download;
     timestamp := timestamp download;
     status := st;
     progress := p |}.

(** Lines 48-58: one step of the simulated progress of one download. *)
Definition advance (download : DownloadItem) : DownloadItem :=
  if jsstring_eqb (status download) (js "downloading") && (progress download <? 100)%Z
  then
    let newProgress := Z.min (progress download + 5) 100 in
    with_status download
      (if (newProgress =? 100)%Z then js "completed" else js "downloading")
      newProgress
  else download.

(** Lines 47-59: the update the interval timer makes every second. *)
Definition tick (prevDownloads : list DownloadItem) : list DownloadItem :=
  map advance prevDownloads.

(** Lines 65-77. *)
Definition toggleDownloadStatus (i : jsstring) (prevDownloads : list DownloadItem)
  : list DownloadItem :=
  map (fun download =>
         if jsstring_eqb (id download) i
         then with_status download
                (if jsstring_eqb (status download) (js "downloading")
                 then js "paused" else js "downloading")
                (progress download)
         else download)
      prevDownloads.

(** Lines 79-81. *)
Definition removeDownload (i : jsstring) (prevDownloads : list DownloadItem)
  : list DownloadItem :=
  filter (fun download => negb (jsstring_eqb (id download) i)) prevDownloads.

End DownloadManager.

(** ** The video information card (part_001) *)

Module VideoInfo.

Import Client.



(** [parseInt(f.qualityLabel.replace('p', ''))]; 112 is [p].  The label of
    a format that reaches the sort is a string: the filter has kept it. *)
Definition resolution (f : Format) : number :=
  match qualityLabel f with
  | Some label => parseInt (remove_first 112 label)
  | None => NaN
  end.


(** Lines 58-60; [None] is [undefined], the first entry of an empty
    array. *)
Definition audioFormat (formats : list Format) : option Format :=
  hd_error
    (sort (fun a b => sub (number_of (bitrate b)) (number_of (bitrate a)))
          (filter (fun format => negb (hasVideo format) && hasAudio format) formats)).

(** Lines 62-67; 48 is [0] and 58 is [:]. *)
Definition formatDuration (seconds : jsstring) : jsstring :=
  let sec := parseInt seconds in
  let minutes := floor_div sec 60 in
  let remainingSeconds := remainder sec 60 in
  number_toString minutes ++ [58%N]
  ++ padStart 2 48 (number_toString remainingSeconds).

(** [interface VideoDetails] of the card. *)
Record VideoDetails : Type :=
  { title : jsstring;
    author : option jsstring;
    lengthSeconds : jsstring;
    viewCount : jsstring;
    thumbnailUrl : option jsstring;
    formats : list Format;
    directUrls : bool }.

(** The state [handleDownload] acts on ([setDownloading]) and what it sends
    out. *)
Record State : Type :=
  { downloading : option jsstring;
    toasts : list Toast;
    windows : list jsstring }.       (* window.open(url, '_blank') *)

Definition setDownloading (d : option jsstring) : Eff.M State unit :=
  Eff.modify (fun s =>
    {| downloading := d; toasts := toasts s; windows := windows s |}).

Definition toast (t : Toast) : Eff.M State unit :=
  Eff.modify (fun s =>
    {| downloading := downloading s; toasts := toasts s ++ [t]; windows := windows s |}).

Definition window_open (u : jsstring) : Eff.M State unit :=
  Eff.modify (fun s =>
    {| downloading := downloading s; toasts := toasts s; windows := windows s ++ [u] |}).

Section Handler.

Local Open Scope eff_scope.

(** [encodeURIComponent]; whether [window] is defined; the props. *)
Variable encodeURIComponent : jsstring -> Result jsstring.
Variable window_defined : bool.
Variable videoInfo : VideoDetails.

(** Lines 98 and 102: the address of the download route, with the title of
    the video as its [url] parameter. *)
Definition through_api (i fmt : jsstring) : Eff.M State unit :=
  encoded <- Eff.lift (encodeURIComponent (title videoInfo)) ;;
  let downloadUrl :=
    js "/api/download?url=" ++ encoded ++ js "&itag=" ++ i ++ js "&format=" ++ fmt in
  window_open downloadUrl ;;
  toast (ToastSuccess (js "Download started!")).

(** Lines 79-116; [fmt] is the parameter [format], [mp4] when the caller
    gives none. *)
Definition handleDownload (i fmt : jsstring) : Eff.M State unit :=
  Eff.finally
    (Eff.try_catch
       (setDownloading (Some i) ;;
        if window_defined
        then
          if directUrls videoInfo
          then
            let selectedFormat :=
              find (fun f => jsstring_eqb (itag f) i) (formats videoInfo) in
            match selectedFormat with
            | Some f =>
                if truthy (url f)
                then
                  window_open (or_else (url f) []) ;;
                  toast (ToastSuccess (js "Download started!")) ;;
                  setDownloading None
                else through_api i fmt
            | None => through_api i fmt
            end
          else through_api i fmt
        else Eff.ret tt)
       (fun error => toast (ToastError (js "Failed to start download"))))
    (setDownloading None).

End Handler.

End VideoInfo.

(** ** The page ([Home], in the file of the /download route) *)

Module Home.

Import Client.
Local Open Scope eff_scope.

(** [interface VideoDetails] *)
Record VideoDetails : Type :=
  { title : option jsstring;
    author : option jsstring;
    lengthSeconds : jsstring;
    viewCount : jsstring;
    thumbnailUrl : option jsstring;
    videoId : jsstring;
    formats : list Format }.

(** [interface DownloadHistoryItem] *)
Record DownloadHistoryItem : Type :=
  { id : jsstring;
    item_title : option jsstring;
    thumbnail : option jsstring;
    format : jsstring;
    quality : jsstring;
    timestamp : jsstring;
    status : jsstring }.

(** The body of a response of the download backend, as far as the handler
    reads it: the truth value of [success], [redirectUrl] and [error]. *)
Record Json : Type :=
  { success : bool;
    redirectUrl : option jsstring;
    error : option jsstring }.

(** The body of a response of the information backend: [error], and the
    body read as video information. *)
Record InfoJson : Type :=
  { info_error : option jsstring;
    details : VideoDetails }.

(** The state of the page that the two handlers act on, and what they send
    out. *)
Record State : Type :=
  { url : jsstring;
    loading : bool;
    videoInfo : option VideoDetails;
    downloadHistory : list DownloadHistoryItem;
    showInterstitial : bool;
    toasts : list Toast;
    requests : list jsstring;
    windows : list jsstring;        (* window.open(url, '_blank') *)
    timers : list N }.              (* setTimeout(hide the interstitial, ms) *)

Definition setLoading (b : bool) : Eff.M State unit :=
  Eff.modify (fun s =>
    {| url := url s; loading := b; videoInfo := videoInfo s;
       downloadHistory := downloadHistory s;
       showInterstitial := showInterstitial s; toasts := toasts s;
       requests := requests s; windows := windows s; timers := timers s |}).

Definition setVideoInfo (v : option VideoDetails) : Eff.M State unit :=
  Eff.modify (fun s =>
    {| url := url s; loading := loading s; videoInfo := v;
       downloadHistory := downloadHistory s;
       showInterstitial := showInterstitial s; toasts := toasts s;
       requests := requests s; windows := windows s; timers := timers s |}).

Definition setDownloadHistory
           (f : list DownloadHistoryItem -> list DownloadHistoryItem)
  : Eff.M State unit :=
  Eff.modify (fun s =>
    {| url := url s; loading := loading s; videoInfo := videoInfo s;
       downloadHistory := f (downloadHistory s);
       showInterstitial := showInterstitial s; toasts := toasts s;
       requests := requests s; windows := windows s; timers := timers s |}).

Definition setShowInterstitial (b : bool) : Eff.M State unit :=
  Eff.modify (fun s =>
    {| url := url s; loading := loading s; videoInfo := videoInfo s;
       downloadHistory := downloadHistory s;
       showInterstitial := b; toasts := toasts s;
       requests := requests s; windows := windows s; timers := timers s |}).

Definition toast (t : Toast) : Eff.M State unit :=
  Eff.modify (fun s =>
    {| url := url s; loading := loading s; videoInfo := videoInfo s;
       downloadHistory := downloadHistory s;
       showInterstitial := showInterstitial s; toasts := toasts s ++ [t];
       requests := requests s; windows := windows s; timers := timers s |}).

Definition window_open (u : jsstring) : Eff.M State unit :=
  Eff.modify (fun s =>
    {| url := url s; loading := loading s; videoInfo := videoInfo s;
       downloadHistory := downloadHistory s;
       showInterstitial := showInterstitial s; toasts := toasts s;
       requests := requests s; windows := windows s ++ [u]; timers := timers s |}).

Definition setTimeout (ms : N) : Eff.M State unit :=
  Eff.modify (fun s =>
    {| url := url s; loading := loading s; videoInfo := videoInfo s;
       downloadHistory := downloadHistory s;
       showInterstitial := showInterstitial s; toasts := toasts s;
       requests := requests s; windows := windows s; timers := timers s ++ [ms] |}).

Definition fetch {A} (u : jsstring) (outcome : FetchOutcome A)
  : Eff.M State (N * Result A) :=
  fun s =>
    let s' :=
      {| url := url s; loading := loading s; videoInfo := videoInfo s;
         downloadHistory := downloadHistory s;
         showInterstitial := showInterstitial s; toasts := toasts s;
         requests := requests s ++ [u]; windows := windows s; timers := timers s |} in
    match outcome with
    | Rejected e => (Threw e, s')
    | Responded st json => (Returned (st, json), s')
    end.

(** [prev.map(item => item.id === id ? { ...item, status } : item)] *)
Definition mark (i st : jsstring) (prev : list DownloadHistoryItem)
  : list DownloadHistoryItem :=
  map (fun item =>
         if jsstring_eqb (id item) i
         then {| id := id item; item_title := item_title item;
                 thumbnail := thumbnail item; format := format item;
                 quality := quality item; timestamp := timestamp item;
                 status := st |}
         else item)
      prev.

(** Lines 206-207: the label of the format with this tag, or [Audio] for
    [mp3] and [Unknown] otherwise. *)
Definition quality_of (formats : list Format) (itag fmt : jsstring) : jsstring :=
  let formatInfo := find (fun f => jsstring_eqb (Client.itag f) itag) formats in
  or_else (match formatInfo with Some f => qualityLabel f | None => None end)
          (if jsstring_eqb fmt (js "mp3") then js "Audio" else js "Unknown").

Section Submit.

(** [encodeURIComponent], which throws a [URIError] on a lone surrogate,
    and the response to the request of one run of the handler. *)
Variable encodeURIComponent : jsstring -> Result jsstring.
Variable outcome : FetchOutcome InfoJson.

Definition fetching : jsstring := js "Fetching video information...".

(** Lines 155-192; the input is the [url] of the state. *)
Definition handleSubmit : Eff.M State unit :=
  setLoading true ;;
  setVideoInfo None ;;
  Eff.finally
    (Eff.try_catch
       (fun s =>
          if falsy_string (trim (url s))
          then (toast (ToastError (js "Please enter a YouTube URL or video ID")) ;;
                setLoading false) s
          else
            (toast (ToastLoading fetching) ;;
             encoded <- Eff.lift (encodeURIComponent (url s)) ;;
             response <- fetch (js "http://localhost:5000/api/info?url=" ++ encoded)
                               outcome ;;
             toast (ToastDismiss fetching) ;;
             if negb (ok (fst response))
             then
               data <- Eff.lift (snd response) ;;
               toast (ToastError (or_else (info_error data)
                                          (js "Failed to fetch video information"))) ;;
               setLoading false
             else
               data <- Eff.lift (snd response) ;;
               setVideoInfo (Some (details data)) ;;
               toast (ToastSuccess (js "Video information fetched successfully!"))) s)
       (fun error => toast (ToastError (js "An unexpected error occurred"))))
    (setLoading false).

End Submit.

Section Handler.

(** What the world gives one run of the handler: the response to its
    request and [new Date().toISOString()]. *)
Variable outcome : FetchOutcome Json.
Variable now : jsstring.

Definition preparing : jsstring := js "Preparing download...".

(** Lines 194-280; [fmt] is the parameter [format], [mp4] when the caller
    gives none. *)
Definition handleDownload (itag fmt : jsstring) : Eff.M State unit :=
  fun s =>
    match videoInfo s with
    | None => (Returned tt, s)
    | Some videoInfo =>
        Eff.try_catch
          (toast (ToastLoading preparing) ;;
           let timestamp := now in
           let i := videoId videoInfo ++ [45%N] ++ itag ++ [45%N] ++ timestamp in
           let quality := quality_of (formats videoInfo) itag fmt in
           setDownloadHistory (fun prev =>
             {| id := i; item_title := title videoInfo;
                thumbnail := thumbnailUrl videoInfo; format := fmt;
                quality := quality; timestamp := timestamp;
                status := js "downloading" |} :: prev) ;;
           response <- fetch (js "http://localhost:5000/api/download?videoId="
                              ++ videoId videoInfo ++ js "&itag=" ++ itag
                              ++ js "&format=" ++ fmt) outcome ;;
           if negb (ok (fst response))
           then
             errorData <- Eff.lift (snd response) ;;
             toast (ToastDismiss preparing) ;;
             toast (ToastError (or_else (error errorData) (js "Download failed"))) ;;
             setDownloadHistory (mark i (js "failed"))
           else
             data <- Eff.lift (snd response) ;;
             if success data && truthy (redirectUrl data)
             then
               window_open (or_else (redirectUrl data) []) ;;
               setDownloadHistory (mark i (js "redirected")) ;;
               toast (ToastDismiss preparing) ;;
               toast (ToastSuccess (js "Redirected to download service!")) ;;
               setShowInterstitial true ;;
               setTimeout 5000
             else
               toast (ToastDismiss preparing) ;;
               toast (ToastError (or_else (error data) (js "Failed to get download URL"))) ;;
               setDownloadHistory (mark i (js "failed")))
          (fun error => toast (ToastError (js "An error occurred during download")))
          s
    end.

End Handler.

(** Lines 441-464: the formats the card offers, videos and then at most
    one audio. *)
Definition video_buttons (formats : list Format) : list Format :=
  filter (fun format => hasVideo format) formats.

Definition audio_button (formats : list Format) : list Format :=
  firstn 1 (filter (fun format => negb (hasVideo format) && hasAudio format) formats).

End Home.

(** * More vocabulary of the statements *)

Module Numerals.

Local Open Scope Z_scope.

(** A decimal digit, as a code unit. *)
Definition is_digit (c : N) : bool := ((48 <=? c) && (c <=? 57))%N.

(** The number a run of decimal digits stands for, after the digits read
    so far stand for [a]. *)
Definition decimal_value (ds : jsstring) (a : Z) : Z :=
  fold_left (fun a c => a * 10 + (Z.of_N c - 48)) ds a.

End Numerals.

Import Numerals.

Module InfoTerms.

Import InfoRoute.

(** The items of a payload, videos first. *)
Definition all_items (data : RapidApiData) : list RawItem :=
  items_of (videos_items data) ++ items_of (audios_items data).

Definition has_id (item : RawItem) : bool := is_present (id item).

(** The [TypeError] of [item.id.toString()] on an item without [id]. *)
Definition no_id_error : Thrown :=
  ErrorObject (js "Cannot read properties of undefined (reading 'toString')").

Definition throws {A} (r : Result A) : bool :=
  match r with Threw _ => true | Returned _ => false end.

(** The response once the primary path has thrown. *)
Definition after_primary_failure (w : World) (v : jsstring) : Response :=
  match fallback_outcome w v with
  | Returned d => fallback_response v d
  | Threw _ => all_failed
  end.

(** The primary path throws: the request fails, or an item has no [id]. *)
Definition primary_path_fails (w : World) (v : jsstring) : Prop :=
  throws (primary_outcome w v) = true
  \/ exists data, primary_outcome w v = Returned data
                  /\ forallb has_id (all_items data) = false.

(** A video item without [id] among the items of a payload. *)
Definition nameless : RawItem :=
  {| id := None;
     raw_mimeType := Some (js "video/mp4");
     raw_qualityLabel := Some (js "720p");
     raw_bitrate := Some 0%Z;
     audioQuality := None;
     raw_container := Some (js "mp4");
     raw_codecs := None;
     raw_contentLength := None |}.

Definition with_nameless_item : RapidApiData :=
  {| rapid_title := Some (js "T");
     channel_name := Some (js "C");
     rapid_lengthSeconds := Some (SNum 213);
     rapid_viewCount := Some (SStr (js "1500"));
     thumbnail0_url := None;
     videos_items := Some [labelled 22 "720p"; nameless];
     audios_items := Some [webm_audio] |}.

(** The primary provider answers with [data]; the fallback provider is
    down. *)
Definition primary_only (data : RapidApiData) : World :=
  {| rapidApi := fun _ => Responded 200 (Returned data);
     oEmbed := fun _ => Rejected OtherValue |}.

Definition counted : RapidApiData :=
  {| rapid_title := Some (js "T");
     channel_name := Some (js "C");
     rapid_lengthSeconds := Some (SNum 213);
     rapid_viewCount := Some (SNum 1500);
     thumbnail0_url := None;
     videos_items := Some [labelled 22 "720p"];
     audios_items := Some [webm_audio] |}.

End InfoTerms.

Import InfoTerms.

Module FormTerms.

Import VideoForm.

(** [x] occurs in [s]. *)
Definition occurs_in (x s : jsstring) : Prop :=
  exists pre suf, s = pre ++ x ++ suf.

(** The data of a successful submission: the request could be written, the
    response is ok and its body parses. *)
Definition submitted (encoded : Result jsstring) (outcome : FetchOutcome Json)
  : option Json :=
  match encoded, outcome with
  | Returned _, Responded st (Returned data) => if ok st then Some data else None
  | _, _ => None
  end.

(** The entry a successful submission adds to the download history. *)
Definition ready_entry (random_id now cleanedUrl : jsstring) (data : Json)
  : DownloadItem :=
  {| id := random_id;
     title := info_title data;
     thumbnail := thumbnailUrl data;
     url := cleanedUrl;
     timestamp := now;
     status := js "ready";
     progress := 0 |}.

(** An encoder that leaves its argument as it is, for the examples. *)
Definition plain_encoder (s : jsstring) : Result jsstring := Returned s.

Definition idle : State :=
  {| shown_error := []; videoInfo := None; loading := false;
     downloadHistory := []; submitting := true; form_reset := false;
     toasts := []; requests := [] |}.

(** The message the form shows for the error text of a response. *)
Definition shown_for (message : jsstring) : jsstring :=
  if includes message (js "Invalid YouTube URL")
  then js "Please enter a valid YouTube URL or video ID (e.g., https://youtube.com/watch?v=VIDEO_ID or just VIDEO_ID)"
  else if includes message (js "restricted")
       then js "This video is restricted or unavailable. Please try another video."
       else or_else (Some message) default_error.

End FormTerms.

Import FormTerms.

Module ManagerTerms.

Import DownloadManager.

Definition is_downloading (d : DownloadItem) : bool :=
  jsstring_eqb (status d) (js "downloading").

(** A download that the timer still moves. *)
Definition in_progress (d : DownloadItem) : bool :=
  is_downloading d && (progress d <? 100)%Z.

(** A download after [n] steps of the timer: 5 more per step, up to 100,
    and [completed] once 100 is reached. *)
Definition after_ticks (n : nat) (d : DownloadItem) : DownloadItem :=
  if in_progress d && negb (Nat.eqb n 0)
  then with_status d
         (if (100 <=? progress d + 5 * Z.of_nat n)%Z
          then js "completed" else js "downloading")
         (Z.min (progress d + 5 * Z.of_nat n) 100)
  else d.

(** A download that the pause button is shown for and switches. *)
Definition switchable (d : DownloadItem) : bool :=
  jsstring_eqb (status d) (js "downloading") || jsstring_eqb (status d) (js "paused").

Definition sample_download (i : string) (st : string) (p : Z) : DownloadItem :=
  {| id := js i; title := js "T"; thumbnail := []; url := js "https://youtu.be/dQw4w9WgXcQ";
     timestamp := js "2025-01-01T00:00:00.000Z"; status := js st; progress := p |}.

End ManagerTerms.

Import ManagerTerms.

Module CardTerms.

Import Client.

(** A format with sound and no picture. *)
Definition audio_only (f : Format) : bool := negb (hasVideo f) && hasAudio f.



(** The bit rate of a format; 0 when it has none. *)
Definition rate (f : Format) : Z :=
  match bitrate f with Some b => b | None => 0%Z end.

(** A format with sound and no picture has a bit rate, one that JavaScript
    holds exactly. *)
Definition rated (f : Format) : Prop :=
  audio_only f = true -> exists b, bitrate f = Some b /\ safe_integer b.

Definition sample_card_format (tag label : string) (rate : Z) (video audio : bool)
  : Format :=
  {| itag := js tag; mimeType := None; qualityLabel := Some (js label);
     bitrate := Some rate; audioQuality := None; contentLength := None;
     hasVideo := video; hasAudio := audio; url := None |}.

End CardTerms.

Import CardTerms.

Module PageTerms.

Import Home.

(** How a download request ends for the history: [redirected], [failed],
    or nothing more when the handler has thrown on the way. *)
Definition download_result (outcome : FetchOutcome Json) : option jsstring :=
  match outcome with
  | Rejected _ => None
  | Responded _ (Threw _) => None
  | Responded st (Returned data) =>
      if ok st && success data && truthy (redirectUrl data)
      then Some (js "redirected")
      else Some (js "failed")
  end.

(** The entry [handleDownload] puts in front of the history. *)
Definition new_entry (info : VideoDetails) (itag fmt now : jsstring)
  : DownloadHistoryItem :=
  {| id := videoId info ++ [45%N] ++ itag ++ [45%N] ++ now;
     item_title := title info;
     thumbnail := thumbnailUrl info;
     format := fmt;
     quality := quality_of (formats info) itag fmt;
     timestamp := now;
     status := js "downloading" |}.

Definition download_request (info : VideoDetails) (itag fmt : jsstring) : jsstring :=
  js "http://localhost:5000/api/download?videoId=" ++ videoId info
  ++ js "&itag=" ++ itag ++ js "&format=" ++ fmt.

(** The video information of a successful submission: the request could
    be written, the response is ok and its body parses. *)
Definition fetched (encoded : Result jsstring) (outcome : FetchOutcome InfoJson)
  : option VideoDetails :=
  match encoded, outcome with
  | Returned _, Responded st (Returned data) =>
      if ok st then Some (details data) else None
  | _, _ => None
  end.

End PageTerms.

Import PageTerms.

Module CardDownloadTerms.

Import Client.

(** The address the card opens for a tag: the format's own [url] when the
    video information has direct addresses and the first format of that
    tag has one; [None] when the download route is used instead. *)
Definition direct_url (info : VideoInfo.VideoDetails) (i : jsstring) : option jsstring :=
  if VideoInfo.directUrls info
  then match find (fun f => jsstring_eqb (itag f) i) (VideoInfo.formats info) with
       | Some f => if truthy (url f) then url f else None
       | None => None
       end
  else None.

End CardDownloadTerms.

Import CardDownloadTerms.

Module HostTerms.

(** [youtube.com/] or [youtu.be/] stands at the front of [s], in any
    letter case. *)
Definition host_at (s : jsstring) : bool :=
  is_present (strip true (js "youtube.com/") s)
  || is_present (strip true (js "youtu.be/") s).

(** One of the two hosts stands somewhere in [s]. *)
Fixpoint names_host (s : jsstring) : bool :=
  host_at s
  || match s with
     | [] => false
     | _ :: t => names_host t
     end.

End HostTerms.

Import HostTerms.

(** * Properties *)

(** ** The matcher *)

Module RegExpFacts.

Lemma advanced_refl st : advanced st st [].
Proof. split; simpl; [reflexivity | lia]. Qed.

Lemma advanced_trans st1 st2 st3 w1 w2 :
  advanced st1 st2 w1 -> advanced st2 st3 w2 -> advanced st1 st3 (w1 ++ w2).
Proof.
  intros [H1 H2] [H3 H4]. split.
  - rewrite H1, H3, app_assoc. reflexivity.
  - rewrite H4, H2, length_app. lia.
Qed.

Lemma step_inv ic a st st' :
  In st' (step ic a st) ->
  exists c, rest st = c :: rest st' /\ atom_match ic a c = true
            /\ endIndex st' = S (endIndex st) /\ capture1 st' = capture1 st.
Proof.
  unfold step. destruct (rest st) as [|c t]; [intros [] |].
  destruct (atom_match ic a c) eqn:E; [| intros []].
  intros [<- | []]. exists c. simpl. auto.
Qed.

Lemma star_inv ic a s : forall i cap st',
  In st' (star ic a i s cap) ->
  exists w, s = w ++ rest st' /\ endIndex st' = i + length w
            /\ capture1 st' = cap
            /\ Forall (fun c => atom_match ic a c = true) w.
Proof.
  induction s as [|c t IH]; intros i cap st' H; simpl in H.
  - destruct H as [<- | []]. exists []. simpl. repeat split; auto.
  - assert (Hhere : st' = mk i (c :: t) cap ->
                    exists w, c :: t = w ++ rest st' /\ endIndex st' = i + length w
                              /\ capture1 st' = cap
                              /\ Forall (fun c => atom_match ic a c = true) w).
    { intros ->. exists []. simpl. repeat split; auto. }
    destruct (atom_match ic a c) eqn:E.
    + apply in_app_or in H. destruct H as [H | [<- | []]]; [| apply Hhere; reflexivity].
      destruct (IH _ _ _ H) as (w & Hs & Hi & Hc & Hw).
      exists (c :: w). simpl. repeat split; auto.
      * rewrite Hs at 1. reflexivity.
      * lia.
    + destruct H as [<- | []]. apply Hhere; reflexivity.
Qed.

Lemma times_inv ic a n : forall st st',
  In st' (times ic n a st) ->
  exists w, advanced st st' w /\ length w = n
            /\ capture1 st' = capture1 st
            /\ Forall (fun c => atom_match ic a c = true) w.
Proof.
  induction n as [|n IH]; intros st st' H; simpl in H.
  - destruct H as [<- | []]. exists []. split; [apply advanced_refl | auto].
  - apply in_flat_map in H. destruct H as (m & Hm & H).
    apply step_inv in Hm. destruct Hm as (c & Hr & Hc & Hi & Hk).
    destruct (IH _ _ H) as (w & [Hw1 Hw2] & Hl & Hcap & Hall).
    exists (c :: w). repeat split; simpl.
    + rewrite Hr, Hw1. reflexivity.
    + lia.
    + lia.
    + congruence.
    + constructor; assumption.
Qed.

(** Every result of the matcher is the start state moved forward. *)
Lemma exec_advanced ic r : forall st st',
  In st' (exec ic r st) -> exists w, advanced st st' w.
Proof.
  induction r; intros st st' H; simpl in H.
  - destruct H as [<- | []]. exists []. apply advanced_refl.
  - apply step_inv in H. destruct H as (c & Hr & _ & Hi & _).
    exists [c]. split; simpl; [assumption | lia].
  - apply in_flat_map in H. destruct H as (m & Hm & H).
    destruct (IHr1 _ _ Hm) as (w1 & H1). destruct (IHr2 _ _ H) as (w2 & H2).
    exists (w1 ++ w2). eapply advanced_trans; eassumption.
  - apply in_app_or in H. destruct H as [H | H]; eauto.
  - apply star_inv in H. destruct H as (w & Hs & Hi & _). exists w. split; assumption.
  - apply in_flat_map in H. destruct H as (m & Hm & H).
    apply step_inv in Hm. destruct Hm as (c & Hr & _ & Hi & _).
    apply star_inv in H. destruct H as (w & Hs & Hj & _).
    exists (c :: w). split; simpl.
    + rewrite Hr, Hs. reflexivity.
    + lia.
  - apply times_inv in H. destruct H as (w & Hw & _). exists w. assumption.
  - apply in_app_or in H. destruct H as [H | [<- | []]]; eauto.
    exists []. apply advanced_refl.
  - apply in_map_iff in H. destruct H as (m & <- & Hm).
    destruct (IHr _ _ Hm) as (w & Hw). exists w. exact Hw.
  - destruct (Nat.eqb (endIndex st) 0); [| destruct H].
    destruct H as [<- | []]. exists []. apply advanced_refl.
  - destruct (rest st); [| destruct H].
    destruct H as [<- | []]. exists []. apply advanced_refl.
Qed.

(** What the group [(a{n})] captures. *)
Lemma group_times_inv ic a n st st' :
  In st' (exec ic (Group (Times n a)) st) ->
  exists w, capture1 st' = Some w /\ length w = n
            /\ Forall (fun c => atom_match ic a c = true) w
            /\ advanced st st' w.
Proof.
  simpl. intros H. apply in_map_iff in H. destruct H as (m & <- & Hm).
  apply times_inv in Hm. destruct Hm as (w & [Hr Hi] & Hl & _ & Hall).
  exists w. unfold set_capture; simpl. repeat split; auto.
  rewrite Hi, Hr. replace (endIndex st + length w - endIndex st) with (length w) by lia.
  rewrite firstn_app, Nat.sub_diag, firstn_all. simpl. rewrite app_nil_r. reflexivity.
Qed.

Lemma step_hit ic a c t i cap :
  atom_match ic a c = true -> step ic a (mk i (c :: t) cap) = [mk (S i) t cap].
Proof. intros H. unfold step; simpl. rewrite H. reflexivity. Qed.

Lemma step_miss ic a c t i cap :
  atom_match ic a c = false -> step ic a (mk i (c :: t) cap) = [].
Proof. intros H. unfold step; simpl. rewrite H. reflexivity. Qed.

Lemma step_end ic a i cap : step ic a (mk i [] cap) = [].
Proof. reflexivity. Qed.

Lemma times_hit ic a t cap : forall w i,
  Forall (fun c => atom_match ic a c = true) w ->
  times ic (length w) a (mk i (w ++ t) cap) = [mk (i + length w) t cap].
Proof.
  induction w as [|c w IH]; intros i Hall.
  - simpl. rewrite Nat.add_0_r. reflexivity.
  - inversion Hall as [|? ? Hc Hw]; subst.
    cbn [length times app]. rewrite step_hit by assumption. cbn [flat_map].
    rewrite (IH (S i) Hw), app_nil_r. do 2 f_equal. lia.
Qed.

Lemma group_times_hit ic a w t i cap :
  Forall (fun c => atom_match ic a c = true) w ->
  exec ic (Group (Times (length w) a)) (mk i (w ++ t) cap)
  = [mk (i + length w) t (Some w)].
Proof.
  intros Hall. cbn [exec]. rewrite times_hit by assumption. cbn [map].
  unfold set_capture, mk; simpl. do 3 f_equal.
  replace (i + length w - i) with (length w) by lia.
  rewrite firstn_app, Nat.sub_diag, firstn_all. simpl. apply app_nil_r.
Qed.

Lemma seq_group_inv ic r a n st st' :
  In st' (exec ic (Seq r (Group (Times n a))) st) ->
  exists w0 w, capture1 st' = Some w /\ length w = n
               /\ Forall (fun c => atom_match ic a c = true) w
               /\ rest st = w0 ++ w ++ rest st'.
Proof.
  cbn [exec]. intros H. apply in_flat_map in H. destruct H as (m & Hm & H).
  apply exec_advanced in Hm. destruct Hm as (w0 & Hr0 & _).
  apply group_times_inv in H. destruct H as (w & Hc & Hl & Hall & Hr & _).
  exists w0, w. rewrite Hr0, Hr. auto.
Qed.

(** The anchored pattern [^(a{n})$]. *)
Lemma anchored_group_inv ic a n st st' :
  In st' (exec ic (Seq Bol (Seq (Group (Times n a)) Eol)) st) ->
  capture1 st' = Some (rest st) /\ length (rest st) = n
  /\ Forall (fun c => atom_match ic a c = true) (rest st)
  /\ endIndex st = 0 /\ rest st' = [].
Proof.
  cbn [exec]. intros H. apply in_flat_map in H. destruct H as (m & Hm & H).
  destruct (Nat.eqb (endIndex st) 0) eqn:E0; [| destruct Hm].
  destruct Hm as [<- | []].
  apply in_flat_map in H. destruct H as (m & Hm & H).
  apply (group_times_inv ic a n) in Hm. destruct Hm as (w & Hc & Hl & Hall & Hr & _).
  destruct (rest m) eqn:Em; [| destruct H]. destruct H as [<- | []].
  rewrite app_nil_r in Hr. subst w. apply Nat.eqb_eq in E0. auto 6.
Qed.

(** A successful search reports the head of some run of the matcher. *)
Lemma search_inv p : forall s i m,
  search p i s = Some m ->
  exists u t st' l,
    s = u ++ t /\ index m = i + length u
    /\ exec (ignoreCase p) (source p) (mk (i + length u) t None) = st' :: l
    /\ group1 m = capture1 st'.
Proof.
  induction s as [|c s IH]; intros i m H; cbn [search] in H.
  - destruct (exec (ignoreCase p) (source p) _) as [|st' l] eqn:E; [discriminate |].
    inversion H; subst; clear H. exists [], [], st', l. cbn [length app index group1].
    rewrite Nat.add_0_r. auto.
  - destruct (exec (ignoreCase p) (source p) _) as [|st' l] eqn:E.
    + destruct (IH _ _ H) as (u & t & st' & l & Hs & Hi & He & Hg).
      exists (c :: u), t, st', l. cbn [length app]. subst s.
      replace (i + S (length u)) with (S i + length u) by lia. auto.
    + inversion H; subst; clear H. exists [], (c :: s), st', l.
      cbn [length app index group1]. rewrite Nat.add_0_r. auto.
Qed.

Lemma search_hit p i s st l :
  exec (ignoreCase p) (source p) (mk i s None) = st :: l ->
  search p i s
  = Some {| index := i; lastIndex := endIndex st; group1 := capture1 st |}.
Proof. intros H. destruct s; cbn [search]; unfold mk in H; rewrite H; reflexivity. Qed.

Lemma search_miss p i c s :
  exec (ignoreCase p) (source p) (mk i (c :: s) None) = [] ->
  search p i (c :: s) = search p (S i) s.
Proof. intros H. cbn [search]. unfold mk in H. rewrite H. reflexivity. Qed.

Lemma search_end p i :
  exec (ignoreCase p) (source p) (mk i [] None) = [] -> search p i [] = None.
Proof. intros H. cbn [search]. unfold mk in H. rewrite H. reflexivity. Qed.

Lemma nil_of_no_member {A} (l : list A) : (forall x, ~ In x l) -> l = [].
Proof. destruct l as [|x l]; [reflexivity |]. intros H. destruct (H x). left. reflexivity. Qed.

Lemma slash_only ic c : atom_match ic (Chr 47) c = true -> c = 47%N.
Proof.
  cbn [atom_match]. unfold canonicalize, to_upper. intros H. apply N.eqb_eq in H.
  destruct ic; [| cbn in H; congruence ].
  cbn in H. destruct ((97 <=? c) && (c <=? 122))%N eqn:E; [| congruence ].
  apply andb_true_iff in E. destruct E as [E1 E2].
  apply N.leb_le in E1. apply N.leb_le in E2. lia.
Qed.

Lemma exec_needs_slash ic r : forall st st',
  needs_slash r = true -> In st' (exec ic r st) -> In 47%N (rest st).
Proof.
  induction r; intros st st' Hn H; cbn [needs_slash] in Hn; try discriminate.
  - destruct a as [c| |]; try discriminate. apply N.eqb_eq in Hn. subst c.
    apply step_inv in H. destruct H as (c & Hr & Hc & _).
    apply slash_only in Hc. subst c. rewrite Hr. left. reflexivity.
  - cbn [exec] in H. apply in_flat_map in H. destruct H as (m & Hm & H).
    apply orb_true_iff in Hn. destruct Hn as [Hn | Hn].
    + eapply IHr1; eassumption.
    + apply exec_advanced in Hm. destruct Hm as (w & Hr & _).
      rewrite Hr. apply in_or_app. right. eapply IHr2; eassumption.
  - cbn [exec] in H. apply andb_true_iff in Hn. destruct Hn as [Hn1 Hn2].
    apply in_app_or in H. destruct H as [H | H]; eauto.
  - cbn [exec] in H. apply in_map_iff in H. destruct H as (m & _ & Hm). eauto.
Qed.

Lemma exec_no_slash ic r st :
  needs_slash r = true -> ~ In 47%N (rest st) -> exec ic r st = [].
Proof.
  intros Hn Hs. apply nil_of_no_member. intros st' H. apply Hs.
  eapply exec_needs_slash; eassumption.
Qed.

(** A pattern that needs a [/] matches nowhere in an input without one. *)
Lemma search_no_slash p : forall s i,
  needs_slash (source p) = true -> ~ In 47%N s -> search p i s = None.
Proof.
  induction s as [|c s IH]; intros i Hn Hs.
  - apply search_end. apply exec_no_slash; assumption.
  - rewrite search_miss by (apply exec_no_slash; assumption).
    apply IH; [assumption |]. intros H. apply Hs. right. assumption.
Qed.

Lemma exec_begins_miss ic x r : forall i c t cap,
  begins_with x r = true -> atom_match ic (Chr x) c = false ->
  exec ic r (mk i (c :: t) cap) = [].
Proof.
  induction r; intros i c t cap Hb Hc; cbn [begins_with] in Hb; try discriminate.
  - destruct a as [c0| |]; try discriminate. apply N.eqb_eq in Hb. subst c0.
    cbn [exec]. apply step_miss. assumption.
  - cbn [exec]. rewrite IHr1 by assumption. reflexivity.
  - apply andb_true_iff in Hb. destruct Hb as [Hb1 Hb2].
    cbn [exec]. rewrite IHr1, IHr2 by assumption. reflexivity.
  - cbn [exec]. fold (mk i (c :: t) cap). rewrite IHr by assumption. reflexivity.
Qed.

(** A pattern that begins with [x] matches at no index of a prefix that
    has no [x]. *)
Lemma search_skip p x : forall pre s i,
  begins_with x (source p) = true ->
  Forall (fun c => atom_match (ignoreCase p) (Chr x) c = false) pre ->
  search p i (pre ++ s) = search p (i + length pre) s.
Proof.
  induction pre as [|c pre IH]; intros s i Hb Hpre.
  - cbn [app length]. rewrite Nat.add_0_r. reflexivity.
  - inversion Hpre as [|? ? Hc Hrest]; subst. cbn [app length].
    rewrite search_miss by (apply exec_begins_miss with (x := x); assumption).
    rewrite IH by assumption. f_equal. lia.
Qed.

End RegExpFacts.

Import RegExpFacts.

(** ** The identifier extractor *)

Module ExtractorFacts.

Ltac bool_to_prop :=
  repeat first
    [ rewrite orb_true_iff in * | rewrite andb_true_iff in *
    | rewrite orb_false_iff in * | rewrite andb_false_iff in *
    | rewrite negb_true_iff in * | rewrite negb_false_iff in *
    | rewrite N.eqb_eq in * | rewrite N.eqb_neq in *
    | rewrite N.leb_le in * | rewrite N.leb_gt in * ].

Lemma not_delimiter_spec ic c :
  atom_match ic not_delimiter c = true -> is_delimiter c = false.
Proof.
  unfold not_delimiter, is_delimiter. cbn [atom_match class_mem existsb item_mem].
  rewrite xorb_true_l. intros H.
  apply negb_true_iff in H. apply orb_false_iff in H. destruct H as [H _].
  rewrite orb_false_r in H. rewrite <- H.
  rewrite !orb_assoc. reflexivity.
Qed.

Lemma id_char_spec c : atom_match false id_char c = is_id_char c.
Proof.
  unfold id_char, is_id_char. cbn [atom_match class_mem existsb item_mem andb xorb].
  rewrite !orb_false_r, !orb_assoc. reflexivity.
Qed.

Lemma id_char_not_delimiter c : is_id_char c = true -> is_delimiter c = false.
Proof.
  unfold is_id_char, is_delimiter, is_space. intros H.
  bool_to_prop. lia.
Qed.

Lemma delimiter_class c :
  class_mem [One 34; One 38; One 63; One 47; Space] c = is_delimiter c.
Proof.
  unfold is_delimiter. cbn [class_mem existsb item_mem].
  rewrite orb_false_r, !orb_assoc. reflexivity.
Qed.

Lemma to_upper_id_char c : is_id_char c = true -> is_id_char (to_upper c) = true.
Proof.
  unfold is_id_char, to_upper. intros H.
  destruct ((97 <=? c) && (c <=? 122))%N eqn:E1; cbv iota; bool_to_prop; lia.
Qed.

Lemma to_lower_id_char c : is_id_char c = true -> is_id_char (to_lower c) = true.
Proof.
  unfold is_id_char, to_lower. intros H.
  destruct ((65 <=? c) && (c <=? 90))%N eqn:E1; cbv iota; bool_to_prop; lia.
Qed.

Lemma id_char_matches c :
  is_id_char c = true -> atom_match true not_delimiter c = true.
Proof.
  intros H. unfold not_delimiter. cbn [atom_match andb].
  rewrite !delimiter_class, xorb_true_l.
  rewrite (id_char_not_delimiter c H).
  rewrite (id_char_not_delimiter _ (to_upper_id_char c H)).
  rewrite (id_char_not_delimiter _ (to_lower_id_char c H)).
  reflexivity.
Qed.

Lemma id_char_not_query_sep c : is_id_char c = true -> is_query_sep c = false.
Proof. unfold is_id_char, is_query_sep. intros H. bool_to_prop. lia. Qed.

Lemma id_char_not_slash c : is_id_char c = true -> c <> 47%N.
Proof. unfold is_id_char. intros H. bool_to_prop. lia. Qed.

Lemma has_slash_false s : has_slash s = false -> ~ In 47%N s.
Proof.
  unfold has_slash. intros H Hin.
  assert (existsb (N.eqb 47) s = true); [| congruence].
  apply existsb_exists. exists 47%N. split; [assumption | reflexivity].
Qed.

Lemma valid_id_no_slash v : valid_id v -> ~ In 47%N v.
Proof.
  intros [_ Hall] Hin. rewrite Forall_forall in Hall.
  apply (id_char_not_slash 47%N); auto.
Qed.

Lemma has_v_param_app v suf :
  Forall (fun c => is_id_char c = true) v ->
  has_v_param (v ++ suf) = has_v_param suf.
Proof.
  induction 1 as [|c v Hc Hv IH]; [reflexivity |].
  cbn [app has_v_param v_param_at]. rewrite (id_char_not_query_sep c Hc). exact IH.
Qed.

(** The pattern characters and classes, on the input side. *)
Lemma query_sep_spec c :
  atom_match true (Class false [One 63; One 38]) c = is_query_sep c.
Proof.
  unfold is_query_sep. cbn [atom_match class_mem existsb item_mem andb xorb].
  unfold to_upper, to_lower.
  destruct (N.eqb_spec c 63) as [->|H1]; [reflexivity |].
  destruct (N.eqb_spec c 38) as [->|H2]; [reflexivity |].
  cbn [orb].
  destruct ((97 <=? c) && (c <=? 122))%N eqn:E1;
    destruct ((65 <=? c) && (c <=? 90))%N eqn:E2;
    bool_to_prop; repeat split; try reflexivity; lia.
Qed.

Lemma chr_v_spec c : atom_match true (Chr 118) c = is_v c.
Proof.
  unfold is_v. cbn [atom_match]. change (canonicalize true 118) with 86%N.
  unfold canonicalize, to_upper.
  destruct (N.eqb_spec c 118) as [->|H1]; [reflexivity |].
  destruct (N.eqb_spec c 86) as [->|H2]; [reflexivity |].
  cbn [orb].
  destruct ((97 <=? c) && (c <=? 122))%N eqn:E1; bool_to_prop; lia.
Qed.

Lemma chr_equals_spec c : atom_match true (Chr 61) c = (c =? 61)%N.
Proof.
  cbn [atom_match]. change (canonicalize true 61) with 61%N.
  unfold canonicalize, to_upper.
  destruct (N.eqb_spec c 61) as [->|H1]; [reflexivity |].
  destruct ((97 <=? c) && (c <=? 122))%N eqn:E1; bool_to_prop; lia.
Qed.

Lemma chr_y_spec c : atom_match true (Chr 121) c = is_y c.
Proof.
  unfold is_y. cbn [atom_match]. change (canonicalize true 121) with 89%N.
  unfold canonicalize, to_upper.
  destruct (N.eqb_spec c 121) as [->|H1]; [reflexivity |].
  destruct (N.eqb_spec c 89) as [->|H2]; [reflexivity |].
  cbn [orb].
  destruct ((97 <=? c) && (c <=? 122))%N eqn:E1; bool_to_prop; lia.
Qed.

Lemma v_param_miss s i cap :
  v_param_at s = false -> exec true v_param (mk i s cap) = [].
Proof.
  intros H. cbn [exec chars].
  destruct s as [|q t]; [reflexivity |].
  cbn [v_param_at] in H. rewrite <- query_sep_spec in H.
  destruct (atom_match true (Class false [One 63; One 38]) q) eqn:Eq;
    [rewrite step_hit by assumption | rewrite step_miss by assumption; reflexivity].
  cbn [flat_map andb] in *. rewrite app_nil_r.
  destruct t as [|v t]; [reflexivity |].
  rewrite <- chr_v_spec in H.
  destruct (atom_match true (Chr 118) v) eqn:Ev;
    [rewrite step_hit by assumption | rewrite step_miss by assumption; reflexivity].
  cbn [flat_map andb] in *. rewrite app_nil_r.
  destruct t as [|e t]; [reflexivity |].
  rewrite <- chr_equals_spec in H.
  rewrite step_miss by assumption. reflexivity.
Qed.

(** After [.*] over an input without a [v] parameter, [[?&]v=] matches
    nowhere. *)
Lemma star_v_param_miss : forall X i cap,
  has_v_param X = false ->
  flat_map (exec true v_param) (star_from true Dot (mk i X cap)) = [].
Proof.
  unfold star_from. cbn [endIndex rest capture1 mk].
  induction X as [|c X IH]; intros i cap H.
  - reflexivity.
  - cbn [has_v_param] in H. apply orb_false_iff in H. destruct H as [Hat Hrest].
    cbn [star].
    assert (Hhere : flat_map (exec true v_param) [mk i (c :: X) cap] = []).
    { cbn [flat_map]. rewrite v_param_miss by assumption. reflexivity. }
    destruct (atom_match true Dot c).
    + rewrite flat_map_app. rewrite IH by assumption. exact Hhere.
    + exact Hhere.
Qed.

Lemma exec_seq ic r1 r2 st :
  exec ic (Seq r1 r2) st = flat_map (exec ic r2) (exec ic r1 st).
Proof. reflexivity. Qed.

Lemma exec_alt ic r1 r2 st : exec ic (Alt r1 r2) st = exec ic r1 st ++ exec ic r2 st.
Proof. reflexivity. Qed.

Lemma exec_atom ic a st : exec ic (Atom a) st = step ic a st.
Proof. reflexivity. Qed.

Lemma exec_star ic a st : exec ic (Star a) st = star_from ic a st.
Proof. reflexivity. Qed.

Lemma exec_plus ic a st :
  exec ic (Plus a) st = flat_map (star_from ic a) (step ic a st).
Proof. reflexivity. Qed.

Lemma exec_opt ic r st : exec ic (Opt r) st = exec ic r st ++ [st].
Proof. reflexivity. Qed.

Lemma exec_eps ic st : exec ic Eps st = [st].
Proof. reflexivity. Qed.

Lemma flat_map_one {A B} (f : A -> list B) x l :
  flat_map f (x :: l) = f x ++ flat_map f l.
Proof. reflexivity. Qed.

Lemma flat_map_none {A B} (f : A -> list B) : flat_map f [] = [].
Proof. reflexivity. Qed.

Lemma star_from_hit ic a c t i cap :
  atom_match ic a c = true ->
  star_from ic a (mk i (c :: t) cap)
  = star_from ic a (mk (S i) t cap) ++ [mk i (c :: t) cap].
Proof.
  intros H. unfold star_from; cbn [star endIndex rest capture1 mk].
  rewrite H. reflexivity.
Qed.

Lemma star_from_miss ic a c t i cap :
  atom_match ic a c = false ->
  star_from ic a (mk i (c :: t) cap) = [mk i (c :: t) cap].
Proof.
  intros H. unfold star_from; cbn [star endIndex rest capture1 mk].
  rewrite H. reflexivity.
Qed.

(** After [a*] over an input without [/], nothing that needs a [/]
    matches. *)
Lemma star_no_slash ic a r X i cap :
  needs_slash r = true -> ~ In 47%N X ->
  flat_map (exec ic r) (star_from ic a (mk i X cap)) = [].
Proof.
  intros Hn Hs. apply nil_of_no_member. intros st' H.
  apply in_flat_map in H. destruct H as (m & Hm & H).
  apply star_inv in Hm. destruct Hm as (w & Hw & _). cbn [rest mk] in Hw.
  apply exec_needs_slash in H; [| assumption].
  apply Hs. rewrite Hw. apply in_or_app. right. assumption.
Qed.

Lemma step_cons ic a c t i cap :
  step ic a (mk i (c :: t) cap) = if atom_match ic a c then [mk (S i) t cap] else [].
Proof. reflexivity. Qed.

Lemma star_from_cons ic a c t i cap :
  star_from ic a (mk i (c :: t) cap)
  = if atom_match ic a c
    then star_from ic a (mk (S i) t cap) ++ [mk i (c :: t) cap]
    else [mk i (c :: t) cap].
Proof. reflexivity. Qed.

Lemma exec_chars ic l : forall i s cap,
  exec ic (chars l) (mk i s cap)
  = match strip ic l s with
    | Some t => [mk (length l + i) t cap]
    | None => []
    end.
Proof.
  induction l as [|x l IH]; intros i s cap; [reflexivity |].
  cbn [chars strip]. rewrite exec_seq, exec_atom.
  destruct s as [|c t]; [reflexivity |].
  rewrite step_cons. destruct (atom_match ic (Chr x) c); [| reflexivity].
  cbn [flat_map]. rewrite app_nil_r, IH. cbn [length].
  replace (length l + S i) with (S (length l) + i) by lia. reflexivity.
Qed.

(** Symbolic evaluation of the matcher on an input whose front is known
    and whose tail [X] is not. *)
Ltac expose :=
  repeat match goal with
         | |- context [js ?s] =>
             let l := eval vm_compute in (js s) in change (js s) with l
         end;
  cbn [app].

Ltac decide_lit :=
  match goal with
  | |- context [strip ?ic ?l ?s] =>
      let b := eval vm_compute in (strip ic l s) in
      change (strip ic l s) with b; cbv iota
  end.

Ltac decide_atom :=
  match goal with
  | |- context [atom_match ?ic ?a ?c] =>
      let b := eval vm_compute in (atom_match ic a c) in
      change (atom_match ic a c) with b; cbv iota
  end.

Ltac at_tail X :=
  match goal with
  | |- context [exec ?ic ?r (mk ?i X ?cap)] =>
      rewrite (@exec_no_slash ic r (mk i X cap)) by (first [reflexivity | assumption])
  | |- context [flat_map (exec ?ic ?r) (star_from ?ic ?a (mk ?i X ?cap))] =>
      rewrite (@star_no_slash ic a r X i cap) by (first [reflexivity | assumption])
  | |- context [flat_map (exec true v_param) (star_from true Dot (mk ?i X ?cap))] =>
      rewrite (@star_v_param_miss X i cap) by assumption
  end.

Ltac reval X :=
  repeat first
    [ rewrite exec_chars; decide_lit; cbn [length Nat.add]
    | rewrite step_cons; decide_atom
    | rewrite star_from_cons; decide_atom
    | match goal with
      | |- context [exec ?ic (Seq ?r1 ?r2) (mk ?i (?c :: ?t) ?cap)] =>
          rewrite (exec_seq ic r1 r2 (mk i (c :: t) cap))
      | |- context [exec ?ic (Alt ?r1 ?r2) (mk ?i (?c :: ?t) ?cap)] =>
          rewrite (exec_alt ic r1 r2 (mk i (c :: t) cap))
      | |- context [exec ?ic (Plus ?a) (mk ?i (?c :: ?t) ?cap)] =>
          rewrite (exec_plus ic a (mk i (c :: t) cap))
      | |- context [exec ?ic (Opt ?r) (mk ?i (?c :: ?t) ?cap)] =>
          rewrite (exec_opt ic r (mk i (c :: t) cap))
      end
    | rewrite exec_atom | rewrite exec_star | rewrite exec_eps
    | rewrite flat_map_app | rewrite flat_map_one | rewrite flat_map_none
    | rewrite app_nil_r | progress cbn [app]
    | at_tail X ].

(** The rules run at the host name, on the path of each form followed by an
    unknown tail [X], with any group [g] after the head of the rule. *)
Section AtTheHost.

Variable g : regex.
Variable X : jsstring.
Variable i : nat.

Lemma rule1_short :
  exec true (Seq rule1_head g) (mk i (js "youtu.be/" ++ X) None)
  = exec true g (mk (9 + i) X None).
Proof. unfold rule1_head, slash, lit. expose. reval X. reflexivity. Qed.

Lemma rule2_shorts :
  exec true (Seq (lit "youtu.be/") g) (mk i (js "youtube.com/shorts/" ++ X) None) = [].
Proof. unfold lit. expose. reval X. reflexivity. Qed.

Lemma rule3_shorts :
  exec true (Seq (lit "youtube.com/embed/") g)
       (mk i (js "youtube.com/shorts/" ++ X) None) = [].
Proof. unfold lit. expose. reval X. reflexivity. Qed.

Lemma rule4_shorts :
  exec true (Seq (lit "youtube.com/shorts/") g)
       (mk i (js "youtube.com/shorts/" ++ X) None)
  = exec true g (mk (19 + i) X None).
Proof. unfold lit. expose. reval X. reflexivity. Qed.

Section NoSlash.

Hypothesis no_slash : ~ In 47%N X.

(** With no [/] in the tail the alternative [[^\/]+\/.+\/] fails and
    [(?:v|e(?:mbed)?)\/] gives the first match. *)
Lemma rule1_embed :
  exists l,
    exec true (Seq rule1_head g) (mk i (js "youtube.com/embed/" ++ X) None)
    = exec true g (mk (18 + i) X None) ++ l.
Proof. unfold rule1_head, slash, lit. expose. reval X. eexists. reflexivity. Qed.

Lemma rule1_v :
  exists l,
    exec true (Seq rule1_head g) (mk i (js "youtube.com/v/" ++ X) None)
    = exec true g (mk (14 + i) X None) ++ l.
Proof. unfold rule1_head, slash, lit. expose. reval X. eexists. reflexivity. Qed.

Section NoParameter.

Hypothesis no_v_param : has_v_param X = false.

(** With no [v] parameter in the tail either, [.*[?&]v=] matches at the
    [?v=] of the path only. *)
Lemma rule1_watch :
  exec true (Seq rule1_head g) (mk i (js "youtube.com/watch?v=" ++ X) None)
  = exec true g (mk (20 + i) X None).
Proof. unfold rule1_head, slash, lit. expose. reval X. reflexivity. Qed.

Lemma rule1_shorts :
  exec true (Seq rule1_head g) (mk i (js "youtube.com/shorts/" ++ X) None) = [].
Proof. unfold rule1_head, slash, lit. expose. reval X. reflexivity. Qed.

End NoParameter.

End NoSlash.

End AtTheHost.

End ExtractorFacts.

Module ExtractorResults.

Import ExtractorFacts.

Lemma first_capture_inv url v : forall ps,
  Info.first_capture ps url = Some v ->
  exists p m, In p ps /\ str_match url p = Some m /\ group1 m = Some v.
Proof.
  induction ps as [|p ps IH]; intros H; cbn [Info.first_capture] in H; [discriminate |].
  assert (Hnext : Info.first_capture ps url = Some v ->
                  exists p0 m, In p0 (p :: ps) /\ str_match url p0 = Some m
                               /\ group1 m = Some v).
  { intros H'. destruct (IH H') as (p0 & m & Hin & Hm & Hg).
    exists p0, m. split; [right; assumption | auto]. }
  destruct (str_match url p) as [m|] eqn:Em; [| auto].
  destruct (truthy (group1 m)); [| auto].
  exists p, m. split; [left; reflexivity | auto].
Qed.

(** What a rule of the list can capture, wherever it is run. *)
Lemma pattern_capture p st st' :
  In p Info.patterns ->
  In st' (exec (ignoreCase p) (source p) st) ->
  exists w0 w, capture1 st' = Some w /\ length w = 11
               /\ Forall (fun c => is_delimiter c = false) w
               /\ rest st = w0 ++ w ++ rest st'.
Proof.
  intros Hp H.
  assert (Hurl : forall r,
             In st' (exec true (Seq r (Group (Times 11 not_delimiter))) st) ->
             exists w0 w, capture1 st' = Some w /\ length w = 11
                          /\ Forall (fun c => is_delimiter c = false) w
                          /\ rest st = w0 ++ w ++ rest st').
  { intros r Hr. apply seq_group_inv in Hr.
    destruct Hr as (w0 & w & Hc & Hl & Hall & Hrest).
    exists w0, w. repeat split; auto.
    eapply Forall_impl; [| exact Hall]. intros c. apply not_delimiter_spec. }
  unfold Info.patterns in Hp. cbn [In] in Hp.
  destruct Hp as [<- | [<- | [<- | [<- | [<- | [<- | []]]]]]];
    cbn [source ignoreCase] in H; try (eapply Hurl; exact H).
  apply anchored_group_inv in H. destruct H as (Hc & Hl & Hall & _ & Hend).
  exists [], (rest st). repeat split; auto.
  - eapply Forall_impl; [| exact Hall]. intros c Hm. cbv beta in Hm.
    rewrite id_char_spec in Hm. apply id_char_not_delimiter. assumption.
  - rewrite Hend, app_nil_r. reflexivity.
Qed.

Lemma extractVideoId_inv url v :
  Info.extractVideoId url = Some v ->
  exists p u t st' l,
    In p Info.patterns
    /\ url = u ++ t
    /\ exec (ignoreCase p) (source p) (mk (length u) t None) = st' :: l
    /\ capture1 st' = Some v.
Proof.
  unfold Info.extractVideoId. intros H.
  apply first_capture_inv in H. destruct H as (p & m & Hp & Hm & Hg).
  apply search_inv in Hm. destruct Hm as (u & t & st' & l & Hu & _ & He & Hc).
  exists p, u, t, st', l. repeat split; auto. congruence.
Qed.

(** Every result is a run of 11 code units of the input, none of them a
    delimiter. *)
Lemma extractVideoId_run url v :
  Info.extractVideoId url = Some v ->
  length v = 11 /\ Forall (fun c => is_delimiter c = false) v
  /\ exists pre suf, url = pre ++ v ++ suf.
Proof.
  intros H. apply extractVideoId_inv in H.
  destruct H as (p & u & t & st' & l & Hp & Hu & He & Hc).
  assert (Hin : In st' (exec (ignoreCase p) (source p) (mk (length u) t None)))
    by (rewrite He; left; reflexivity).
  destruct (pattern_capture p _ st' Hp Hin) as (w0 & w & Hc' & Hl & Hall & Hrest).
  assert (w = v) by congruence. subst w. repeat split; auto.
  exists (u ++ w0), (rest st'). cbn [rest mk] in Hrest.
  rewrite Hu, Hrest, app_assoc. reflexivity.
Qed.

(** On an input without [/] only the bare-identifier rule can match. *)
Lemma extractVideoId_bare url v :
  Info.extractVideoId url = Some v -> ~ In 47%N url -> v = url /\ valid_id v.
Proof.
  intros H Hs. apply extractVideoId_inv in H.
  destruct H as (p & u & t & st' & l & Hp & Hu & He & Hc).
  assert (Hin : In st' (exec (ignoreCase p) (source p) (mk (length u) t None)))
    by (rewrite He; left; reflexivity).
  assert (Hurl : needs_slash (source p) = true -> False).
  { intros Hn. apply Hs. rewrite Hu. apply in_or_app. right.
    apply (exec_needs_slash _ _ _ _ Hn Hin). }
  unfold Info.patterns in Hp. cbn [In] in Hp.
  destruct Hp as [<- | [<- | [<- | [<- | [<- | [<- | []]]]]]];
    try (exfalso; apply Hurl; reflexivity).
  cbn [source ignoreCase] in Hin. apply anchored_group_inv in Hin.
  cbn [rest endIndex mk] in Hin. destruct Hin as (Hcap & Hl & Hall & H0 & _).
  destruct u; [| discriminate]. cbn [app] in Hu. subst t.
  assert (Hv : v = url) by congruence. subst v.
  split; [reflexivity |]. split; [assumption |].
  eapply Forall_impl; [| exact Hall]. intros c Hm. cbv beta in Hm.
  rewrite id_char_spec in Hm. exact Hm.
Qed.

(** *** The recognized shapes *)

Lemma search_at_host p pre s st l :
  begins_with 121 (source p) = true -> ignoreCase p = true -> no_y pre ->
  exec true (source p) (mk (length pre) s None) = st :: l ->
  search p 0 (pre ++ s)
  = Some {| index := length pre; lastIndex := endIndex st; group1 := capture1 st |}.
Proof.
  intros Hb Hi Hpre He.
  rewrite (search_skip p 121) by (try rewrite Hi; assumption).
  cbn [Nat.add]. apply (search_hit p _ _ st l). rewrite Hi. exact He.
Qed.

Lemma search_shorts_none p pre X :
  begins_with 121 (source p) = true -> needs_slash (source p) = true ->
  ignoreCase p = true -> no_y pre -> ~ In 47%N X ->
  exec true (source p) (mk (length pre) (js "youtube.com/shorts/" ++ X) None) = [] ->
  search p 0 (pre ++ js "youtube.com/shorts/" ++ X) = None.
Proof.
  intros Hb Hn Hi Hpre Hs He.
  rewrite (search_skip p 121) by (try rewrite Hi; assumption).
  cbn [Nat.add].
  change (js "youtube.com/shorts/") with (121%N :: js "outube.com/shorts/") in *.
  cbn [app] in *.
  rewrite search_miss by (rewrite Hi; exact He).
  rewrite (search_skip p 121);
    [| assumption | rewrite Hi; repeat constructor ].
  apply search_no_slash; assumption.
Qed.

Lemma anchored_hit ic a v :
  Forall (fun c => atom_match ic a c = true) v ->
  exec ic (Seq Bol (Seq (Group (Times (length v) a)) Eol)) (mk 0 v None)
  = [mk (length v) [] (Some v)].
Proof.
  intros Hall. rewrite exec_seq.
  change (exec ic Bol (mk 0 v None)) with [mk 0 v None].
  rewrite flat_map_one, flat_map_none, app_nil_r, exec_seq.
  replace (mk 0 v None) with (mk 0 (v ++ []) None) by (rewrite app_nil_r; reflexivity).
  rewrite group_times_hit by assumption. reflexivity.
Qed.

Section Shapes.

Variables pre v suf : jsstring.
Hypothesis pre_no_y : no_y pre.
Hypothesis v_valid : valid_id v.

Lemma tail_no_slash : has_slash suf = false -> ~ In 47%N (v ++ suf).
Proof.
  intros H1 H. apply in_app_or in H. destruct H as [H | H].
  - exact (valid_id_no_slash v v_valid H).
  - exact (has_slash_false suf H1 H).
Qed.

Lemma tail_no_v_param : has_v_param suf = false -> has_v_param (v ++ suf) = false.
Proof.
  intros H2. destruct v_valid as [_ Hall].
  rewrite has_v_param_app by assumption. exact H2.
Qed.

Lemma capture_id i :
  exec true (Group (Times 11 not_delimiter)) (mk i (v ++ suf) None)
  = [mk (i + 11) suf (Some v)].
Proof.
  destruct v_valid as [Hl Hall]. rewrite <- Hl. apply group_times_hit.
  eapply Forall_impl; [| exact Hall]. intros c. apply id_char_matches.
Qed.

Lemma truthy_id : truthy (Some v) = true.
Proof. destruct v_valid as [Hl _]. destruct v; [discriminate | reflexivity]. Qed.

(** The first rule gives [v] as its first match at the host name. *)
Lemma first_rule_hit path l :
  exec true (Seq rule1_head (Group (Times 11 not_delimiter)))
       (mk (length pre) (path ++ v ++ suf) None)
  = exec true (Group (Times 11 not_delimiter)) (mk (length path + length pre) (v ++ suf) None)
    ++ l ->
  Info.extractVideoId (pre ++ path ++ v ++ suf) = Some v.
Proof.
  intros He. rewrite capture_id in He. cbn [app] in He.
  unfold Info.extractVideoId, Info.patterns. cbn [Info.first_capture].
  unfold str_match.
  erewrite search_at_host;
    [| reflexivity | reflexivity | exact pre_no_y | cbn [source]; exact He ].
  cbn [group1 capture1 mk]. rewrite truthy_id. reflexivity.
Qed.

Lemma extract_watch :
  has_slash suf = false -> has_v_param suf = false ->
  Info.extractVideoId (pre ++ form_path WatchUrl ++ v ++ suf) = Some v.
Proof.
  intros Hs Hp. apply (first_rule_hit _ []). rewrite app_nil_r.
  apply rule1_watch; [apply tail_no_slash | apply tail_no_v_param]; assumption.
Qed.

Lemma extract_embed :
  has_slash suf = false ->
  Info.extractVideoId (pre ++ form_path EmbedUrl ++ v ++ suf) = Some v.
Proof.
  intros Hs.
  destruct (rule1_embed (Group (Times 11 not_delimiter)) (v ++ suf) (length pre)
                        (tail_no_slash Hs)) as (l & Hl).
  apply (first_rule_hit _ l). exact Hl.
Qed.

Lemma extract_v :
  has_slash suf = false ->
  Info.extractVideoId (pre ++ form_path VUrl ++ v ++ suf) = Some v.
Proof.
  intros Hs.
  destruct (rule1_v (Group (Times 11 not_delimiter)) (v ++ suf) (length pre)
                    (tail_no_slash Hs)) as (l & Hl).
  apply (first_rule_hit _ l). exact Hl.
Qed.

Lemma extract_short :
  Info.extractVideoId (pre ++ form_path ShortLink ++ v ++ suf) = Some v.
Proof.
  apply (first_rule_hit _ []). rewrite app_nil_r. apply rule1_short.
Qed.

(** The shorts form is missed by the first three rules and taken by the
    fourth. *)
Lemma extract_shorts :
  has_slash suf = false -> has_v_param suf = false ->
  Info.extractVideoId (pre ++ form_path ShortsUrl ++ v ++ suf) = Some v.
Proof.
  intros Hs Hp.
  pose proof (tail_no_slash Hs) as Hs'. pose proof (tail_no_v_param Hp) as Hp'.
  unfold Info.extractVideoId, Info.patterns. cbn [Info.first_capture form_path].
  unfold str_match.
  rewrite search_shorts_none;
    [| reflexivity | reflexivity | reflexivity | exact pre_no_y | exact Hs'
     | cbn [source]; apply (rule1_shorts _ _ _ Hs' Hp') ].
  rewrite search_shorts_none;
    [| reflexivity | reflexivity | reflexivity | exact pre_no_y | exact Hs'
     | cbn [source]; apply rule2_shorts ].
  rewrite search_shorts_none;
    [| reflexivity | reflexivity | reflexivity | exact pre_no_y | exact Hs'
     | cbn [source]; apply rule3_shorts ].
  erewrite search_at_host;
    [| reflexivity | reflexivity | exact pre_no_y
     | cbn [source]; rewrite (rule4_shorts _ (v ++ suf) _); apply capture_id ].
  cbn [group1 capture1 mk]. rewrite truthy_id. reflexivity.
Qed.

Lemma extract_bare : Info.extractVideoId v = Some v.
Proof.
  pose proof (valid_id_no_slash v v_valid) as Hs.
  unfold Info.extractVideoId, Info.patterns. cbn [Info.first_capture].
  unfold str_match.
  rewrite !search_no_slash by (reflexivity || exact Hs).
  assert (He : exec false (Seq Bol (Seq (Group (Times 11 id_char)) Eol)) (mk 0 v None)
               = [mk 11 [] (Some v)]).
  { destruct v_valid as [Hl Hall]. rewrite <- Hl. apply anchored_hit.
    eapply Forall_impl; [| exact Hall]. intros c Hc. cbv beta.
    rewrite id_char_spec. exact Hc. }
  erewrite search_hit by (cbn [source ignoreCase]; exact He).
  cbn [group1 capture1 mk]. rewrite truthy_id. reflexivity.
Qed.

End Shapes.

Lemma origin_no_y scheme sub :
  In scheme schemes -> In sub subdomains -> no_y (scheme ++ sub).
Proof.
  unfold schemes, subdomains. cbn [In].
  intros [<- | [<- | [<- | []]]] [<- | [<- | [<- | []]]];
    repeat constructor.
Qed.



End ExtractorResults.

Import ExtractorFacts ExtractorResults.

(** C1 at the failing input.  An embed URL with a valid identifier, a
    parameter and an [origin] after it.  The first rule matches through its
    alternative [[^\/]+\/.+\/], which runs on to the last [/] that 11
    admissible characters follow, and captures [example.com]; the rule for
    embed URLs, third in the list, is not reached.  Without the first rule
    the function returns the identifier. *)
Theorem extractVideoId_embed_with_origin :
  embed_with_origin
  = js "http://www.youtube.com/embed/" ++ js "M7lc1UVf-VE"
    ++ js "?enablejsapi=1&origin=http://example.com"
  /\ valid_id (js "M7lc1UVf-VE")
  /\ Info.extractVideoId embed_with_origin = Some (js "example.com")
  /\ Info.first_capture (tl Info.patterns) embed_with_origin = Some (js "M7lc1UVf-VE").
Proof.
  split; [reflexivity |]. split; [split; [reflexivity | repeat constructor] |].
  split; vm_compute; reflexivity.
Qed.

(** X26.  Where the identifier is returned.  For a valid 11-character
    identifier after an optional scheme ([http://], [https://]), an optional
    [www.] or [m.], and [youtube.com/watch?v=], [youtu.be/],
    [youtube.com/embed/], [youtube.com/shorts/] or [youtube.com/v/], and
    before a plain tail (any text after a short link; text without [/] after
    an embed or /v/ URL; text without [/] and without a further [v]
    parameter after a watch or shorts URL), and for the bare identifier
    alone, [extractVideoId] returns exactly that identifier: not null, and
    not another run of the input. *)
Theorem extractVideoId_recognized (v url : jsstring) :
  valid_id v -> recognized v url -> Info.extractVideoId url = Some v.
Proof.
  intros Hv Hr. destruct Hr as [scheme sub f suf Hscheme Hsub Hsuf |].
  - rewrite app_assoc. pose proof (origin_no_y scheme sub Hscheme Hsub) as Hpre.
    destruct f; cbn [plain_tail] in Hsuf;
      try (apply andb_true_iff in Hsuf; destruct Hsuf as [Hs Hp];
           apply negb_true_iff in Hp);
      try (rename Hsuf into Hs); try apply negb_true_iff in Hs.
    + apply extract_watch; assumption.
    + apply extract_short; assumption.
    + apply extract_embed; assumption.
    + apply extract_shorts; assumption.
    + apply extract_v; assumption.
  - apply extract_bare; assumption.
Qed.

Lemma extractVideoId_recognized_witness :
  valid_id (js "dQw4w9WgXcQ")
  /\ recognized (js "dQw4w9WgXcQ") (js "https://www.youtube.com/watch?v=dQw4w9WgXcQ")
  /\ Info.extractVideoId (js "https://www.youtube.com/watch?v=dQw4w9WgXcQ")
     = Some (js "dQw4w9WgXcQ").
Proof.
  assert (Hv : valid_id (js "dQw4w9WgXcQ")).
  { split; [reflexivity | repeat constructor]. }
  assert (Hr : recognized (js "dQw4w9WgXcQ")
                          (js "https://www.youtube.com/watch?v=dQw4w9WgXcQ")).
  { exact (in_url (js "dQw4w9WgXcQ") (js "https://") (js "www.") WatchUrl []
                  (or_intror (or_intror (or_introl eq_refl)))
                  (or_intror (or_introl eq_refl)) eq_refl). }
  split; [exact Hv | split; [exact Hr |]].
  exact (extractVideoId_recognized _ _ Hv Hr).
Defined.

(** Past a plain tail the first rule can also run on to the last [v]
    parameter, through its alternative [.*[?&]v=]. *)
Remark watch_url_with_second_v_parameter :
  Info.extractVideoId (js "https://www.youtube.com/watch?v=dQw4w9WgXcQ&v=AAAAAAAAAAA")
  = Some (js "AAAAAAAAAAA").
Proof. vm_compute. reflexivity. Qed.

(** C2, as the code has it.  Every non-null result of [extractVideoId] is a
    run of exactly 11 code units of the input, none of which is a double
    quote, [&], [?], [/] or white space; on an input without [/] the result
    is the whole input and is drawn from [A-Za-z0-9_-]. *)
Theorem extractVideoId_result_shape (url v : jsstring) :
  Info.extractVideoId url = Some v ->
  length v = 11
  /\ Forall (fun c => is_delimiter c = false) v
  /\ (exists pre suf, url = pre ++ v ++ suf)
  /\ (has_slash url = false -> v = url /\ valid_id v).
Proof.
  intros H. destruct (extractVideoId_run url v H) as (Hl & Hall & Hsub).
  split; [exact Hl |]. split; [exact Hall |]. split; [exact Hsub |].
  intros Hs. apply (extractVideoId_bare url v H). apply has_slash_false. exact Hs.
Qed.

Lemma extractVideoId_result_shape_witness :
  Info.extractVideoId (js "https://youtu.be/dQw4w9WgXcQ") = Some (js "dQw4w9WgXcQ")
  /\ length (js "dQw4w9WgXcQ") = 11
  /\ Forall (fun c => is_delimiter c = false) (js "dQw4w9WgXcQ").
Proof.
  assert (H : Info.extractVideoId (js "https://youtu.be/dQw4w9WgXcQ")
              = Some (js "dQw4w9WgXcQ")) by (vm_compute; reflexivity).
  split; [exact H |].
  destruct (extractVideoId_result_shape _ _ H) as (Hl & Hall & _).
  split; [exact Hl | exact Hall].
Defined.

(** C2 as stated fails: a URL rule captures any 11 code units that are not
    delimiters, here a run that ends in a dot. *)
Lemma extractVideoId_outside_id_alphabet :
  Info.extractVideoId (js "https://www.youtube.com/watch?v=dQw4w9WgXc.")
  = Some (js "dQw4w9WgXc.")
  /\ ~ valid_id (js "dQw4w9WgXc.").
Proof.
  split; [vm_compute; reflexivity |].
  intros [_ Hall]. rewrite Forall_forall in Hall.
  assert (Hdot : is_id_char 46 = true).
  { apply Hall. vm_compute. tauto. }
  discriminate Hdot.
Qed.

Lemma first_capture_same url : forall ps,
  Info.first_capture ps url = Download.first_capture ps url.
Proof.
  induction ps as [|p ps IH]; [reflexivity |].
  cbn [Info.first_capture Download.first_capture]. rewrite IH. reflexivity.
Qed.

Lemma patterns_same : Info.patterns = Download.patterns.
Proof. reflexivity. Qed.

Lemma extractVideoId_agree url :
  Info.extractVideoId url = Download.extractVideoId url.
Proof.
  unfold Info.extractVideoId, Download.extractVideoId.
  rewrite first_capture_same, patterns_same. reflexivity.
Qed.

(** C10.  The [extractVideoId] of the /info route and the one of the
    /download route return the same result on every input. *)
Theorem extractVideoId_same_in_both_routes (url : jsstring) :
  Info.extractVideoId url = Download.extractVideoId url.
Proof. exact (extractVideoId_agree url). Qed.

(** ** The /info route *)

Module InfoFacts.

Import InfoRoute.

Lemma fetchRapidApiInfo_run w v log :
  fetchRapidApiInfo w v log
  = (primary_outcome w v, log ++ [PrimaryCall (rapidapi_url v)]).
Proof.
  unfold primary_outcome, fetchRapidApiInfo, try_catch, bind, fetch, response_json,
    throw, ret.
  destruct (rapidApi w (rapidapi_url v)) as [e | st json]; [reflexivity |].
  cbn [fst snd]. destruct (negb (ok st)); [reflexivity |].
  destruct json; reflexivity.
Qed.

Lemma fetchOEmbedInfo_run w v log :
  fetchOEmbedInfo w v log
  = (fallback_outcome w v, log ++ [FallbackCall (oembed_url v)]).
Proof.
  unfold fallback_outcome, fetchOEmbedInfo, try_catch, bind, fetch, response_json,
    throw, ret.
  destruct (oEmbed w (oembed_url v)) as [e | st json]; [reflexivity |].
  cbn [fst snd]. destruct (negb (ok st)); [reflexivity |].
  destruct json; reflexivity.
Qed.

(** The normalizer makes no outbound call. *)
Lemma pure_ret {A} (a : A) : pure (ret a).
Proof. intros log. reflexivity. Qed.

Lemma pure_throw {A} e : pure (@throw A e).
Proof. intros log. reflexivity. Qed.

Lemma pure_bind {A B} (m : IO A) (k : A -> IO B) :
  pure m -> (forall a, pure (k a)) -> pure (bind m k).
Proof.
  intros Hm Hk log. unfold bind. rewrite (Hm log).
  destruct (fst (m [])) as [a | e] eqn:E.
  - rewrite (Hk a log). rewrite (Hm []), E. rewrite (Hk a []). reflexivity.
  - rewrite (Hm []), E. reflexivity.
Qed.

Lemma pure_id_toString item : pure (id_toString item).
Proof. unfold id_toString. destruct (id item); [apply pure_ret | apply pure_throw]. Qed.

Lemma pure_video_format item : pure (video_format item).
Proof.
  unfold video_format. apply pure_bind; [apply pure_id_toString |].
  intros a. apply pure_ret.
Qed.

Lemma pure_audio_format item : pure (audio_format item).
Proof.
  unfold audio_format. apply pure_bind; [apply pure_id_toString |].
  intros a. apply pure_ret.
Qed.

Lemma pure_push_each f : (forall item, pure (f item)) ->
  forall items formats, pure (push_each f items formats).
Proof.
  intros Hf. induction items as [|item items IH]; intros formats; cbn [push_each].
  - apply pure_ret.
  - apply pure_bind; [apply Hf |]. intros x. apply IH.
Qed.

Lemma pure_push_items f : (forall item, pure (f item)) ->
  forall items formats, pure (push_items f items formats).
Proof.
  intros Hf [items|] formats; [apply pure_push_each; assumption | apply pure_ret].
Qed.

Lemma pure_normalize data : pure (normalize data).
Proof.
  unfold normalize, collect_formats.
  apply pure_bind; [| intros fs; apply pure_ret].
  apply pure_bind; [apply pure_push_items, pure_video_format |].
  intros fs. apply pure_push_items, pure_audio_format.
Qed.

Lemma extracted_nonempty url v :
  Info.extractVideoId url = Some v -> url <> [] /\ v <> [].
Proof.
  intros H. split.
  - intros ->. vm_compute in H. discriminate.
  - apply extractVideoId_run in H. destruct H as (Hl & _). intros ->. discriminate.
Qed.

(** The handler on a request without a usable URL. *)
Lemma serve_missing w url :
  falsy url = true ->
  serve w url = (Returned (json_error (js "URL parameter is required") 400), []).
Proof. destruct url as [[|c u]|]; [reflexivity | discriminate | reflexivity]. Qed.

Lemma serve_unparsable w u :
  Info.extractVideoId u = None ->
  serve w (Some u)
  = (Returned (json_error (if falsy_string u
                           then js "URL parameter is required"
                           else js "Could not extract video ID from URL") 400), []).
Proof.
  intros H. destruct u as [|c u]; [reflexivity |].
  unfold serve, GET. rewrite H. reflexivity.
Qed.

(** The handler on a URL with an identifier: the primary provider is called,
    and the fallback provider when the primary path throws. *)
Lemma serve_extracted w url v :
  Info.extractVideoId url = Some v ->
  serve w (Some url)
  = match primary_outcome w v with
    | Returned data =>
        match fst (normalize data []) with
        | Returned fs =>
            (Returned (primary_response v data fs), [PrimaryCall (rapidapi_url v)])
        | Threw _ =>
            match fallback_outcome w v with
            | Returned d =>
                (Returned (fallback_response v d),
                 [PrimaryCall (rapidapi_url v); FallbackCall (oembed_url v)])
            | Threw _ =>
                (Returned all_failed,
                 [PrimaryCall (rapidapi_url v); FallbackCall (oembed_url v)])
            end
        end
    | Threw _ =>
        match fallback_outcome w v with
        | Returned d =>
            (Returned (fallback_response v d),
             [PrimaryCall (rapidapi_url v); FallbackCall (oembed_url v)])
        | Threw _ =>
            (Returned all_failed,
             [PrimaryCall (rapidapi_url v); FallbackCall (oembed_url v)])
        end
    end.
Proof.
  intros H. destruct (extracted_nonempty url v H) as [Hu Hv].
  destruct url as [|c u]; [congruence |]. destruct v as [|d v]; [congruence |].
  unfold serve, GET. rewrite H.
  unfold try_catch at 1 2. unfold primary_path, bind at 1.
  rewrite fetchRapidApiInfo_run. cbn [app].
  destruct (primary_outcome w (d :: v)) as [data | e].
  - unfold bind at 1. rewrite (pure_normalize data).
    destruct (fst (normalize data [])) as [fs | e'].
    + reflexivity.
    + unfold try_catch, fallback_path, bind. rewrite fetchOEmbedInfo_run.
      destruct (fallback_outcome w (d :: v)); reflexivity.
  - unfold try_catch, fallback_path, bind. rewrite fetchOEmbedInfo_run.
    destruct (fallback_outcome w (d :: v)); reflexivity.
Qed.

(** *** The sort *)

Section SortFacts.

Variable A : Type.
Variable comparefn : A -> A -> number.

Lemma insert_permutes x : forall l, Permutation (insert comparefn x l) (x :: l).
Proof.
  induction l as [|y l IH]; cbn [insert]; [reflexivity |].
  destruct (sort_after comparefn x y); [| reflexivity].
  rewrite IH. apply perm_swap.
Qed.

Lemma sort_permutes : forall l, Permutation (sort comparefn l) l.
Proof.
  induction l as [|x l IH]; cbn [sort]; [reflexivity |].
  rewrite insert_permutes. constructor. exact IH.
Qed.

End SortFacts.


(** A comparator that follows a key into pairs of integers, on the values
    that satisfy [P]: the sort orders by the key and keeps ties in place. *)
Section SortedByKey.

Variable A : Type.
Variable comparefn : A -> A -> number.
Variable key : A -> Z * Z.
Variable P : A -> Prop.
Hypothesis comparefn_key : forall x y, P x -> P y ->
  (sort_after comparefn x y = true <-> rank_lt (key y) (key x)).

Let le (a b : A) : Prop := ~ rank_lt (key b) (key a).

Lemma insert_Forall (Q : A -> Prop) x : forall l,
  Q x -> Forall Q l -> Forall Q (insert comparefn x l).
Proof.
  intros l Hx Hl. rewrite Forall_forall in *. intros y Hy.
  apply (Permutation_in _ (insert_permutes _ comparefn x l)) in Hy.
  destruct Hy as [<- | Hy]; auto.
Qed.

Lemma sort_Forall (Q : A -> Prop) l : Forall Q l -> Forall Q (sort comparefn l).
Proof.
  intros Hl. rewrite Forall_forall in *. intros y Hy.
  apply Hl. apply (Permutation_in _ (sort_permutes _ comparefn l)). exact Hy.
Qed.

Lemma insert_sorted x : forall l,
  P x -> Forall P l -> StronglySorted le l -> StronglySorted le (insert comparefn x l).
Proof.
  induction l as [|y l IH]; intros Hx Hl Hs; cbn [insert].
  - repeat constructor.
  - inversion Hl as [|? ? Hy Hl']; subst. inversion Hs as [|? ? Hs' Hy']; subst.
    destruct (sort_after comparefn x y) eqn:E.
    + apply comparefn_key in E; [| assumption | assumption].
      constructor; [apply IH; assumption |].
      apply insert_Forall; [| assumption].
      unfold le, rank_lt in *. lia.
    + assert (Hxy : le x y).
      { intros H. apply comparefn_key in H; [congruence | assumption | assumption]. }
      constructor; [constructor; assumption |].
      constructor; [assumption |].
      eapply Forall_impl; [| exact Hy']. intros z Hz.
      unfold le, rank_lt in *. lia.
Qed.

Lemma sort_sorted : forall l, Forall P l -> StronglySorted le (sort comparefn l).
Proof.
  induction l as [|x l IH]; intros Hl; cbn [sort]; [constructor |].
  inversion Hl; subst.
  apply insert_sorted; [assumption | apply sort_Forall; assumption | auto].
Qed.

Variable tied : A -> bool.
Hypothesis tied_key : forall x y, tied x = true -> tied y = true -> key x = key y.

Lemma insert_stable x : forall l,
  P x -> Forall P l ->
  filter tied (insert comparefn x l) = filter tied (x :: l).
Proof.
  induction l as [|y l IH]; intros Hx Hl; cbn [insert]; [reflexivity |].
  inversion Hl as [|? ? Hy Hl']; subst.
  destruct (sort_after comparefn x y) eqn:E; [| reflexivity].
  apply comparefn_key in E; [| assumption | assumption].
  cbn [filter]. rewrite (IH Hx Hl'). cbn [filter].
  destruct (tied x) eqn:Tx; destruct (tied y) eqn:Ty; try reflexivity.
  rewrite (tied_key x y Tx Ty) in E. unfold rank_lt in E. lia.
Qed.

Lemma sort_stable : forall l,
  Forall P l -> filter tied (sort comparefn l) = filter tied l.
Proof.
  induction l as [|x l IH]; intros Hl; cbn [sort]; [reflexivity |].
  inversion Hl; subst.
  rewrite insert_stable by (try apply sort_Forall; assumption).
  cbn [filter]. rewrite IH by assumption. reflexivity.
Qed.

End SortedByKey.

Lemma rank_lt_must_precede a b : rank_lt (rank a) (rank b) <-> must_precede a b.
Proof.
  unfold rank_lt, rank, must_precede.
  destruct (hasVideo a), (hasVideo b); cbn [fst snd]; split; intros H.
  all: try lia.
  all: destruct H as [[H1 H2] | [(H1 & H2 & H3) | (H1 & H2 & H3)]];
    try discriminate; lia.
Qed.

(** On formats it can grade, the comparator of lines 158-172 follows the
    rank. *)
Lemma compare_formats_rank x y :
  graded x -> graded y ->
  (sort_after compare_formats x y = true <-> rank_lt (rank y) (rank x)).
Proof.
  unfold graded, sort_after, compare_formats, rank, rank_lt, resolution_value,
    bitrate_value.
  intros Hx Hy.
  destruct (hasVideo x) eqn:Vx; destruct (hasVideo y) eqn:Vy; cbn [andb negb fst snd].
  - destruct Hx as (rx & -> & _). destruct Hy as (ry & -> & _).
    cbn [sub]. rewrite Z.ltb_lt. lia.
  - split; [discriminate | lia].
  - split; [intros _; lia | reflexivity].
  - destruct Hx as (bx & -> & _). destruct Hy as (bz & -> & _).
    cbn [number_of sub]. rewrite Z.ltb_lt. lia.
Qed.

Lemma same_rank_eq f x y :
  same_rank f x = true -> same_rank f y = true -> rank x = rank y.
Proof.
  unfold same_rank. intros Hx Hy.
  apply andb_true_iff in Hx. apply andb_true_iff in Hy.
  destruct Hx as [Hx1 Hx2]. destruct Hy as [Hy1 Hy2].
  apply Z.eqb_eq in Hx1, Hx2, Hy1, Hy2.
  destruct (rank x), (rank y), (rank f); cbn [fst snd] in *. f_equal; lia.
Qed.

(** *** The normalizer *)

Lemma push_each_spec f : (forall item, pure (f item)) ->
  forall items formats fs,
    fst (push_each f items formats []) = Returned fs ->
    exists xs, fs = formats ++ xs /\ Forall2 (maps_to f) items xs.
Proof.
  intros Hf. induction items as [|item items IH]; intros formats fs H.
  - cbn in H. inversion H; subst. exists []. rewrite app_nil_r.
    split; [reflexivity | constructor].
  - cbn [push_each] in H. unfold bind in H. rewrite (Hf item []) in H.
    destruct (fst (f item [])) as [x | e] eqn:Ex; [| discriminate].
    destruct (IH _ _ H) as (xs & Hfs & Hall).
    exists (x :: xs). split.
    + rewrite Hfs, <- app_assoc. reflexivity.
    + constructor; assumption.
Qed.

Lemma push_items_spec f : (forall item, pure (f item)) ->
  forall items formats fs,
    fst (push_items f items formats []) = Returned fs ->
    exists xs, fs = formats ++ xs /\ Forall2 (maps_to f) (items_of items) xs.
Proof.
  intros Hf [items|] formats fs H; cbn [push_items items_of] in *.
  - apply push_each_spec; assumption.
  - inversion H; subst. exists []. rewrite app_nil_r.
    split; [reflexivity | constructor].
Qed.

Lemma collect_formats_spec data fs :
  fst (collect_formats data []) = Returned fs ->
  exists vs aus,
    fs = vs ++ aus
    /\ Forall2 (maps_to video_format) (items_of (videos_items data)) vs
    /\ Forall2 (maps_to audio_format) (items_of (audios_items data)) aus.
Proof.
  unfold collect_formats, bind. intros H.
  rewrite (pure_push_items video_format pure_video_format _ _ []) in H.
  destruct (fst (push_items video_format (videos_items data) [] [])) as [vs | e] eqn:Ev;
    [| discriminate].
  apply push_items_spec in Ev; [| apply pure_video_format].
  apply push_items_spec in H; [| apply pure_audio_format].
  destruct Ev as (vs' & -> & Hv). destruct H as (aus & -> & Ha).
  exists vs', aus. auto.
Qed.

Lemma normalize_spec data fs :
  fst (normalize data []) = Returned fs ->
  exists fs0, fst (collect_formats data []) = Returned fs0
              /\ fs = sort compare_formats fs0.
Proof.
  unfold normalize, bind. intros H.
  destruct (collect_formats data []) as [[fs0 | e] log]; [| discriminate].
  cbn in H. inversion H; subst. exists fs0. auto.
Qed.

Lemma text_of_toString v : text_of v (toString v).
Proof. destruct v; cbn [text_of toString]; auto. Qed.

Lemma video_format_spec item x : maps_to video_format item x -> video_rel item x.
Proof.
  unfold maps_to, video_format, bind, id_toString, video_rel, copied, is_present.
  destruct (id item) as [v|]; cbn; [| discriminate].
  intros H. inversion H; subst. cbn.
  repeat split; try reflexivity. exists v. split; [reflexivity | apply text_of_toString].
Qed.

Lemma audio_format_spec item x : maps_to audio_format item x -> audio_rel item x.
Proof.
  unfold maps_to, audio_format, bind, id_toString, audio_rel, copied.
  destruct (id item) as [v|]; cbn; [| discriminate].
  intros H. inversion H; subst. cbn.
  repeat split; try reflexivity. exists v. split; [reflexivity | apply text_of_toString].
Qed.

Lemma normalize_formats data fs :
  fst (normalize data []) = Returned fs ->
  exists vs aus,
    Permutation fs (vs ++ aus)
    /\ Forall2 video_rel (items_of (videos_items data)) vs
    /\ Forall2 audio_rel (items_of (audios_items data)) aus.
Proof.
  intros H. apply normalize_spec in H. destruct H as (fs0 & H0 & ->).
  apply collect_formats_spec in H0. destruct H0 as (vs & aus & -> & Hv & Ha).
  exists vs, aus. split; [apply sort_permutes |]. split.
  - eapply Forall2_impl; [| exact Hv]. intros item x. apply video_format_spec.
  - eapply Forall2_impl; [| exact Ha]. intros item x. apply audio_format_spec.
Qed.

Lemma Forall2_in_right {A B} (R : A -> B -> Prop) l1 l2 y :
  Forall2 R l1 l2 -> In y l2 -> exists x, In x l1 /\ R x y.
Proof.
  induction 1 as [|x y' l1 l2 Hxy Hrest IH]; intros Hin; [destruct Hin |].
  destruct Hin as [<- | Hin].
  - exists x. split; [left; reflexivity | assumption].
  - destruct (IH Hin) as (x0 & Hx0 & HR).
    exists x0. split; [right; assumption | assumption].
Qed.

End InfoFacts.

Import InfoRoute InfoFacts.

(** C3.  The /info handler responds 400, with an error payload, exactly
    when the [url] parameter is missing or empty or [extractVideoId] returns
    null on it, as it does for [not a url] and [http://example.com]; a 400
    response is sent without any outbound call. *)
Theorem info_bad_request (w : World) (url : option jsstring) :
  (exists r, fst (serve w url) = Returned r
     /\ (status r = 400%N <->
         falsy url = true \/ exists u, url = Some u /\ Info.extractVideoId u = None)
     /\ (status r = 400%N ->
         (exists e, body r = ErrorBody e) /\ snd (serve w url) = []))
  /\ Info.extractVideoId (js "not a url") = None
  /\ Info.extractVideoId (js "http://example.com") = None.
Proof.
  split; [| split; vm_compute; reflexivity].
  destruct (falsy url) eqn:Ef.
  { rewrite (serve_missing w url Ef). eexists. split; [reflexivity |].
    cbn [status body json_error fst snd]. split; [tauto | eauto]. }
  destruct url as [u|]; [| discriminate].
  destruct (Info.extractVideoId u) as [v|] eqn:Ex.
  - rewrite (serve_extracted w u v Ex).
    destruct (primary_outcome w v) as [data | e];
      [destruct (fst (normalize data [])) as [fs | e] |];
      try (destruct (fallback_outcome w v) as [d | e']);
      (eexists; split; [reflexivity |]);
      cbn [status body json_error fst snd primary_response fallback_response all_failed];
      (split;
       [split; [discriminate
               | intros [H | (u0 & H1 & H2)]; [discriminate | congruence]]
       | discriminate]).
  - rewrite (serve_unparsable w u Ex). eexists. split; [reflexivity |].
    cbn [status body json_error fst snd]. split; [| eauto].
    split; [| reflexivity]. intros _. right. exists u. auto.
Qed.

(** C4.  When the primary provider call fails, the fallback provider is
    called exactly once; when the fallback call succeeds the response is 200
    with exactly two formats, a combined 360p MP4 entry and a 128 kbps audio
    entry, both with contentLength 0, and lengthSeconds and viewCount 0. *)
Theorem info_fallback_on_primary_failure (w : World) (url v : jsstring) (e : Thrown) :
  Info.extractVideoId url = Some v ->
  primary_outcome w v = Threw e ->
  snd (serve w (Some url)) = [PrimaryCall (rapidapi_url v); FallbackCall (oembed_url v)]
  /\ fallback_attempts (snd (serve w (Some url))) = 1
  /\ forall d, fallback_outcome w v = Returned d ->
       exists info video audio,
         fst (serve w (Some url)) = Returned {| status := 200; body := InfoBody info |}
         /\ formats info = [video; audio]
         /\ lengthSeconds info = js "0" /\ viewCount info = js "0"
         /\ hasVideo video = true /\ hasAudio video = true
         /\ qualityLabel video = Some (js "360p")
         /\ mimeType video = Some (js "video/mp4")
         /\ contentLength video = Some (js "0")
         /\ hasVideo audio = false /\ hasAudio audio = true
         /\ bitrate audio = Some 128000%Z
         /\ mimeType audio = Some (js "audio/mp4")
         /\ contentLength audio = Some (js "0").
Proof.
  intros Hx Hp. rewrite (serve_extracted w url v Hx), Hp.
  split; [destruct (fallback_outcome w v); reflexivity |].
  split; [destruct (fallback_outcome w v); reflexivity |].
  intros d Hd. rewrite Hd. cbn [fst]. unfold fallback_response, fallback_formats.
  do 3 eexists. split; [reflexivity |]. cbn.
  repeat split; reflexivity.
Qed.

Lemma info_fallback_on_primary_failure_witness :
  snd (serve forbidden (Some (js "https://youtu.be/dQw4w9WgXcQ")))
  = [PrimaryCall (rapidapi_url (js "dQw4w9WgXcQ"));
     FallbackCall (oembed_url (js "dQw4w9WgXcQ"))].
Proof.
  refine (proj1 (info_fallback_on_primary_failure forbidden
                   (js "https://youtu.be/dQw4w9WgXcQ") (js "dQw4w9WgXcQ")
                   (ErrorObject (js "Rapid API returned status 403")) _ _)).
  - vm_compute. reflexivity.
  - vm_compute. reflexivity.
Defined.

(** C5.  When both provider calls fail on a request with an extractable
    identifier, the response is 500 with the error message [All methods
    failed to fetch video information], which contains [failed]. *)
Theorem info_all_methods_failed (w : World) (url v : jsstring) (e1 e2 : Thrown) :
  Info.extractVideoId url = Some v ->
  primary_outcome w v = Threw e1 ->
  fallback_outcome w v = Threw e2 ->
  fst (serve w (Some url))
  = Returned {| status := 500;
                body := ErrorBody (js "All methods failed to fetch video information") |}
  /\ contains (js "failed") (js "All methods failed to fetch video information") = true.
Proof.
  intros Hx Hp Hf. rewrite (serve_extracted w url v Hx), Hp, Hf.
  split; [reflexivity | vm_compute; reflexivity].
Qed.

Lemma info_all_methods_failed_witness :
  fst (serve unreachable (Some (js "https://youtu.be/dQw4w9WgXcQ")))
  = Returned {| status := 500;
                body := ErrorBody (js "All methods failed to fetch video information") |}.
Proof.
  refine (proj1 (info_all_methods_failed unreachable
                   (js "https://youtu.be/dQw4w9WgXcQ") (js "dQw4w9WgXcQ")
                   (ErrorObject (js "fetch failed"))
                   (ErrorObject (js "oEmbed API returned status 404")) _ _ _)).
  - vm_compute. reflexivity.
  - vm_compute. reflexivity.
  - vm_compute. reflexivity.
Defined.

(** C6 at the failing input: a video labelled [hd] stays ahead of one
    labelled [720p].  Its resolution parses to NaN, not to 0, so the
    comparator answers NaN both ways and the sort keeps the input order. *)
Theorem normalize_unparseable_label :
  exists first second,
    fst (normalize unparseable_label []) = Returned [first; second]
    /\ hasVideo first = true /\ hasVideo second = true
    /\ qualityLabel first = Some (js "hd") /\ resolution first = NaN
    /\ qualityLabel second = Some (js "720p") /\ resolution second = Num 720
    /\ compare_formats first second = NaN
    /\ compare_formats second first = NaN.
Proof.
  do 2 eexists. split; [vm_compute; reflexivity |].
  repeat split; vm_compute; reflexivity.
Qed.

(** X1.  The ordering rule where it holds.  When the comparator can grade
    every format (the label of each video parses to a number and each audio
    has a bit rate, both below 2^53 in magnitude), the sorted list is a
    permutation of the formats in which no format comes after one it must
    precede (videos before audios, higher resolution first, higher bit rate
    first), and formats that compare equal keep their relative order. *)
Theorem sort_by_quality (l : list VideoFormat) :
  Forall graded l ->
  Permutation (sort compare_formats l) l
  /\ StronglySorted (fun a b => ~ must_precede b a) (sort compare_formats l)
  /\ forall f, filter (same_rank f) (sort compare_formats l) = filter (same_rank f) l.
Proof.
  intros Hl. split; [apply sort_permutes |]. split.
  - pose proof (sort_sorted _ compare_formats rank graded compare_formats_rank l Hl)
      as Hs.
    induction Hs as [|a s Hs IH Ha]; constructor; [exact IH |].
    eapply Forall_impl; [| exact Ha]. intros b Hb Hm. apply Hb.
    apply rank_lt_must_precede. exact Hm.
  - intros f.
    apply (sort_stable _ compare_formats rank graded compare_formats_rank
                       (same_rank f) (same_rank_eq f) l Hl).
Qed.

Lemma sort_by_quality_witness :
  Forall graded mixed_formats
  /\ Permutation (sort compare_formats mixed_formats) mixed_formats.
Proof.
  assert (H : Forall graded mixed_formats).
  { unfold mixed_formats.
    repeat (apply Forall_cons;
            [eexists; split; [vm_compute; reflexivity | unfold safe_integer; lia] |]).
    apply Forall_nil. }
  split; [exact H |]. exact (proj1 (sort_by_quality mixed_formats H)).
Defined.

(** The ordering example of the specification: 720p, 480p, 256 kbps,
    128 kbps. *)
Example sort_mixed_formats :
  sort compare_formats mixed_formats
  = [ sample_format "720p" 0 true; sample_format "480p" 0 true;
      sample_format "Audio Only" 256000 false; sample_format "Audio Only" 128000 false ].
Proof. vm_compute. reflexivity. Qed.

(** C7, as the code has it.  The normalizer returns one Format for each
    video item and one for each audio item, reordered by the sort.  The
    Format of a video item has hasVideo true, hasAudio true exactly when the
    item's audioQuality is present, and the item's label and MIME type; the
    Format of an audio item has hasVideo false, hasAudio true, the label
    [Audio Only] and the MIME type [audio/] followed by the item's container
    ([mp3] for a missing or empty container), whatever MIME type the
    provider sent.  Either Format has the item's [id] as its tag and the
    item's bit rate, container, codecs and content length. *)
Theorem normalizer_formats (data : RapidApiData) (fs : list VideoFormat) :
  fst (normalize data []) = Returned fs ->
  exists vs aus,
    Permutation fs (vs ++ aus)
    /\ Forall2 video_rel (items_of (videos_items data)) vs
    /\ Forall2 audio_rel (items_of (audios_items data)) aus.
Proof. exact (normalize_formats data fs). Qed.

Lemma normalizer_formats_witness :
  exists vs aus,
    Permutation [webm_format] (vs ++ aus)
    /\ Forall2 video_rel [] vs
    /\ Forall2 audio_rel [webm_audio] aus.
Proof.
  refine (normalizer_formats one_audio [webm_format] _). vm_compute. reflexivity.
Defined.

(** C7 as stated fails: the MIME type the provider sent with an audio item
    is replaced. *)
Lemma audio_mime_type_not_kept :
  exists x, fst (audio_format webm_audio []) = Returned x
            /\ raw_mimeType webm_audio = Some (js "audio/webm; codecs=opus")
            /\ mimeType x = Some (js "audio/webm")
            /\ mimeType x <> raw_mimeType webm_audio.
Proof.
  eexists. split; [vm_compute; reflexivity |].
  split; [reflexivity |]. split; [reflexivity |].
  vm_compute. discriminate.
Qed.

(** C9.  In every 200 response of the /info handler, from the primary path
    or from the fallback path, every Format has hasVideo or hasAudio true. *)
Theorem info_success_formats (w : World) (url : option jsstring) (r : Response) :
  fst (serve w url) = Returned r -> status r = 200%N ->
  exists info, body r = InfoBody info
               /\ Forall (fun f => hasVideo f || hasAudio f = true) (formats info).
Proof.
  intros Hr Hs.
  destruct (falsy url) eqn:Ef.
  { rewrite (serve_missing w url Ef) in Hr. inversion Hr; subst. discriminate Hs. }
  destruct url as [u|]; [| discriminate].
  destruct (Info.extractVideoId u) as [v|] eqn:Ex.
  2:{ rewrite (serve_unparsable w u Ex) in Hr. inversion Hr; subst. discriminate Hs. }
  rewrite (serve_extracted w u v Ex) in Hr.
  assert (Hfb : forall d, exists info,
               body (fallback_response v d) = InfoBody info
               /\ Forall (fun f => hasVideo f || hasAudio f = true) (formats info)).
  { intros d. eexists. split; [reflexivity |]. cbn. repeat constructor. }
  destruct (primary_outcome w v) as [data | e].
  - destruct (fst (normalize data [])) as [fs | e] eqn:En.
    + inversion Hr; subst. eexists. split; [reflexivity |]. cbn [formats].
      destruct (normalize_formats data fs En) as (vs & aus & Hp & Hv & Ha).
      rewrite Forall_forall. intros f Hf.
      apply (Permutation_in _ Hp) in Hf. apply in_app_or in Hf. destruct Hf as [Hf | Hf].
      * destruct (Forall2_in_right _ _ _ _ Hv Hf) as (item & _ & Hrel).
        destruct Hrel as [-> _]. reflexivity.
      * destruct (Forall2_in_right _ _ _ _ Ha Hf) as (item & _ & Hrel).
        destruct Hrel as (_ & -> & _). apply orb_true_r.
    + destruct (fallback_outcome w v) as [d | e']; inversion Hr; subst;
        [apply Hfb | discriminate Hs].
  - destruct (fallback_outcome w v) as [d | e']; inversion Hr; subst;
      [apply Hfb | discriminate Hs].
Qed.

Lemma info_success_formats_witness :
  exists info,
    body (primary_response (js "dQw4w9WgXcQ") one_audio [webm_format]) = InfoBody info
    /\ Forall (fun f => hasVideo f || hasAudio f = true) (formats info).
Proof.
  refine (info_success_formats primary_up (Some (js "https://youtu.be/dQw4w9WgXcQ"))
            (primary_response (js "dQw4w9WgXcQ") one_audio [webm_format]) _ _).
  - vm_compute. reflexivity.
  - reflexivity.
Defined.

(** ** The /download route *)

Module DownloadFacts.

Lemma jsstring_eqb_eq a b : jsstring_eqb a b = true <-> a = b.
Proof.
  unfold jsstring_eqb. destruct (list_eq_dec N.eq_dec a b); split; congruence.
Qed.

(** *** The URL parser on the characters it keeps *)

Ltac bool_facts :=
  repeat match goal with
         | H : _ && _ = true |- _ => apply andb_true_iff in H; destruct H
         | H : _ || _ = false |- _ => apply orb_false_iff in H; destruct H
         | H : negb _ = true |- _ => apply negb_true_iff in H
         | H : (_ <? _)%N = false |- _ => apply N.ltb_ge in H
         | H : (_ =? _)%N = false |- _ => apply N.eqb_neq in H
         end.

Lemma path_char_spec c :
  path_char c = true ->
  (forall caret, URL.path_set caret c = false)
  /\ (0x20 < c < 0x7F /\ c <> 47 /\ c <> 92 /\ c <> 63 /\ c <> 35)%N.
Proof.
  unfold path_char. intros H. bool_facts. split.
  - intros caret. unfold URL.path_set in *. cbn [andb] in *. bool_facts.
    match goal with Hq : URL.query_set c = false |- _ => rewrite Hq end.
    match goal with Hq : existsb _ _ = false |- _ => rewrite Hq end.
    destruct caret; [apply N.eqb_neq; assumption | reflexivity].
  - unfold URL.path_set, URL.query_set, URL.c0_control_set in *.
    cbn [existsb andb] in *. bool_facts. lia.
Qed.

Lemma path_char_visible c : path_char c = true -> (0x20 < c < 0x7F)%N.
Proof. intros H. apply path_char_spec in H. tauto. Qed.

Lemma path_char_copied caret c :
  path_char c = true -> URL.utf8_percent_encode (URL.path_set caret) c = [c].
Proof.
  intros H. apply path_char_spec in H. destruct H as [H _].
  unfold URL.utf8_percent_encode. rewrite H. reflexivity.
Qed.

(** A text of visible ASCII characters reaches the path state as it is. *)
Lemma code_points_ascii s :
  Forall (fun c => (c < 0x80)%N) s -> URL.code_points s = s.
Proof.
  induction 1 as [|c s Hc Hs IH]; [reflexivity |]. cbn [URL.code_points].
  unfold URL.is_lead, URL.is_trail.
  replace (0xD800 <=? c)%N with false by (symmetry; apply N.leb_gt; lia).
  replace (0xDC00 <=? c)%N with false by (symmetry; apply N.leb_gt; lia).
  cbn [andb]. rewrite IH. reflexivity.
Qed.

Lemma cleaned_visible s :
  Forall (fun c => (0x20 < c)%N) s -> URL.cleaned s = s.
Proof.
  intros H. unfold URL.cleaned, URL.strip_trailing.
  assert (Hstrip : URL.strip_leading (rev s) = rev s).
  { assert (Hr : Forall (fun c => (0x20 < c)%N) (rev s)).
    { rewrite Forall_forall in *. intros c Hc. apply H, in_rev, Hc. }
    destruct Hr as [|c r Hc _]; [reflexivity |]. cbn [URL.strip_leading].
    unfold URL.is_c0_or_space.
    replace (c <=? 0x20)%N with false by (symmetry; apply N.leb_gt; lia).
    reflexivity. }
  rewrite Hstrip, rev_involutive. clear Hstrip.
  induction H as [|c s Hc Hs IH]; [reflexivity |]. cbn [filter].
  assert (E : URL.is_tab_or_newline c = false).
  { unfold URL.is_tab_or_newline.
    repeat (apply orb_false_iff; split); apply N.eqb_neq; lia. }
  rewrite E. cbn [negb]. rewrite IH. reflexivity.
Qed.

(** The path state copies a run of kept characters into its buffer. *)
Lemma path_state_run caret seg : forallb path_char seg = true ->
  forall t buffer path,
    URL.path_state caret (seg ++ t) buffer path
    = URL.path_state caret t (buffer ++ seg) path.
Proof.
  induction seg as [|c seg IH]; intros H t buffer path.
  - rewrite app_nil_r. reflexivity.
  - cbn [forallb] in H. apply andb_true_iff in H. destruct H as [Hc Hseg].
    cbn [app URL.path_state]. rewrite (path_char_copied caret c Hc).
    destruct (path_char_spec c Hc) as (_ & _ & H47 & H92 & H63 & H35).
    apply N.eqb_neq in H47, H92, H63, H35. rewrite H47, H92, H63, H35.
    cbn [orb]. rewrite (IH Hseg), <- app_assoc. reflexivity.
Qed.

Lemma end_segment_kept seg slash path :
  kept_segment seg = true -> URL.end_segment seg slash path = path ++ [seg].
Proof.
  unfold kept_segment, URL.end_segment. intros H. bool_facts.
  repeat match goal with
         | Hx : _ = false |- _ => rewrite Hx; clear Hx
         end.
  reflexivity.
Qed.

Lemma path_state_kept caret segments : segments <> [] ->
  Forall (fun seg => kept_segment seg = true) segments ->
  forall path,
    URL.path_state caret (joined segments) [] path
    = {| URL.path := path ++ segments; URL.query := None; URL.fragment := None |}.
Proof.
  induction segments as [|seg rest IH]; intros Hne Hall path; [congruence |].
  inversion Hall as [|? ? Hseg Hrest]; subst.
  assert (Hrun : forallb path_char seg = true).
  { unfold kept_segment in Hseg.
    repeat (apply andb_true_iff in Hseg; destruct Hseg as [Hseg ?]). exact Hseg. }
  destruct rest as [|seg' rest].
  - cbn [joined]. rewrite <- (app_nil_r seg) at 1.
    rewrite (path_state_run caret seg Hrun). cbn [app URL.path_state].
    rewrite (end_segment_kept _ _ _ Hseg). reflexivity.
  - change (joined (seg :: seg' :: rest)) with (seg ++ 47%N :: joined (seg' :: rest)).
    rewrite (path_state_run caret seg Hrun). cbn [app URL.path_state N.eqb Pos.eqb orb].
    rewrite (end_segment_kept _ _ _ Hseg), IH by (congruence || assumption).
    rewrite <- app_assoc. reflexivity.
Qed.

Lemma joined_visible segments :
  Forall (fun seg => kept_segment seg = true) segments ->
  Forall (fun c => (0x20 < c < 0x7F)%N) (joined segments).
Proof.
  induction 1 as [|seg rest Hseg Hrest IH]; [constructor |].
  assert (Hv : Forall (fun c => (0x20 < c < 0x7F)%N) seg).
  { unfold kept_segment in Hseg.
    repeat (apply andb_true_iff in Hseg; destruct Hseg as [Hseg ?]).
    rewrite forallb_forall in Hseg. apply Forall_forall. intros c Hc.
    apply path_char_visible, Hseg, Hc. }
  destruct rest as [|seg' rest]; [exact Hv |].
  change (joined (seg :: seg' :: rest)) with (seg ++ 47%N :: joined (seg' :: rest)).
  apply Forall_app. split; [exact Hv |]. constructor; [lia | exact IH].
Qed.

(** The parser writes an address made of kept segments back as it is. *)
Lemma href_kept caret origin segments : segments <> [] ->
  Forall (fun seg => kept_segment seg = true) segments ->
  URL.href caret origin (joined segments) = origin ++ 47%N :: joined segments.
Proof.
  intros Hne Hall. unfold URL.href.
  pose proof (joined_visible segments Hall) as Hv.
  rewrite code_points_ascii
    by (eapply Forall_impl; [| exact Hv]; cbv beta; intros; lia).
  rewrite cleaned_visible
    by (eapply Forall_impl; [| exact Hv]; cbv beta; intros; lia).
  rewrite (path_state_kept caret segments Hne Hall []). unfold URL.serialize.
  cbn [URL.path URL.query URL.fragment app]. rewrite !app_nil_r. f_equal.
  clear Hall Hv. induction segments as [|seg rest IH]; [congruence |].
  destruct rest as [|seg' rest].
  - cbn [flat_map joined]. rewrite app_nil_r. reflexivity.
  - change (joined (seg :: seg' :: rest)) with (seg ++ 47%N :: joined (seg' :: rest)).
    change (flat_map (fun segment => 47%N :: segment) (seg :: seg' :: rest))
      with ((47%N :: seg) ++ flat_map (fun segment => 47%N :: segment) (seg' :: rest)).
    rewrite IH by discriminate. reflexivity.
Qed.

Lemma same_text_length a b : URL.same_text a b = true -> length a = length b.
Proof.
  unfold URL.same_text. destruct (list_eq_dec N.eq_dec (map URL.lower a) b) as [E|];
    [| discriminate].
  intros _. rewrite <- E, length_map. reflexivity.
Qed.

Lemma id_char_path_char c : is_id_char c = true -> path_char c = true.
Proof.
  unfold is_id_char. intros H.
  assert (Hc : (c = 45 \/ c = 95 \/ 48 <= c <= 57 \/ 65 <= c <= 90 \/ 97 <= c <= 122)%N).
  { repeat (apply orb_true_iff in H; destruct H as [H | H]);
      repeat (apply andb_true_iff in H; destruct H as [H ?]);
      repeat match goal with
             | Hx : (_ <=? _)%N = true |- _ => apply N.leb_le in Hx
             | Hx : (_ =? _)%N = true |- _ => apply N.eqb_eq in Hx
             end; lia. }
  unfold path_char, URL.path_set, URL.query_set, URL.c0_control_set. cbn [existsb andb].
  repeat match goal with
         | |- context [(c <? ?k)%N] =>
             replace (c <? k)%N with false by (symmetry; apply N.ltb_ge; lia)
         | |- context [(?k <? c)%N] =>
             replace (k <? c)%N with false by (symmetry; apply N.ltb_ge; lia)
         | |- context [(c =? ?k)%N] =>
             replace (c =? k)%N with false by (symmetry; apply N.eqb_neq; lia)
         end.
  reflexivity.
Qed.

(** The parser keeps every identifier of the data model. *)
Lemma valid_id_kept v : valid_id v -> kept_segment v = true.
Proof.
  intros [Hl Hall]. unfold kept_segment.
  assert (Hrun : forallb path_char v = true).
  { apply forallb_forall. rewrite Forall_forall in Hall. intros c Hc.
    apply id_char_path_char, Hall, Hc. }
  rewrite Hrun. cbn [andb].
  assert (Hno : forall t, (length (js t) < 11)%nat -> URL.same_text v (js t) = false).
  { intros t Ht. destruct (URL.same_text v (js t)) eqn:E; [| reflexivity].
    apply same_text_length in E. lia. }
  unfold URL.single_dot, URL.double_dot.
  rewrite !Hno by (vm_compute; lia). reflexivity.
Qed.

Lemma download_link_spec caret id itag format :
  exists address location,
    DownloadRoute.download_link caret itag format id []
    = (Returned (DownloadRoute.Redirect location), [])
    /\ mirror_target id itag format address
    /\ written_back caret address location.
Proof.
  unfold DownloadRoute.download_link, DownloadRoute.redirect, written_back.
  destruct format as [f|].
  - destruct (jsstring_eqb f (js "mp3")) eqn:E.
    + apply jsstring_eqb_eq in E. subst f.
      exists (DownloadRoute.at_mirror (js "youtube-mp3/" ++ id)). eexists.
      split; [reflexivity |]. split; [left; split; reflexivity | eauto].
    + assert (Hne : Some f <> Some (js "mp3")).
      { intros H. inversion H; subst.
        rewrite (proj2 (jsstring_eqb_eq _ _) eq_refl) in E. discriminate. }
      destruct itag as [[|c t]|].
      * exists (DownloadRoute.at_mirror (js "youtube/" ++ id)). eexists.
        split; [reflexivity |]. split; [right; right; auto | eauto].
      * exists (DownloadRoute.at_mirror (js "youtube/" ++ id ++ js "/mp4/" ++ c :: t)).
        eexists. split; [reflexivity |]. split; [| eauto].
        right; left. split; [assumption |]. exists (c :: t).
        repeat split; congruence.
      * exists (DownloadRoute.at_mirror (js "youtube/" ++ id)). eexists.
        split; [reflexivity |]. split; [right; right; auto | eauto].
  - destruct itag as [[|c t]|].
    + exists (DownloadRoute.at_mirror (js "youtube/" ++ id)). eexists.
      split; [reflexivity |]. split; [| eauto].
      right; right. repeat split; congruence.
    + exists (DownloadRoute.at_mirror (js "youtube/" ++ id ++ js "/mp4/" ++ c :: t)).
      eexists. split; [reflexivity |]. split; [| eauto].
      right; left. split; [congruence |]. exists (c :: t). repeat split; congruence.
    + exists (DownloadRoute.at_mirror (js "youtube/" ++ id)). eexists.
      split; [reflexivity |]. split; [| eauto].
      right; right. repeat split; congruence.
Qed.

(** What the parser writes back for a mirror address whose identifier and
    tag it keeps is the address. *)
Lemma written_back_kept caret id itag format address location :
  mirror_target id itag format address -> written_back caret address location ->
  kept_segment id = true ->
  format = Some (js "mp3") \/ (forall t, itag = Some t -> kept_segment t = true) ->
  location = address.
Proof.
  intros Ht (rest & Ha & Hl) Hid Htag. subst location.
  assert (Hsegs : forall segments, segments <> [] ->
             Forall (fun seg => kept_segment seg = true) segments ->
             address = DownloadRoute.at_mirror (joined segments) ->
             URL.href caret DownloadRoute.mirror rest = address).
  { intros segments Hne Hall Hs. rewrite Hs in Ha.
    unfold DownloadRoute.at_mirror in Ha. apply app_inv_head in Ha.
    inversion Ha; subst rest. rewrite Hs. apply href_kept; assumption. }
  destruct Ht as [[Hf ->] | [(Hf & t & Hi & Hne & ->) | (Hf & Hi & ->)]].
  - apply (Hsegs [js "youtube-mp3"; id]); [discriminate | | reflexivity].
    apply Forall_cons; [vm_compute; reflexivity |].
    apply Forall_cons; [exact Hid | apply Forall_nil].
  - apply (Hsegs [js "youtube"; id; js "mp4"; t]); [discriminate | |].
    + destruct Htag as [Hm | Htag]; [congruence |].
      apply Forall_cons; [vm_compute; reflexivity |].
      apply Forall_cons; [exact Hid |].
      apply Forall_cons; [vm_compute; reflexivity |].
      apply Forall_cons; [exact (Htag t Hi) | apply Forall_nil].
    + reflexivity.
  - apply (Hsegs [js "youtube"; id]); [discriminate | | reflexivity].
    apply Forall_cons; [vm_compute; reflexivity |].
    apply Forall_cons; [exact Hid | apply Forall_nil].
Qed.

Lemma download_link_redirects caret id itag format :
  exists resp,
    DownloadRoute.download_link caret itag format id [] = (Returned resp, [])
    /\ redirects_for caret id itag format resp.
Proof.
  destruct (download_link_spec caret id itag format)
    as (address & location & Hrun & Ht & Hw).
  exists (DownloadRoute.Redirect location). split; [exact Hrun |].
  exists address, location. split; [reflexivity |]. split; [exact Ht |].
  split; [exact Hw |]. apply (written_back_kept caret id itag format); assumption.
Qed.

Lemma download_extracted_nonempty u id :
  Download.extractVideoId u = Some id -> u <> [] /\ id <> [].
Proof. rewrite <- extractVideoId_agree. apply extracted_nonempty. Qed.

End DownloadFacts.

Import DownloadFacts.

(** C8, as the code has it.  The /download handler answers 400 exactly
    when neither [url] nor [videoId] is supplied, or no [videoId] is
    supplied and the URL yields no identifier; a supplied [videoId] is used
    whatever [url] is; every other request is redirected, for the format
    [mp3] to the mirror's MP3 address of the identifier, and otherwise to the
    MP4 address of the identifier and the tag, or to the default address of
    the identifier when no tag is given.  The [Location] is that address as
    the URL parser writes it back: the address itself, holding the
    identifier and the tag as they were given, when they are made of
    characters the parser keeps, as every identifier of 11 characters from
    [A-Za-z0-9_-] is. *)
Theorem download_behaviour (caret : bool) (url itag format videoId : option jsstring) :
  (exists resp,
     DownloadRoute.serve caret url itag format videoId = (Returned resp, [])
     /\ (bad_request resp <->
         (truthy url = false /\ truthy videoId = false)
         \/ (truthy videoId = false
             /\ exists u, url = Some u /\ Download.extractVideoId u = None))
     /\ (forall id, videoId = Some id -> id <> [] ->
         redirects_for caret id itag format resp)
     /\ (forall u id, truthy videoId = false -> url = Some u ->
         Download.extractVideoId u = Some id ->
         redirects_for caret id itag format resp))
  /\ (forall id, valid_id id -> kept_segment id = true).
Proof.
  split; [| exact valid_id_kept].
  unfold DownloadRoute.serve, DownloadRoute.GET.
  assert (Hredirect : forall id resp,
             redirects_for caret id itag format resp -> ~ bad_request resp).
  { intros id resp (address & location & -> & _) [e He]. discriminate He. }
  destruct (truthy videoId) eqn:Ev.
  - (* videoId is supplied: it is used, whatever url is *)
    destruct videoId as [[|c vid]|]; try discriminate Ev.
    change (falsy (Some (c :: vid))) with false. rewrite andb_false_r.
    destruct (download_link_redirects caret (c :: vid) itag format)
      as (resp & Hrun & Hresp).
    unfold try_catch. rewrite Hrun. exists resp.
    split; [reflexivity |]. split; [| split].
    + split; [intros H; destruct (Hredirect _ _ Hresp H) |].
      intros [[_ H] | [H _]]; discriminate H.
    + intros id Hid _. inversion Hid; subst. exact Hresp.
    + intros u id H. discriminate H.
  - assert (Hfalsy : falsy videoId = true).
    { unfold truthy in Ev. apply negb_false_iff in Ev. exact Ev. }
    rewrite Hfalsy, andb_true_r.
    assert (Hnoid : forall id, videoId = Some id -> id <> [] -> False).
    { intros id -> Hid. destruct id; [congruence | discriminate Hfalsy]. }
    destruct (falsy url) eqn:Eu.
    + (* neither is supplied *)
      exists (DownloadRoute.Json 400 (js "URL or videoId parameter is required")).
      split; [reflexivity |]. split; [| split].
      * split; [| intros _; eexists; reflexivity].
        intros _. left. unfold truthy. rewrite Eu. auto.
      * intros id Hid Hne. destruct (Hnoid id Hid Hne).
      * intros u id _ Hu Hx. subst url.
        destruct (download_extracted_nonempty u id Hx) as [Hu _].
        destruct u; [congruence | discriminate Eu].
    + destruct url as [[|c u]|]; try discriminate Eu.
      destruct (Download.extractVideoId (c :: u)) as [id|] eqn:Ex.
      * destruct (download_extracted_nonempty _ _ Ex) as [_ Hid].
        destruct id as [|d id]; [congruence |].
        destruct (download_link_redirects caret (d :: id) itag format)
          as (resp & Hrun & Hresp).
        exists resp. split; [| split; [| split]].
        -- destruct videoId as [[|c' v']|]; try discriminate Hfalsy;
             unfold try_catch; rewrite Hrun; reflexivity.
        -- split; [intros H; destruct (Hredirect _ _ Hresp H) |].
           intros [[H _] | [_ (u0 & Hu0 & Hx0)]]; [discriminate H |].
           inversion Hu0; subst. congruence.
        -- intros id0 Hid0 Hne. destruct (Hnoid id0 Hid0 Hne).
        -- intros u0 id0 _ Hu0 Hx0. inversion Hu0; subst.
           rewrite Ex in Hx0. inversion Hx0; subst. exact Hresp.
      * exists (DownloadRoute.Json 400
                  (js "Invalid YouTube URL. Could not extract video ID.")).
        split; [| split; [| split]].
        -- destruct videoId as [[|c' v']|]; try discriminate Hfalsy; reflexivity.
        -- split; [| intros _; eexists; reflexivity].
           intros _. right. split; [reflexivity |]. exists (c :: u). auto.
        -- intros id0 Hid0 Hne. destruct (Hnoid id0 Hid0 Hne).
        -- intros u0 id0 _ Hu0 Hx0. inversion Hu0; subst. congruence.
Qed.

(** C8 as stated fails: the identifier is not always in the [Location] as
    it was given.  For the [videoId] [../a b] and the tag 22 the parser
    resolves the dot segment and encodes the blank. *)
Lemma download_identifier_rewritten :
  DownloadRoute.serve true None (Some (js "22")) (Some (js "mp4")) (Some (js "../a b"))
  = (Returned (DownloadRoute.Redirect (js "https://www.y2mate.com/a%20b/mp4/22")), [])
  /\ DownloadRoute.serve false None (Some (js "22")) (Some (js "mp4")) (Some (js "../a b"))
     = (Returned (DownloadRoute.Redirect (js "https://www.y2mate.com/a%20b/mp4/22")), [])
  /\ contains (js "../a b") (js "https://www.y2mate.com/a%20b/mp4/22") = false.
Proof. repeat split; vm_compute; reflexivity. Qed.

(** The two editions of the parser differ on [^] alone. *)
Example caret_in_a_path :
  URL.href true DownloadRoute.mirror (js "youtube/a^b")
  = js "https://www.y2mate.com/youtube/a%5Eb"
  /\ URL.href false DownloadRoute.mirror (js "youtube/a^b")
     = js "https://www.y2mate.com/youtube/a^b".
Proof. split; vm_compute; reflexivity. Qed.

(** * More of the code

    Properties of the rest of the two routes and of the components that
    call them. *)

Import RegExpFacts.

(** ** Numbers and their text *)

Module NumberFacts.

Local Open Scope Z_scope.

Lemma digit_value_decimal c :
  is_digit c = true -> digit_value 10 c = Some (Z.of_N c - 48).
Proof.
  unfold is_digit, digit_value. intros H. rewrite H.
  apply andb_true_iff in H. destruct H as [H1 H2].
  apply N.leb_le in H1, H2.
  destruct (Z.of_N c - 48 <? 10) eqn:E; [reflexivity |].
  apply Z.ltb_ge in E. lia.
Qed.

Lemma is_digit_not_space c : is_digit c = true -> is_space c = false.
Proof.
  unfold is_digit, is_space. intros H.
  apply andb_true_iff in H. destruct H as [H1 H2]. apply N.leb_le in H1, H2.
  repeat (apply orb_false_iff; split);
    first [apply N.eqb_neq; lia
          | apply andb_false_iff; right; apply N.leb_gt; lia
          | apply andb_false_iff; left; apply N.leb_gt; lia].
Qed.

Lemma read_digits_decimal ds : forall a,
  Forall (fun c => is_digit c = true) ds ->
  read_digits 10 ds (Some a) = Some (decimal_value ds a).
Proof.
  induction ds as [|c ds IH]; intros a H; [reflexivity |].
  inversion H as [|? ? Hc Hds]; subst.
  cbn [read_digits decimal_value fold_left].
  rewrite (digit_value_decimal c Hc). apply IH. exact Hds.
Qed.

Lemma decimal_value_app ds1 ds2 a :
  decimal_value (ds1 ++ ds2) a = decimal_value ds2 (decimal_value ds1 a).
Proof. unfold decimal_value. apply fold_left_app. Qed.

Lemma is_digit_digit_of d : 0 <= d < 10 -> is_digit (digit_of d) = true.
Proof.
  intros H. unfold is_digit, digit_of.
  apply andb_true_iff. split; apply N.leb_le; lia.
Qed.

Lemma digit_of_value d : 0 <= d < 10 -> Z.of_N (digit_of d) - 48 = d.
Proof. intros H. unfold digit_of. lia. Qed.

(** [digits_of] writes the decimal digits of [z] in front of [acc]. *)
Lemma digits_of_spec : forall fuel z acc,
  0 <= z < 10 ^ Z.of_nat (S fuel) ->
  exists ds,
    digits_of (S fuel) z acc = ds ++ acc
    /\ ds <> []
    /\ Forall (fun c => is_digit c = true) ds
    /\ forall a, decimal_value ds a = a * 10 ^ Z.of_nat (length ds) + z.
Proof.
  induction fuel as [|fuel IH]; intros z acc Hz.
  - change (10 ^ Z.of_nat 1) with 10 in Hz.
    cbn [digits_of]. destruct (z <? 10) eqn:E; [| apply Z.ltb_ge in E; lia].
    exists [digit_of z]. split; [reflexivity |]. split; [discriminate |].
    split; [constructor; [apply is_digit_digit_of; lia | constructor] |].
    intros a. cbn [decimal_value fold_left length].
    rewrite digit_of_value by lia. change (10 ^ Z.of_nat 1) with 10. reflexivity.
  - change (digits_of (S (S fuel)) z acc)
      with (if z <? 10 then digit_of z :: acc
            else digits_of (S fuel) (z / 10) (digit_of (z mod 10) :: acc)).
    destruct (z <? 10) eqn:E.
    + apply Z.ltb_lt in E.
      exists [digit_of z]. split; [reflexivity |]. split; [discriminate |].
      split; [constructor; [apply is_digit_digit_of; lia | constructor] |].
      intros a. cbn [decimal_value fold_left length].
      rewrite digit_of_value by lia. change (10 ^ Z.of_nat 1) with 10. reflexivity.
    + apply Z.ltb_ge in E.
      assert (Hq : 0 <= z / 10 < 10 ^ Z.of_nat (S fuel)).
      { split; [apply Z.div_pos; lia |].
        apply Z.div_lt_upper_bound; [lia |].
        replace (Z.of_nat (S (S fuel))) with (Z.succ (Z.of_nat (S fuel))) in Hz by lia.
        rewrite Z.pow_succ_r in Hz by lia. lia. }
      destruct (IH (z / 10) (digit_of (z mod 10) :: acc) Hq)
        as (ds & Hds & Hne & Hall & Hval).
      assert (Hm : 0 <= z mod 10 < 10) by (apply Z.mod_pos_bound; lia).
      exists (ds ++ [digit_of (z mod 10)]). split; [| split; [| split]].
      * rewrite Hds, <- app_assoc. reflexivity.
      * destruct ds; discriminate.
      * apply Forall_app. split; [exact Hall |].
        constructor; [apply is_digit_digit_of; lia | constructor].
      * intros a. rewrite decimal_value_app, Hval.
        cbn [decimal_value fold_left]. rewrite digit_of_value by lia.
        rewrite length_app. cbn [length].
        replace (Z.of_nat (length ds + 1)) with (Z.succ (Z.of_nat (length ds))) by lia.
        rewrite Z.pow_succ_r by lia.
        pose proof (Z.div_mod z 10 ltac:(lia)). lia.
Qed.

Lemma below_power_of_ten z : 0 <= z -> z < 10 ^ Z.of_nat (S (Z.to_nat (Z.log2 z))).
Proof.
  intros H. destruct (Z.eq_dec z 0) as [-> | Hz]; [reflexivity |].
  assert (Hl : 0 <= Z.log2 z) by apply Z.log2_nonneg.
  replace (Z.of_nat (S (Z.to_nat (Z.log2 z)))) with (Z.succ (Z.log2 z)) by lia.
  destruct (Z.log2_spec z ltac:(lia)) as [_ Hu].
  eapply Z.lt_le_trans; [exact Hu |].
  apply Z.pow_le_mono_l. lia.
Qed.

(** The text of a number that is not negative: its decimal digits. *)
Lemma Z_toString_nonneg z :
  0 <= z ->
  exists ds,
    Z_toString z = ds /\ ds <> []
    /\ Forall (fun c => is_digit c = true) ds
    /\ decimal_value ds 0 = z.
Proof.
  intros H. unfold Z_toString.
  destruct (z <? 0) eqn:E; [apply Z.ltb_lt in E; lia |].
  destruct (digits_of_spec (Z.to_nat (Z.log2 z)) z [])
    as (ds & Hds & Hne & Hall & Hval).
  { split; [exact H | apply below_power_of_ten; exact H]. }
  exists ds. rewrite Hds, app_nil_r. split; [reflexivity |].
  split; [exact Hne |]. split; [exact Hall |]. rewrite Hval. lia.
Qed.

Lemma Z_toString_negative z :
  z < 0 ->
  exists ds,
    Z_toString z = 45%N :: ds /\ ds <> []
    /\ Forall (fun c => is_digit c = true) ds
    /\ decimal_value ds 0 = - z.
Proof.
  intros H. unfold Z_toString.
  destruct (z <? 0) eqn:E; [| apply Z.ltb_ge in E; lia].
  destruct (digits_of_spec (Z.to_nat (Z.log2 (- z))) (- z) [])
    as (ds & Hds & Hne & Hall & Hval).
  { split; [lia | apply below_power_of_ten; lia]. }
  exists ds. rewrite Hds, app_nil_r. split; [reflexivity |].
  split; [exact Hne |]. split; [exact Hall |]. rewrite Hval. lia.
Qed.

Lemma Z_toString_not_empty z : Z_toString z <> [].
Proof.
  destruct (Z_lt_le_dec z 0) as [H | H].
  - destruct (Z_toString_negative z H) as (ds & -> & _). discriminate.
  - destruct (Z_toString_nonneg z H) as (ds & -> & Hne & _). exact Hne.
Qed.

Lemma digit_cases c :
  is_digit c = true ->
  (c = 48 \/ c = 49 \/ c = 50 \/ c = 51 \/ c = 52 \/ c = 53 \/ c = 54 \/ c = 55
   \/ c = 56 \/ c = 57)%N.
Proof.
  unfold is_digit. intros H. apply andb_true_iff in H. destruct H as [H1 H2].
  apply N.leb_le in H1, H2. lia.
Qed.

(** [parseInt] on a text that starts with a decimal digit, and not with
    [0x] or [0X]: the digits are read in radix 10. *)
Lemma parseInt_digit_head c t :
  is_digit c = true ->
  match t with d :: _ => is_digit d = true | [] => True end ->
  parseInt (c :: t)
  = match read_digits 10 (c :: t) None with Some n => Num n | None => NaN end.
Proof.
  intros Hc Ht.
  assert (Hone : forall o : option Z,
             match o with Some n => Num (1 * n) | None => NaN end
             = match o with Some n => Num n | None => NaN end).
  { intros [n|]; [f_equal; lia | reflexivity]. }
  destruct (digit_cases c Hc) as [-> | [-> | [-> | [-> | [-> | [-> | [-> | [-> | [-> | ->]]]]]]]]].
  2-10: unfold parseInt; cbn [trim_start]; apply Hone.
  destruct t as [|d t'].
  - reflexivity.
  - destruct (digit_cases d Ht) as [-> | [-> | [-> | [-> | [-> | [-> | [-> | [-> | [-> | ->]]]]]]]]];
      unfold parseInt; cbn [trim_start]; apply Hone.
Qed.

(** [parseInt] on a run of decimal digits. *)
Lemma parseInt_decimal ds :
  ds <> [] -> Forall (fun c => is_digit c = true) ds ->
  parseInt ds = Num (decimal_value ds 0).
Proof.
  intros Hne Hall. destruct ds as [|c ds]; [congruence |].
  inversion Hall as [|? ? Hc Hds]; subst.
  rewrite parseInt_digit_head; [| exact Hc |].
  - cbn [read_digits]. rewrite (digit_value_decimal c Hc).
    rewrite (read_digits_decimal ds _ Hds). reflexivity.
  - destruct ds as [|d ds']; [exact I |]. inversion Hds; assumption.
Qed.

(** [parseInt] on a minus sign and a run of decimal digits. *)
Lemma parseInt_minus_decimal ds :
  ds <> [] -> Forall (fun c => is_digit c = true) ds ->
  parseInt (45%N :: ds) = Num (- decimal_value ds 0).
Proof.
  intros Hne Hall. destruct ds as [|c ds]; [congruence |].
  inversion Hall as [|? ? Hc Hds]; subst.
  assert (Hrun : read_digits 10 (c :: ds) None = Some (decimal_value (c :: ds) 0)).
  { cbn [read_digits]. rewrite (digit_value_decimal c Hc).
    rewrite (read_digits_decimal ds _ Hds). reflexivity. }
  assert (Hd : match ds with d :: _ => is_digit d = true | [] => True end).
  { destruct ds as [|d ds']; [exact I |]. inversion Hds; assumption. }
  destruct (digit_cases c Hc) as [-> | [-> | [-> | [-> | [-> | [-> | [-> | [-> | [-> | ->]]]]]]]]].
  2-10: unfold parseInt; cbn [trim_start]; change (is_space 45) with false; cbv iota;
    rewrite Hrun; f_equal; lia.
  destruct ds as [|d ds'].
  - reflexivity.
  - destruct (digit_cases d Hd) as [-> | [-> | [-> | [-> | [-> | [-> | [-> | [-> | [-> | ->]]]]]]]]];
      unfold parseInt; cbn [trim_start]; change (is_space 45) with false; cbv iota;
      rewrite Hrun; f_equal; lia.
Qed.

(** [parseInt(n.toString())] is [n]. *)
Lemma parseInt_Z_toString z : parseInt (Z_toString z) = Num z.
Proof.
  destruct (Z_lt_le_dec z 0) as [H | H].
  - destruct (Z_toString_negative z H) as (ds & -> & Hne & Hall & Hval).
    rewrite (parseInt_minus_decimal ds Hne Hall), Hval. f_equal. lia.
  - destruct (Z_toString_nonneg z H) as (ds & -> & Hne & Hall & Hval).
    rewrite (parseInt_decimal ds Hne Hall), Hval. reflexivity.
Qed.

End NumberFacts.

Import NumberFacts.

(** ** More of the /info route *)

Module InfoMore.

Lemma format_throws f item :
  f = video_format \/ f = audio_format ->
  throws (fst (f item [])) = negb (has_id item).
Proof.
  intros [-> | ->]; unfold video_format, audio_format, bind, id_toString, has_id, is_present;
    destruct (id item); reflexivity.
Qed.

Lemma format_error f item e :
  f = video_format \/ f = audio_format ->
  fst (f item []) = Threw e -> e = no_id_error.
Proof.
  intros [-> | ->]; unfold video_format, audio_format, bind, id_toString;
    destruct (id item); cbn; intros H; inversion H; reflexivity.
Qed.

Lemma format_pure f : f = video_format \/ f = audio_format -> forall item, pure (f item).
Proof. intros [-> | ->]; [apply pure_video_format | apply pure_audio_format]. Qed.

Lemma push_items_throws f items formats :
  f = video_format \/ f = audio_format ->
  forallb has_id (items_of items) = false ->
  fst (push_items f items formats []) = Threw no_id_error.
Proof.
  intros Hf H. pose proof (format_pure f Hf) as Hp.
  destruct items as [items|]; [| discriminate H]. cbn [push_items items_of] in *.
  revert formats. induction items as [|item items IH]; intros formats; [discriminate H |].
  cbn [push_each]. unfold bind. rewrite (Hp item []).
  pose proof (format_throws f item Hf) as Ht.
  destruct (fst (f item [])) as [x | e] eqn:Ex.
  - cbn [forallb] in H. cbn [throws] in Ht. symmetry in Ht.
    apply negb_false_iff in Ht. rewrite Ht in H.
    rewrite (pure_push_each f Hp items (formats ++ [x]) []). cbn [fst].
    apply IH. exact H.
  - cbn [fst]. f_equal. apply (format_error f item e Hf Ex).
Qed.

Lemma push_items_returns f items formats :
  f = video_format \/ f = audio_format ->
  forallb has_id (items_of items) = true ->
  exists xs, fst (push_items f items formats []) = Returned (formats ++ xs)
             /\ length xs = length (items_of items).
Proof.
  intros Hf H. pose proof (format_pure f Hf) as Hp.
  destruct items as [items|]; cbn [push_items items_of] in *.
  2:{ exists []. rewrite app_nil_r. split; reflexivity. }
  revert formats. induction items as [|item items IH]; intros formats.
  - exists []. rewrite app_nil_r. split; reflexivity.
  - cbn [forallb] in H. apply andb_true_iff in H. destruct H as [Hi Hrest].
    cbn [push_each]. unfold bind. rewrite (Hp item []).
    pose proof (format_throws f item Hf) as Ht. rewrite Hi in Ht.
    destruct (fst (f item [])) as [x | e] eqn:Ex; [| discriminate Ht].
    rewrite (pure_push_each f Hp items (formats ++ [x]) []). cbn [fst].
    destruct (IH Hrest (formats ++ [x])) as (xs & Hxs & Hlen).
    exists (x :: xs). rewrite Hxs, <- app_assoc. split; [reflexivity |].
    cbn [length]. rewrite Hlen. reflexivity.
Qed.

(** The normalizer throws exactly when an item has no [id]. *)
Lemma normalize_run data :
  if forallb has_id (all_items data)
  then exists fs, fst (normalize data []) = Returned fs
                  /\ length fs = length (all_items data)
  else fst (normalize data []) = Threw no_id_error.
Proof.
  unfold all_items. rewrite forallb_app.
  unfold normalize, collect_formats, bind.
  rewrite (pure_push_items video_format pure_video_format (videos_items data) [] []).
  destruct (forallb has_id (items_of (videos_items data))) eqn:Ev.
  - destruct (push_items_returns video_format (videos_items data) []
                (or_introl eq_refl) Ev) as (vs & Hvs & Hlv).
    rewrite Hvs. cbn [fst app andb].
    rewrite (pure_push_items audio_format pure_audio_format (audios_items data) vs []).
    destruct (forallb has_id (items_of (audios_items data))) eqn:Ea.
    + destruct (push_items_returns audio_format (audios_items data) vs
                  (or_intror eq_refl) Ea) as (aus & Haus & Hla).
      rewrite Haus. cbn [fst]. eexists. split; [reflexivity |].
      rewrite (Permutation_length (sort_permutes _ compare_formats (vs ++ aus))).
      rewrite !length_app. congruence.
    + rewrite (push_items_throws audio_format (audios_items data) vs
                 (or_intror eq_refl) Ea). reflexivity.
  - rewrite (push_items_throws video_format (videos_items data) []
               (or_introl eq_refl) Ev). reflexivity.
Qed.

(** The handler once the primary path has thrown. *)
Lemma serve_after_failure w u v :
  Info.extractVideoId u = Some v -> primary_path_fails w v ->
  serve w (Some u)
  = (Returned (after_primary_failure w v),
     [PrimaryCall (rapidapi_url v); FallbackCall (oembed_url v)]).
Proof.
  intros Hx Hf. rewrite (serve_extracted w u v Hx). unfold after_primary_failure.
  destruct Hf as [Hf | (data & Hd & Hf)].
  - destruct (primary_outcome w v); [discriminate Hf |].
    destruct (fallback_outcome w v); reflexivity.
  - rewrite Hd. pose proof (normalize_run data) as Hn. rewrite Hf in Hn. rewrite Hn.
    destruct (fallback_outcome w v); reflexivity.
Qed.

(** The handler when the primary path returns. *)
Lemma serve_primary w u v data :
  Info.extractVideoId u = Some v -> primary_outcome w v = Returned data ->
  forallb has_id (all_items data) = true ->
  exists fs, fst (normalize data []) = Returned fs
             /\ length fs = length (all_items data)
             /\ serve w (Some u)
                = (Returned (primary_response v data fs), [PrimaryCall (rapidapi_url v)]).
Proof.
  intros Hx Hd Hi. rewrite (serve_extracted w u v Hx), Hd.
  pose proof (normalize_run data) as Hn. rewrite Hi in Hn.
  destruct Hn as (fs & Hfs & Hlen). exists fs. rewrite Hfs. auto.
Qed.

(** Every request falls under one of three cases. *)
Lemma serve_cases w url :
  (exists e, serve w url = (Returned (json_error e 400), [])
             /\ (falsy url = true
                 \/ exists u, url = Some u /\ Info.extractVideoId u = None))
  \/ (exists u v data fs,
        url = Some u /\ Info.extractVideoId u = Some v
        /\ primary_outcome w v = Returned data
        /\ forallb has_id (all_items data) = true
        /\ serve w url = (Returned (primary_response v data fs),
                          [PrimaryCall (rapidapi_url v)]))
  \/ (exists u v,
        url = Some u /\ Info.extractVideoId u = Some v
        /\ primary_path_fails w v
        /\ serve w url = (Returned (after_primary_failure w v),
                          [PrimaryCall (rapidapi_url v); FallbackCall (oembed_url v)])).
Proof.
  destruct (falsy url) eqn:Ef.
  { left. eexists. split; [apply serve_missing; exact Ef | left; reflexivity]. }
  destruct url as [u|]; [| discriminate].
  destruct (Info.extractVideoId u) as [v|] eqn:Ex.
  2:{ left. eexists. split; [apply serve_unparsable; exact Ex |].
      right. exists u. auto. }
  right.
  destruct (primary_outcome w v) as [data | e] eqn:Ep.
  - destruct (forallb has_id (all_items data)) eqn:Ei.
    + left. destruct (serve_primary w u v data Ex Ep Ei) as (fs & _ & _ & Hs).
      exists u, v, data, fs. auto.
    + right. exists u, v.
      assert (Hf : primary_path_fails w v) by (right; exists data; auto).
      split; [reflexivity |]. split; [exact Ex |]. split; [exact Hf |].
      apply serve_after_failure; assumption.
  - right. exists u, v.
    assert (Hf : primary_path_fails w v) by (left; rewrite Ep; reflexivity).
    split; [reflexivity |]. split; [exact Ex |]. split; [exact Hf |].
    apply serve_after_failure; assumption.
Qed.

Lemma after_primary_failure_status w v :
  (status (after_primary_failure w v) = 200%N /\ throws (fallback_outcome w v) = false)
  \/ (after_primary_failure w v = all_failed /\ throws (fallback_outcome w v) = true).
Proof.
  unfold after_primary_failure. destruct (fallback_outcome w v); [left | right]; auto.
Qed.

Lemma scalar_or_not_empty v d : d <> [] -> scalar_or v d <> [].
Proof.
  intros Hd. unfold scalar_or, or_else.
  destruct v as [[n | s]|]; cbn [option_map toString]; [| | exact Hd].
  - pose proof (Z_toString_not_empty n). destruct (Z_toString n); [congruence | discriminate].
  - destruct s; [exact Hd | discriminate].
Qed.

Lemma or_else_not_empty x d : d <> [] -> or_else x d <> [].
Proof.
  intros Hd. unfold or_else. destruct x as [[|c s]|]; [exact Hd | discriminate | exact Hd].
Qed.

End InfoMore.

Import InfoMore.

(** X2.  The /info handler answers every request: no exception escapes it; the
    status is 400 with no outbound call, or 200 after the primary call alone,
    or 200 or 500 after the primary call followed by one fallback call, both
    calls for the identifier extracted from the URL. *)
Theorem info_always_responds (w : World) (url : option jsstring) :
  exists r,
    fst (serve w url) = Returned r
    /\ ((status r = 400%N /\ snd (serve w url) = [])
        \/ exists u v,
             url = Some u /\ Info.extractVideoId u = Some v
             /\ ((status r = 200%N
                  /\ snd (serve w url) = [PrimaryCall (rapidapi_url v)])
                 \/ ((status r = 200%N \/ status r = 500%N)
                     /\ snd (serve w url)
                        = [PrimaryCall (rapidapi_url v); FallbackCall (oembed_url v)]))).
Proof.
  destruct (serve_cases w url)
    as [(e & Hs & _) | [(u & v & data & fs & Hu & Hx & _ & _ & Hs)
                       | (u & v & Hu & Hx & _ & Hs)]];
    rewrite Hs; eexists; (split; [reflexivity |]); cbn [fst snd].
  - left. split; reflexivity.
  - right. exists u, v. split; [exact Hu |]. split; [exact Hx |]. left. split; reflexivity.
  - right. exists u, v. split; [exact Hu |]. split; [exact Hx |]. right.
    split; [| reflexivity].
    destruct (after_primary_failure_status w v) as [[H _] | [-> _]]; [left | right];
      [exact H | reflexivity].
Qed.

(** X3.  A 500 response of the /info handler always carries the message [All
    methods failed to fetch video information], never the error of a provider
    or of the normalizer; it is sent only after the primary path has thrown
    and the fallback call has failed. *)
Theorem info_server_error (w : World) (url : option jsstring) (r : Response) :
  fst (serve w url) = Returned r -> status r = 500%N ->
  body r = ErrorBody (js "All methods failed to fetch video information")
  /\ exists u v,
       url = Some u /\ Info.extractVideoId u = Some v
       /\ primary_path_fails w v
       /\ throws (fallback_outcome w v) = true
       /\ snd (serve w url)
          = [PrimaryCall (rapidapi_url v); FallbackCall (oembed_url v)].
Proof.
  intros Hr Hst.
  destruct (serve_cases w url)
    as [(e & Hs & _) | [(u & v & data & fs & Hu & Hx & _ & _ & Hs)
                       | (u & v & Hu & Hx & Hf & Hs)]];
    rewrite Hs in *; cbn [fst snd] in *; inversion Hr; subst r; try discriminate Hst.
  destruct (after_primary_failure_status w v) as [[H _] | [Ha Ht]].
  - rewrite H in Hst. discriminate Hst.
  - rewrite Ha. split; [reflexivity |]. exists u, v. auto.
Qed.

Lemma info_server_error_witness :
  body all_failed = ErrorBody (js "All methods failed to fetch video information").
Proof.
  refine (proj1 (info_server_error unreachable (Some (js "dQw4w9WgXcQ")) all_failed _ _)).
  - vm_compute. reflexivity.
  - reflexivity.
Defined.

(** X4.  When the primary provider answers, the handler uses its payload
    exactly when every item of the payload has an [id]: then it answers with
    one Format per item and calls nothing else; an item without [id] makes the
    normalizer throw, and the handler goes on to the fallback provider. *)
Theorem info_item_without_id (w : World) (u v : jsstring) (data : RapidApiData) :
  Info.extractVideoId u = Some v -> primary_outcome w v = Returned data ->
  if forallb has_id (all_items data)
  then exists fs,
         serve w (Some u)
         = (Returned (primary_response v data fs), [PrimaryCall (rapidapi_url v)])
         /\ length fs = length (all_items data)
  else serve w (Some u)
       = (Returned (after_primary_failure w v),
          [PrimaryCall (rapidapi_url v); FallbackCall (oembed_url v)]).
Proof.
  intros Hx Hd. destruct (forallb has_id (all_items data)) eqn:Ei.
  - destruct (serve_primary w u v data Hx Hd Ei) as (fs & _ & Hlen & Hs).
    exists fs. auto.
  - apply serve_after_failure; [exact Hx |]. right. exists data. auto.
Qed.

Lemma info_item_without_id_witness :
  serve (primary_only with_nameless_item) (Some (js "dQw4w9WgXcQ"))
  = (Returned all_failed,
     [PrimaryCall (rapidapi_url (js "dQw4w9WgXcQ"));
      FallbackCall (oembed_url (js "dQw4w9WgXcQ"))]).
Proof.
  refine (info_item_without_id (primary_only with_nameless_item)
            (js "dQw4w9WgXcQ") (js "dQw4w9WgXcQ") with_nameless_item _ _).
  - vm_compute. reflexivity.
  - vm_compute. reflexivity.
Defined.

(** X5.  In every response with video information, [videoId] is the identifier
    extracted from the URL, and [lengthSeconds] and [viewCount] are never
    empty; a response built from the primary payload (no fallback call) also
    has an author that is not empty, and a thumbnail address. *)
Theorem info_success_fields (w : World) (url : option jsstring) (r : Response)
        (info : InfoResponse) :
  fst (serve w url) = Returned r -> body r = InfoBody info ->
  status r = 200%N
  /\ (exists u, url = Some u /\ Info.extractVideoId u = Some (videoId info))
  /\ length (videoId info) = 11
  /\ lengthSeconds info <> [] /\ viewCount info <> []
  /\ (snd (serve w url) = [PrimaryCall (rapidapi_url (videoId info))] ->
      exists a t, author info = Some a /\ a <> [] /\ thumbnailUrl info = Some t).
Proof.
  intros Hr Hb.
  destruct (serve_cases w url)
    as [(e & Hs & _) | [(u & v & data & fs & Hu & Hx & _ & _ & Hs)
                       | (u & v & Hu & Hx & Hf & Hs)]];
    rewrite Hs in *; cbn [fst snd] in *; inversion Hr; subst r.
  - discriminate Hb.
  - cbn [body primary_response] in Hb. inversion Hb; subst info. cbn.
    split; [reflexivity |]. split; [exists u; auto |].
    split; [apply (extractVideoId_run u v Hx) |].
    split; [apply scalar_or_not_empty; discriminate |].
    split; [apply scalar_or_not_empty; discriminate |].
    intros _. do 2 eexists. split; [reflexivity |].
    split; [apply or_else_not_empty; discriminate | reflexivity].
  - unfold after_primary_failure in *.
    destruct (fallback_outcome w v) as [d | e]; [| discriminate Hb].
    cbn [body fallback_response] in Hb. inversion Hb; subst info. cbn.
    split; [reflexivity |]. split; [exists u; auto |].
    split; [apply (extractVideoId_run u v Hx) |].
    split; [discriminate |]. split; [discriminate |].
    intros H. discriminate H.
Qed.

Lemma info_success_fields_witness :
  status (primary_response (js "dQw4w9WgXcQ") one_audio [webm_format]) = 200%N.
Proof.
  refine (proj1 (info_success_fields primary_up (Some (js "https://youtu.be/dQw4w9WgXcQ"))
                   (primary_response (js "dQw4w9WgXcQ") one_audio [webm_format]) _ _ _)).
  - vm_compute. reflexivity.
  - reflexivity.
Defined.

(** X6.  The counts survive the trip to the client: when the primary
    payload holds [lengthSeconds] or [viewCount] as an integer below 2^53 in
    magnitude, [parseInt] of the text the response carries is that number;
    a count the payload omits reads as 0. *)
Theorem info_counts_round_trip (w : World) (u v : jsstring) (data : RapidApiData) :
  Info.extractVideoId u = Some v -> primary_outcome w v = Returned data ->
  forallb has_id (all_items data) = true ->
  exists info,
    fst (serve w (Some u)) = Returned {| status := 200; body := InfoBody info |}
    /\ (forall n, rapid_lengthSeconds data = Some (SNum n) -> safe_integer n ->
                  parseInt (lengthSeconds info) = Num n)
    /\ (forall n, rapid_viewCount data = Some (SNum n) -> safe_integer n ->
                  parseInt (viewCount info) = Num n)
    /\ (rapid_lengthSeconds data = None -> parseInt (lengthSeconds info) = Num 0)
    /\ (rapid_viewCount data = None -> parseInt (viewCount info) = Num 0).
Proof.
  intros Hx Hd Hi. destruct (serve_primary w u v data Hx Hd Hi) as (fs & _ & _ & Hs).
  rewrite Hs. eexists. split; [reflexivity |]. cbn [lengthSeconds viewCount].
  assert (Hnum : forall n, scalar_or (Some (SNum n)) (js "0") = Z_toString n).
  { intros n. unfold scalar_or, or_else. cbn [option_map toString].
    pose proof (Z_toString_not_empty n). destruct (Z_toString n); [congruence | reflexivity]. }
  repeat split.
  - intros n -> _. rewrite Hnum. apply parseInt_Z_toString.
  - intros n -> _. rewrite Hnum. apply parseInt_Z_toString.
  - intros ->. reflexivity.
  - intros ->. reflexivity.
Qed.

Lemma info_counts_round_trip_witness :
  exists info,
    fst (serve (primary_only counted) (Some (js "dQw4w9WgXcQ")))
    = Returned {| status := 200; body := InfoBody info |}
    /\ parseInt (lengthSeconds info) = Num 213.
Proof.
  destruct (info_counts_round_trip (primary_only counted)
              (js "dQw4w9WgXcQ") (js "dQw4w9WgXcQ") counted) as (info & Hs & Hl & _).
  - vm_compute. reflexivity.
  - vm_compute. reflexivity.
  - vm_compute. reflexivity.
  - exists info. split; [exact Hs |]. apply Hl; [reflexivity |].
    unfold safe_integer. lia.
Defined.

(** X7.  The resolution the comparator reads off a label: a label made of
    the decimal digits of a number below 2^53, or of them followed by [p]
    and anything else ([720p], [1080p60]), stands for that number, so such
    labels always parse. *)
Theorem resolution_of_label (f : VideoFormat) (n : Z) (tail : jsstring) :
  (0 <= n < 2 ^ 53)%Z ->
  (tail = [] \/ exists t, tail = 112%N :: t) ->
  qualityLabel f = Some (Z_toString n ++ tail) ->
  resolution f = Num n.
Proof.
  intros [Hn _] Ht Hl. unfold resolution. rewrite Hl. cbn [option_map].
  destruct (Z_toString_nonneg n Hn) as (ds & Hds & Hne & Hall & Hval).
  rewrite Hds.
  assert (Hsplit : split_head 112 (ds ++ tail) = ds).
  { clear Hds Hne Hval. induction Hall as [|c ds Hc Hall IH].
    - destruct Ht as [-> | (t & ->)]; reflexivity.
    - cbn [app split_head].
      destruct (c =? 112)%N eqn:E.
      + apply N.eqb_eq in E. subst c. discriminate Hc.
      + rewrite IH. reflexivity. }
  rewrite Hsplit. unfold or_else.
  destruct ds as [|c ds']; [congruence |].
  rewrite (parseInt_decimal (c :: ds') Hne Hall), Hval. reflexivity.
Qed.

Lemma resolution_of_label_witness :
  resolution (sample_format "1080p60" 0 true) = Num 1080.
Proof.
  refine (resolution_of_label (sample_format "1080p60" 0 true) 1080 (js "p60") _ _ _).
  - lia.
  - right. eexists. reflexivity.
  - reflexivity.
Defined.

(** ** The form *)

Module FormFacts.

Import VideoForm.

Lemma startsWith_spec : forall x s,
  startsWith s x = true <-> exists suf, s = x ++ suf.
Proof.
  induction x as [|a x IH]; intros s.
  - destruct s; cbn; split; eauto.
  - destruct s as [|c s]; cbn [startsWith].
    + split; [discriminate | intros (suf & H); discriminate H].
    + rewrite andb_true_iff, N.eqb_eq, IH. split.
      * intros [-> (suf & ->)]. exists suf. reflexivity.
      * intros (suf & H). inversion H; subst. eauto.
Qed.

Lemma includes_spec x : forall s, includes s x = true <-> occurs_in x s.
Proof.
  unfold occurs_in. induction s as [|c s IH]; cbn [includes].
  - rewrite orb_false_r, startsWith_spec. split.
    + intros (suf & H). exists [], suf. exact H.
    + intros (pre & suf & H). destruct pre as [|p pre]; [| discriminate H].
      exists suf. exact H.
  - rewrite orb_true_iff, startsWith_spec, IH. split.
    + intros [(suf & H) | (pre & suf & H)].
      * exists [], suf. exact H.
      * exists (c :: pre), suf. rewrite H. reflexivity.
    + intros (pre & suf & H). destruct pre as [|p pre].
      * left. exists suf. exact H.
      * right. inversion H; subst. exists pre, suf. reflexivity.
Qed.

(** A search succeeds as soon as the matcher does at some index. *)
Lemma search_finds p t st l : forall u i,
  exec (ignoreCase p) (source p) (mk (i + length u) t None) = st :: l ->
  search p i (u ++ t) <> None.
Proof.
  induction u as [|c u IH]; intros i H.
  - cbn [length app] in *. rewrite Nat.add_0_r in H.
    rewrite (search_hit p i t st l H). discriminate.
  - cbn [app]. cbn [search].
    destruct (exec (ignoreCase p) (source p)
                   {| endIndex := i; rest := c :: u ++ t; capture1 := None |})
      as [|st0 l0]; [| discriminate].
    apply IH. cbn [length] in H. replace (S i + length u) with (i + S (length u)) by lia.
    exact H.
Qed.

Lemma id_chars_match v :
  Forall (fun c => is_id_char c = true) v <->
  Forall (fun c => atom_match false id_char c = true) v.
Proof.
  split; intros H; (eapply Forall_impl; [| exact H]); intros c Hc; cbv beta in *;
    rewrite id_char_spec in *; exact Hc.
Qed.

(** [/[a-zA-Z0-9_-]{11}/]: a run of 11 identifier characters occurs. *)
Lemma test_id_run s :
  test id_run s = true <-> exists v, valid_id v /\ occurs_in v s.
Proof.
  unfold test, str_match. split.
  - destruct (search id_run 0 s) as [m|] eqn:E; [| discriminate]. intros _.
    apply search_inv in E. destruct E as (u & t & st' & l & Hs & _ & He & _).
    cbn [ignoreCase source id_run] in He.
    assert (Hin : In st' (exec false (Times 11 id_char) (mk (0 + length u) t None)))
      by (rewrite He; left; reflexivity).
    cbn [exec] in Hin. apply times_inv in Hin.
    destruct Hin as (w & [Hr _] & Hl & _ & Hall). cbn [rest mk] in Hr.
    exists w. split; [split; [exact Hl | apply id_chars_match; exact Hall] |].
    exists u, (rest st'). rewrite Hs, Hr. reflexivity.
  - intros (v & [Hl Hall] & pre & suf & ->).
    assert (He : exec false (Times 11 id_char) (mk (0 + length pre) (v ++ suf) None)
                 = [mk (0 + length pre + length v) suf None]).
    { cbn [exec]. rewrite <- Hl. apply times_hit. apply id_chars_match. exact Hall. }
    pose proof (search_finds id_run (v ++ suf) _ _ pre 0 He) as Hf.
    destruct (search id_run 0 (pre ++ v ++ suf)); [reflexivity | congruence].
Qed.

(** [/^[a-zA-Z0-9_-]{11}$/]: the text is 11 identifier characters. *)
Lemma test_bare_id s : test bare_id s = true <-> valid_id s.
Proof.
  unfold test, str_match. split.
  - destruct (search bare_id 0 s) as [m|] eqn:E; [| discriminate]. intros _.
    apply search_inv in E. destruct E as (u & t & st' & l & Hs & _ & He & _).
    cbn [ignoreCase source bare_id] in He.
    assert (Hin : In st' (exec false (Seq Bol (Seq (Times 11 id_char) Eol))
                               (mk (0 + length u) t None)))
      by (rewrite He; left; reflexivity).
    rewrite exec_seq in Hin. apply in_flat_map in Hin. destruct Hin as (m0 & Hm0 & Hin).
    cbn [exec endIndex mk] in Hm0.
    destruct (Nat.eqb (0 + length u) 0) eqn:E0; [| destruct Hm0].
    destruct Hm0 as [<- | []]. apply Nat.eqb_eq in E0.
    destruct u; [| discriminate E0]. cbn [app] in Hs. subst t.
    rewrite exec_seq in Hin. apply in_flat_map in Hin. destruct Hin as (m1 & Hm1 & Hin).
    cbn [exec] in Hm1. apply times_inv in Hm1.
    destruct Hm1 as (w & [Hr _] & Hl & _ & Hall). cbn [rest mk] in Hr.
    cbn [exec] in Hin. destruct (rest m1); [| destruct Hin].
    rewrite app_nil_r in Hr. subst w.
    split; [exact Hl | apply id_chars_match; exact Hall].
  - intros [Hl Hall].
    assert (He : exec false (Seq Bol (Seq (Times 11 id_char) Eol)) (mk 0 s None)
                 = [mk 11 [] None]).
    { rewrite exec_seq. change (exec false Bol (mk 0 s None)) with [mk 0 s None].
      rewrite flat_map_one, exec_seq.
      replace (mk 0 s None) with (mk 0 (s ++ []) None) by (rewrite app_nil_r; reflexivity).
      cbn [exec]. rewrite <- Hl at 1. rewrite times_hit by (apply id_chars_match; exact Hall).
      rewrite Hl. reflexivity. }
    rewrite (search_hit bare_id 0 s _ _ He). reflexivity.
Qed.

Lemma cleanYouTubeUrl_bare v :
  valid_id v -> cleanYouTubeUrl v = js "https://www.youtube.com/watch?v=" ++ v.
Proof.
  intros H. unfold cleanYouTubeUrl. rewrite (proj2 (test_bare_id v) H). reflexivity.
Qed.

Lemma cleanYouTubeUrl_other u : ~ valid_id u -> cleanYouTubeUrl u = u.
Proof.
  intros H. unfold cleanYouTubeUrl.
  destruct (test bare_id u) eqn:E; [| reflexivity].
  apply test_bare_id in E. contradiction.
Qed.

Lemma extract_watch_url v :
  valid_id v ->
  Info.extractVideoId (js "https://www.youtube.com/watch?v=" ++ v) = Some v.
Proof.
  intros Hv.
  assert (Hpre : no_y (js "https://www.")) by (repeat constructor).
  pose proof (extract_watch (js "https://www.") v [] Hpre Hv eq_refl eq_refl) as H.
  rewrite app_nil_r in H. exact H.
Qed.

(** *** The handler *)

Ltac run_form :=
  cbv beta iota zeta delta
    [Eff.finally Eff.try_catch Eff.bind Eff.lift Eff.modify Eff.ret Eff.throw
     setError setVideoInfo setLoading setSubmitting toast fetch
     setDownloadHistory resetForm on_ok_response on_error_response
     shown_error videoInfo loading downloadHistory submitting form_reset toasts
     requests fst snd negb].

Section Submit.

Variable encodeURIComponent : jsstring -> Result jsstring.
Variable outcome : FetchOutcome Json.
Variables random_id now values_url : jsstring.
Variable s : State.

Let cleaned := cleanYouTubeUrl (trim values_url).
Let run := handleSubmit encodeURIComponent outcome random_id now values_url s.

Lemma shown_for_not_empty message : shown_for message <> [].
Proof.
  unfold shown_for.
  destruct (includes message (js "Invalid YouTube URL")); [discriminate |].
  destruct (includes message (js "restricted")); [discriminate |].
  destruct message; discriminate.
Qed.

(** The run of the handler, case by case. *)
Lemma handleSubmit_run :
  run
  = match encodeURIComponent cleaned with
    | Threw _ =>
        (Returned tt,
         {| shown_error := js "Failed to fetch video information. Please try again.";
            videoInfo := None; loading := false;
            downloadHistory := downloadHistory s; submitting := false;
            form_reset := form_reset s;
            toasts := toasts s ++ [ToastLoading loading_message;
                                   ToastError (js "Error: Failed to fetch video information")];
            requests := requests s |})
    | Returned q =>
        let sent := requests s ++ [js "/api/info?url=" ++ q] in
        let failed (ts : list Toast) :=
          (Returned tt,
           {| shown_error := js "Failed to fetch video information. Please try again.";
              videoInfo := None; loading := false;
              downloadHistory := downloadHistory s; submitting := false;
              form_reset := form_reset s;
              toasts := toasts s ++ ToastLoading loading_message :: ts
                        ++ [ToastError (js "Error: Failed to fetch video information")];
              requests := sent |}) in
        match outcome with
        | Rejected _ => failed []
        | Responded st json =>
            if ok st
            then
              match json with
              | Threw _ => failed [ToastDismiss loading_message]
              | Returned data =>
                  (Returned tt,
                   {| shown_error := [];
                      videoInfo := Some data; loading := false;
                      downloadHistory :=
                        ready_entry random_id now cleaned data :: downloadHistory s;
                      submitting := false;
                      form_reset := true;
                      toasts := toasts s
                        ++ [ToastLoading loading_message; ToastDismiss loading_message;
                            if limitedInfo data
                            then ToastError (js "Limited video information available. Some features may not work correctly.")
                            else ToastSuccess (js "Video information fetched successfully!")];
                      requests := sent |})
              end
            else
              match json with
              | Threw _ => failed [ToastDismiss loading_message]
              | Returned errorData =>
                  match error errorData with
                  | None => failed [ToastDismiss loading_message]
                  | Some message =>
                      (Returned tt,
                       {| shown_error := shown_for message;
                          videoInfo := None; loading := false;
                          downloadHistory := downloadHistory s; submitting := false;
                          form_reset := form_reset s;
                          toasts := toasts s
                            ++ [ToastLoading loading_message; ToastDismiss loading_message;
                                ToastError (js "Error: " ++ or_else (Some message) default_error)];
                          requests := sent |})
                  end
              end
        end
    end.
Proof.
  subst run cleaned. unfold handleSubmit. cbv zeta.
  remember (cleanYouTubeUrl (trim values_url)) as cl eqn:Hcl. clear Hcl.
  destruct (encodeURIComponent cl) as [q | e]; [| run_form; rewrite <- ?app_assoc; reflexivity].
  destruct outcome as [e | st json]; [run_form; rewrite <- ?app_assoc; reflexivity |].
  destruct (ok st) eqn:Eok.
  - destruct json as [data | e]; run_form; rewrite Eok; run_form;
      [| rewrite <- ?app_assoc; reflexivity].
    destruct (limitedInfo data); run_form; rewrite <- ?app_assoc; reflexivity.
  - destruct json as [errorData | e]; run_form; rewrite Eok; run_form;
      [| rewrite <- ?app_assoc; reflexivity].
    destruct (error errorData) as [message|]; run_form;
      [| rewrite <- ?app_assoc; reflexivity].
    unfold shown_for.
    destruct (includes message (js "Invalid YouTube URL"));
      [| destruct (includes message (js "restricted"))];
      run_form; rewrite <- ?app_assoc; reflexivity.
Qed.

End Submit.

End FormFacts.

Import FormFacts.

(** X9.  [cleanYouTubeUrl] changes nothing for the route: the identifier the
    /info route extracts from the cleaned text is the one it extracts from the
    text itself. Exactly a bare identifier is rewritten, and cleaning twice is
    cleaning once. *)
Theorem cleanYouTubeUrl_keeps_identifier (u : jsstring) :
  Info.extractVideoId (VideoForm.cleanYouTubeUrl u) = Info.extractVideoId u
  /\ VideoForm.cleanYouTubeUrl (VideoForm.cleanYouTubeUrl u) = VideoForm.cleanYouTubeUrl u
  /\ (VideoForm.cleanYouTubeUrl u <> u <-> valid_id u).
Proof.
  assert (Hlong : forall v, valid_id v ->
             ~ valid_id (js "https://www.youtube.com/watch?v=" ++ v)).
  { intros v [Hl _] [Hl' _]. rewrite length_app, Hl in Hl'. discriminate Hl'. }
  destruct (test VideoForm.bare_id u) eqn:E.
  - apply test_bare_id in E. rewrite (cleanYouTubeUrl_bare u E).
    split; [rewrite (extract_watch_url u E), (extract_bare u E); reflexivity |].
    split; [apply cleanYouTubeUrl_other, Hlong; exact E |].
    split; [intros _; exact E |].
    intros _ H. apply (f_equal (@length N)) in H. rewrite length_app in H.
    cbn in H. lia.
  - assert (Hn : ~ valid_id u).
    { intros H. apply test_bare_id in H. congruence. }
    rewrite (cleanYouTubeUrl_other u Hn).
    split; [reflexivity |]. split; [apply cleanYouTubeUrl_other; exact Hn |].
    split; [congruence | contradiction].
Qed.

(** X10.  The test of the form's schema passes exactly for an empty or missing
    value, a value in which [youtube] or [youtu.be] occurs, and a value in
    which 11 identifier characters occur in a row. *)
Theorem is_youtube_like_spec (value : option jsstring) :
  VideoForm.is_youtube_like value = true <->
  falsy value = true
  \/ exists s, value = Some s
               /\ (occurs_in (js "youtube") s \/ occurs_in (js "youtu.be") s
                   \/ exists v, valid_id v /\ occurs_in v s).
Proof.
  destruct value as [[|c s]|]; cbn [VideoForm.is_youtube_like falsy falsy_string].
  - tauto.
  - rewrite !orb_true_iff, !includes_spec, test_id_run. split.
    + intros H. right. exists (c :: s). split; [reflexivity | tauto].
    + intros [H | (s0 & Hs & H)]; [discriminate H |]. inversion Hs; subst. tauto.
  - tauto.
Qed.

(** X11.  The form lets through whatever the route can read an identifier
    from: a text of a recognized shape around a valid identifier, and any text
    from which [extractVideoId] returns a valid identifier. *)
Theorem validation_accepts_identifiers (v url : jsstring) :
  valid_id v ->
  recognized v url \/ Info.extractVideoId url = Some v ->
  VideoForm.is_youtube_like (Some url) = true.
Proof.
  intros Hv H. apply is_youtube_like_spec. right. exists url. split; [reflexivity |].
  right; right. exists v. split; [exact Hv |].
  destruct H as [H | H].
  - destruct H as [scheme sub f suf _ _ _ |].
    + exists (scheme ++ sub ++ form_path f), suf. rewrite <- !app_assoc. reflexivity.
    + exists [], []. rewrite app_nil_r. reflexivity.
  - apply extractVideoId_run in H. destruct H as (_ & _ & pre & suf & H).
    exists pre, suf. exact H.
Qed.

Lemma validation_accepts_identifiers_witness :
  VideoForm.is_youtube_like (Some (js "https://youtu.be/dQw4w9WgXcQ?t=1")) = true.
Proof.
  refine (validation_accepts_identifiers (js "dQw4w9WgXcQ") _ _ _).
  - split; [reflexivity | repeat constructor].
  - right. vm_compute. reflexivity.
Defined.

(** The extractor is ahead of the form on one point: it reads the host in
    any letter case and takes any 11 characters that are not delimiters,
    the form looks for [youtube] and [youtu.be] in lower case and for
    identifier characters. *)
Remark extractable_but_not_youtube_like :
  Info.extractVideoId (js "YOUTU.BE/abc.defghij") = Some (js "abc.defghij")
  /\ VideoForm.is_youtube_like (Some (js "YOUTU.BE/abc.defghij")) = false.
Proof. split; vm_compute; reflexivity. Qed.

(** X12.  However a submission goes, the handler returns with [loading] and
    [submitting] false, having sent at most one request, for the cleaned and
    encoded text. When the response is ok and its body parses, the error is
    cleared, the video information is stored, the form is reset and one entry
    ([ready], progress 0) is put in front of the download history; otherwise
    an error text that is not empty is shown, no video information is stored
    and the history is as it was. *)
Theorem form_submit_outcome
        (encodeURIComponent : jsstring -> Result jsstring)
        (outcome : FetchOutcome VideoForm.Json)
        (random_id now values_url : jsstring) (s : VideoForm.State) :
  let cleaned := VideoForm.cleanYouTubeUrl (trim values_url) in
  let run := VideoForm.handleSubmit encodeURIComponent outcome random_id now values_url s in
  fst run = Returned tt
  /\ VideoForm.loading (snd run) = false
  /\ VideoForm.submitting (snd run) = false
  /\ VideoForm.requests (snd run)
     = VideoForm.requests s
       ++ match encodeURIComponent cleaned with
          | Returned q => [js "/api/info?url=" ++ q]
          | Threw _ => []
          end
  /\ match submitted (encodeURIComponent cleaned) outcome with
     | Some data =>
         VideoForm.shown_error (snd run) = []
         /\ VideoForm.videoInfo (snd run) = Some data
         /\ VideoForm.form_reset (snd run) = true
         /\ VideoForm.downloadHistory (snd run)
            = ready_entry random_id now cleaned data :: VideoForm.downloadHistory s
     | None =>
         VideoForm.shown_error (snd run) <> []
         /\ VideoForm.videoInfo (snd run) = None
         /\ VideoForm.form_reset (snd run) = VideoForm.form_reset s
         /\ VideoForm.downloadHistory (snd run) = VideoForm.downloadHistory s
     end.
Proof.
  intros cleaned run. subst run.
  rewrite (handleSubmit_run encodeURIComponent outcome random_id now values_url s).
  fold cleaned. unfold submitted.
  destruct (encodeURIComponent cleaned) as [q | e].
  2:{ cbn. rewrite app_nil_r. repeat split; discriminate. }
  cbv zeta. destruct outcome as [e | st json].
  { cbn. repeat split; discriminate. }
  destruct (ok st); destruct json as [data | e]; cbn.
  - repeat split.
  - repeat split; discriminate.
  - destruct (VideoForm.error data) as [message|]; cbn.
    + repeat split. apply shown_for_not_empty.
    + repeat split; discriminate.
  - repeat split; discriminate.
Qed.

(** X13.  For a response of the /info route that is not ok, the form shows the
    error text of the route as it is, in the field and (after [Error: ]) in
    the toast: neither of its two special messages, for [Invalid YouTube URL]
    and for [restricted], is ever shown for this route. *)
Theorem form_shows_route_error
        (w : InfoRoute.World) (url : option jsstring) (r : InfoRoute.Response)
        (encodeURIComponent : jsstring -> Result jsstring)
        (random_id now values_url q : jsstring) (s : VideoForm.State) :
  fst (InfoRoute.serve w url) = Returned r ->
  ok (InfoRoute.status r) = false ->
  encodeURIComponent (VideoForm.cleanYouTubeUrl (trim values_url)) = Returned q ->
  let run := VideoForm.handleSubmit encodeURIComponent (VideoForm.route_outcome r)
               random_id now values_url s in
  exists e,
    InfoRoute.body r = InfoRoute.ErrorBody e
    /\ VideoForm.shown_error (snd run) = e
    /\ VideoForm.toasts (snd run)
       = VideoForm.toasts s
         ++ [ToastLoading VideoForm.loading_message;
             ToastDismiss VideoForm.loading_message;
             ToastError (js "Error: " ++ e)].
Proof.
  intros Hr Hok Henc run. subst run.
  rewrite (handleSubmit_run encodeURIComponent _ random_id now values_url s), Henc.
  cbv zeta. unfold VideoForm.route_outcome. rewrite Hok.
  assert (Hmsg : exists e,
             InfoRoute.body r = InfoRoute.ErrorBody e
             /\ shown_for e = e
             /\ or_else (Some e) VideoForm.default_error = e).
  { destruct (serve_cases w url)
      as [(e & Hs & Hwhy) | [(u & v & data & fs & Hu & Hx & _ & _ & Hs)
                            | (u & v & Hu & Hx & Hf & Hs)]].
    - destruct Hwhy as [Hf | (u & -> & Hx)].
      + rewrite (serve_missing w url Hf) in Hr. inversion Hr; subst r.
        eexists. split; [reflexivity |]. split; vm_compute; reflexivity.
      + rewrite (serve_unparsable w u Hx) in Hr. inversion Hr; subst r.
        eexists. split; [reflexivity |].
        destruct (falsy_string u); split; vm_compute; reflexivity.
    - rewrite Hs in Hr. inversion Hr; subst r. discriminate Hok.
    - rewrite Hs in Hr. inversion Hr; subst r.
      destruct (after_primary_failure_status w v) as [[H _] | [Ha _]].
      + unfold ok in Hok. rewrite H in Hok. discriminate Hok.
      + rewrite Ha. eexists. split; [reflexivity |]. split; vm_compute; reflexivity. }
  destruct Hmsg as (e & Hb & Hshown & Hor). exists e. split; [exact Hb |].
  rewrite Hb. cbn [VideoForm.of_route VideoForm.error VideoForm.shown_error
                   VideoForm.toasts snd].
  rewrite Hshown, Hor. auto.
Qed.

Lemma form_shows_route_error_witness :
  VideoForm.shown_error
    (snd (VideoForm.handleSubmit plain_encoder (VideoForm.route_outcome all_failed)
            (js "k3x9q2a") (js "2025-01-01T00:00:00.000Z") (js " dQw4w9WgXcQ ") idle))
  = js "All methods failed to fetch video information".
Proof.
  assert (Hr : fst (InfoRoute.serve unreachable (Some (js "dQw4w9WgXcQ")))
               = Returned all_failed) by (vm_compute; reflexivity).
  assert (Henc : plain_encoder (VideoForm.cleanYouTubeUrl (trim (js " dQw4w9WgXcQ ")))
                 = Returned (js "https://www.youtube.com/watch?v=dQw4w9WgXcQ"))
    by (vm_compute; reflexivity).
  pose proof (form_shows_route_error unreachable (Some (js "dQw4w9WgXcQ")) all_failed
                plain_encoder (js "k3x9q2a") (js "2025-01-01T00:00:00.000Z")
                (js " dQw4w9WgXcQ ") (js "https://www.youtube.com/watch?v=dQw4w9WgXcQ") idle
                Hr eq_refl Henc) as H.
  cbv zeta in H. destruct H as (e & Hb & Hs & _).
  rewrite Hs. inversion Hb. reflexivity.
Defined.

(** ** The download manager *)

Module ManagerFacts.

Import DownloadManager.

Lemma eqb_true a b : jsstring_eqb a b = true -> a = b.
Proof. unfold jsstring_eqb. destruct (list_eq_dec N.eq_dec a b); congruence. Qed.

Lemma eqb_false a b : jsstring_eqb a b = false -> a <> b.
Proof. unfold jsstring_eqb. destruct (list_eq_dec N.eq_dec a b); congruence. Qed.

Lemma with_status_same d : with_status d (status d) (progress d) = d.
Proof. destruct d; reflexivity. Qed.

Lemma advance_id d : id (advance d) = id d.
Proof. unfold advance. destruct (_ && _); reflexivity. Qed.

Lemma advance_after_ticks n d : advance (after_ticks n d) = after_ticks (S n) d.
Proof.
  unfold after_ticks. cbn [Nat.eqb negb]. rewrite andb_true_r.
  destruct (in_progress d) eqn:Ep; cbn [andb].
  2:{ unfold advance. fold (is_downloading d). fold (in_progress d). rewrite Ep.
      reflexivity. }
  unfold in_progress in Ep. apply andb_true_iff in Ep. destruct Ep as [Hd Hp].
  apply Z.ltb_lt in Hp. unfold is_downloading in Hd.
  destruct n as [|n]; cbn [Nat.eqb negb].
  - unfold advance. rewrite Hd. cbn [andb].
    destruct (progress d <? 100)%Z eqn:E; [| apply Z.ltb_ge in E; lia].
    cbv zeta. change (Z.of_nat 1) with 1%Z. rewrite Z.mul_1_r.
    f_equal. destruct (Z.min (progress d + 5) 100 =? 100)%Z eqn:E1;
      destruct (100 <=? progress d + 5)%Z eqn:E2; try reflexivity;
      [apply Z.eqb_eq in E1; apply Z.leb_gt in E2 | apply Z.eqb_neq in E1; apply Z.leb_le in E2];
      lia.
  - unfold advance. cbn [status progress with_status].
    destruct (100 <=? progress d + 5 * Z.of_nat (S n))%Z eqn:E.
    + apply Z.leb_le in E. change (jsstring_eqb (js "completed") (js "downloading")) with false.
      cbn [andb].
      destruct (100 <=? progress d + 5 * Z.of_nat (S (S n)))%Z eqn:E'; [| apply Z.leb_gt in E'; lia].
      f_equal. lia.
    + apply Z.leb_gt in E. change (jsstring_eqb (js "downloading") (js "downloading")) with true.
      cbn [andb].
      destruct (Z.min (progress d + 5 * Z.of_nat (S n)) 100 <? 100)%Z eqn:E1;
        [| apply Z.ltb_ge in E1; lia].
      cbv zeta. cbn [id title thumbnail url timestamp status progress with_status].
      unfold with_status. cbn [id title thumbnail url timestamp].
      f_equal.
      * destruct (Z.min (Z.min (progress d + 5 * Z.of_nat (S n)) 100 + 5) 100 =? 100)%Z eqn:E2;
          destruct (100 <=? progress d + 5 * Z.of_nat (S (S n)))%Z eqn:E3; try reflexivity;
          [apply Z.eqb_eq in E2; apply Z.leb_gt in E3 | apply Z.eqb_neq in E2; apply Z.leb_le in E3];
          lia.
      * lia.
Qed.

Lemma after_no_ticks d : after_ticks 0 d = d.
Proof. unfold after_ticks. cbn [Nat.eqb negb]. rewrite andb_false_r. reflexivity. Qed.

(** [n] steps of the timer. *)
Lemma tick_iter n : forall ds, Nat.iter n tick ds = map (after_ticks n) ds.
Proof.
  induction n as [|n IH]; intros ds.
  - change (Nat.iter 0 tick ds) with ds.
    rewrite <- (map_id ds) at 1. apply map_ext. intros d.
    symmetry. apply after_no_ticks.
  - change (Nat.iter (S n) tick ds) with (tick (Nat.iter n tick ds)).
    rewrite IH. unfold tick. rewrite map_map.
    apply map_ext. intros d. apply advance_after_ticks.
Qed.

Lemma removeDownload_map f i ds :
  (forall d, id (f d) = id d) ->
  removeDownload i (map f ds) = map f (removeDownload i ds).
Proof.
  intros Hf. unfold removeDownload. induction ds as [|d ds IH]; [reflexivity |].
  cbn [map filter]. rewrite Hf.
  destruct (negb (jsstring_eqb (id d) i)); cbn [map]; rewrite IH; reflexivity.
Qed.

End ManagerFacts.

Import ManagerFacts.

(** X14.  The simulated progress, step by step: after [n] steps of the timer a
    download that was [downloading] below 100 has gained 5 per step, up to
    100, and is [completed] exactly when it has reached 100; every other
    download is as it was, and the list keeps its length and order. *)
Theorem tick_after_n_steps (n : nat) (ds : list DownloadManager.DownloadItem) :
  Nat.iter n DownloadManager.tick ds = map (after_ticks n) ds.
Proof. apply tick_iter. Qed.

(** X15.  Every download that is [downloading] at a progress from 0 to 99 is
    [completed] at progress 100 after 20 steps of the timer, and stays so; a
    download that is paused, completed or in any other state never moves. *)
Theorem tick_completes (ds : list DownloadManager.DownloadItem)
        (d : DownloadManager.DownloadItem) (n : nat) :
  In d ds -> 20 <= n ->
  (is_downloading d = true -> (0 <= DownloadManager.progress d < 100)%Z ->
   In (DownloadManager.with_status d (js "completed") 100)
      (Nat.iter n DownloadManager.tick ds))
  /\ (is_downloading d = false -> In d (Nat.iter n DownloadManager.tick ds)).
Proof.
  intros Hin Hn. rewrite tick_iter. split.
  - intros Hd Hp.
    replace (DownloadManager.with_status d (js "completed") 100) with (after_ticks n d);
      [apply in_map; exact Hin |].
    unfold after_ticks, in_progress. rewrite Hd.
    destruct (DownloadManager.progress d <? 100)%Z eqn:E; [| apply Z.ltb_ge in E; lia].
    destruct n as [|n]; [lia |]. cbn [andb Nat.eqb negb].
    destruct (100 <=? DownloadManager.progress d + 5 * Z.of_nat (S n))%Z eqn:E';
      [| apply Z.leb_gt in E'; lia].
    f_equal. apply Z.leb_le in E'. lia.
  - intros Hd.
    apply in_map_iff. exists d. split; [| exact Hin].
    unfold after_ticks, in_progress. rewrite Hd. reflexivity.
Qed.

Lemma tick_completes_witness :
  In (sample_download "a" "completed" 100)
     (Nat.iter 20 DownloadManager.tick
        [sample_download "a" "downloading" 0; sample_download "b" "paused" 40]).
Proof.
  refine (proj1 (tick_completes
                   [sample_download "a" "downloading" 0; sample_download "b" "paused" 40]
                   (sample_download "a" "downloading" 0) 20 _ _) _ _).
  - left. reflexivity.
  - apply le_n.
  - reflexivity.
  - cbn. lia.
Defined.

(** X16.  The pause button switches a download between [downloading] and
    [paused] and back: pressing it twice restores the list, when every
    download of that identifier is in one of the two states. One press changes
    the status of the downloads of that identifier only, and no progress. *)
Theorem toggle_twice (i : jsstring) (ds : list DownloadManager.DownloadItem) :
  Forall (fun d => DownloadManager.id d = i -> switchable d = true) ds ->
  DownloadManager.toggleDownloadStatus i (DownloadManager.toggleDownloadStatus i ds) = ds
  /\ Forall2 (fun d d' =>
                DownloadManager.id d' = DownloadManager.id d
                /\ DownloadManager.progress d' = DownloadManager.progress d
                /\ (DownloadManager.id d <> i -> d' = d)
                /\ (DownloadManager.id d = i ->
                    DownloadManager.status d' <> DownloadManager.status d))
             ds (DownloadManager.toggleDownloadStatus i ds).
Proof.
  intros H. unfold DownloadManager.toggleDownloadStatus. split.
  - rewrite map_map. rewrite <- (map_id ds) at 2. apply map_ext_Forall.
    eapply Forall_impl; [| exact H]. intros d Hd. cbv beta in *.
    destruct (jsstring_eqb (DownloadManager.id d) i) eqn:E.
    + cbn [DownloadManager.id DownloadManager.with_status]. rewrite E.
      cbn [DownloadManager.status DownloadManager.progress].
      specialize (Hd (eqb_true _ _ E)). unfold switchable in Hd.
      destruct (jsstring_eqb (DownloadManager.status d) (js "downloading")) eqn:E1.
      * change (jsstring_eqb (js "paused") (js "downloading")) with false. cbv iota.
        apply eqb_true in E1. destruct d as [di dt dth du dts dst dp].
        cbn [DownloadManager.status] in E1. subst dst. reflexivity.
      * cbn [orb] in Hd.
        change (jsstring_eqb (js "downloading") (js "downloading")) with true. cbv iota.
        apply eqb_true in Hd. destruct d as [di dt dth du dts dst dp].
        cbn [DownloadManager.status] in Hd. subst dst. reflexivity.
    + rewrite E. reflexivity.
  - clear H. induction ds as [|d ds IH]; cbn [map]; constructor; [| exact IH].
    destruct (jsstring_eqb (DownloadManager.id d) i) eqn:E.
    + cbn [DownloadManager.id DownloadManager.progress DownloadManager.status
           DownloadManager.with_status].
      split; [reflexivity |]. split; [reflexivity |].
      split; [intros Hne; destruct (Hne (eqb_true _ _ E)) |].
      intros _.
      destruct (jsstring_eqb (DownloadManager.status d) (js "downloading")) eqn:E1.
      * rewrite (eqb_true _ _ E1). discriminate.
      * intros Heq. rewrite <- Heq in E1. discriminate E1.
    + split; [reflexivity |]. split; [reflexivity |]. split; [reflexivity |].
      intros Heq. apply eqb_false in E. contradiction.
Qed.

Lemma toggle_twice_witness :
  DownloadManager.toggleDownloadStatus (js "a")
    (DownloadManager.toggleDownloadStatus (js "a")
       [sample_download "a" "downloading" 35; sample_download "b" "ready" 0])
  = [sample_download "a" "downloading" 35; sample_download "b" "ready" 0].
Proof.
  refine (proj1 (toggle_twice (js "a")
                   [sample_download "a" "downloading" 35; sample_download "b" "ready" 0] _)).
  repeat constructor. intros H. discriminate H.
Defined.

(** X17.  Removing a download removes every entry of that identifier and
    nothing else, keeping the order of the rest; removing twice is removing
    once; and it does not matter whether a download is removed before or after
    a step of the timer or a press of the pause button. *)
Theorem removeDownload_spec (i j : jsstring) (ds : list DownloadManager.DownloadItem) :
  (forall d, In d (DownloadManager.removeDownload i ds)
             <-> In d ds /\ DownloadManager.id d <> i)
  /\ DownloadManager.removeDownload i (DownloadManager.removeDownload i ds)
     = DownloadManager.removeDownload i ds
  /\ DownloadManager.removeDownload i (DownloadManager.tick ds)
     = DownloadManager.tick (DownloadManager.removeDownload i ds)
  /\ DownloadManager.removeDownload i (DownloadManager.toggleDownloadStatus j ds)
     = DownloadManager.toggleDownloadStatus j (DownloadManager.removeDownload i ds)
  /\ (Forall (fun d => DownloadManager.id d <> i) ds ->
      DownloadManager.removeDownload i ds = ds).
Proof.
  split; [| split; [| split; [| split]]].
  - intros d. unfold DownloadManager.removeDownload. rewrite filter_In. split.
    + intros [Hin Hne]. split; [exact Hin |]. apply negb_true_iff in Hne.
      apply eqb_false. exact Hne.
    + intros [Hin Hne]. split; [exact Hin |]. apply negb_true_iff.
      destruct (jsstring_eqb (DownloadManager.id d) i) eqn:E; [| reflexivity].
      destruct (Hne (eqb_true _ _ E)).
  - unfold DownloadManager.removeDownload. induction ds as [|d ds IH]; [reflexivity |].
    cbn [filter]. destruct (negb (jsstring_eqb (DownloadManager.id d) i)) eqn:E.
    + cbn [filter]. rewrite E, IH. reflexivity.
    + exact IH.
  - apply removeDownload_map. apply advance_id.
  - apply removeDownload_map. intros d.
    destruct (jsstring_eqb (DownloadManager.id d) j); reflexivity.
  - intros H. unfold DownloadManager.removeDownload.
    induction H as [|d ds Hd Hds IH]; [reflexivity |].
    cbn [filter]. destruct (jsstring_eqb (DownloadManager.id d) i) eqn:E.
    + destruct (Hd (eqb_true _ _ E)).
    + cbn [negb]. rewrite IH. reflexivity.
Qed.

(** ** The video information card *)

Module CardFacts.

Import Client VideoInfo.







Lemma by_bitrate_key (x y : Format) :
  bitrate x <> None -> bitrate y <> None ->
  (sort_after (fun a b => sub (number_of (bitrate b)) (number_of (bitrate a))) x y = true
   <-> rank_lt (0, - rate y)%Z (0, - rate x)%Z).
Proof.
  unfold sort_after, rank_lt, rate. intros Hx Hy. cbn [fst snd].
  destruct (bitrate x) as [bx|]; [| congruence].
  destruct (bitrate y) as [bz|]; [| congruence].
  cbn [number_of sub]. rewrite Z.ltb_lt. lia.
Qed.

Lemma find_filter {A} (p q : A -> bool) l :
  find p (filter q l) = find (fun x => q x && p x) l.
Proof.
  induction l as [|x l IH]; [reflexivity |]. cbn [filter find].
  destruct (q x); cbn [find andb]; [rewrite IH; reflexivity | exact IH].
Qed.

Lemma hd_error_find {A} (p : A -> bool) l : hd_error (filter p l) = find p l.
Proof.
  induction l as [|x l IH]; [reflexivity |]. cbn [filter find].
  destruct (p x); [reflexivity | exact IH].
Qed.

(** The head of a sorted list. *)
Lemma sorted_head {A} (R : A -> A -> Prop) a l x :
  StronglySorted R (a :: l) -> In x (a :: l) -> x = a \/ R a x.
Proof.
  intros Hs [<- | Hin]; [left; reflexivity |]. right.
  inversion Hs as [|? ? _ Hall]; subst. rewrite Forall_forall in Hall. auto.
Qed.

(** The insertion sort leaves a sorted list as it is. *)
Lemma sort_sorted_id {A} (cmp : A -> A -> number) l :
  StronglySorted (fun a b => sort_after cmp a b = false) l -> sort cmp l = l.
Proof.
  induction 1 as [|a l Hs IH Ha]; [reflexivity |].
  cbn [sort]. rewrite IH. destruct l as [|b l']; [reflexivity |].
  cbn [insert]. inversion Ha as [|? ? Hab _]; subst. rewrite Hab. reflexivity.
Qed.


(** The seconds field of a duration: two digits that read as the number. *)
Lemma two_digits r :
  (0 <= r < 60)%Z ->
  length (padStart 2 48 (Z_toString r)) = 2
  /\ parseInt (padStart 2 48 (Z_toString r)) = Num r.
Proof.
  intros H.
  set (good := fun k : nat =>
         let t := padStart 2 48 (Z_toString (Z.of_nat k)) in
         Nat.eqb (length t) 2
         && match parseInt t with Num z => (z =? Z.of_nat k)%Z | NaN => false end).
  assert (Hall : forallb good (seq 0 60) = true) by (vm_compute; reflexivity).
  rewrite forallb_forall in Hall.
  assert (Hk : good (Z.to_nat r) = true) by (apply Hall, in_seq; lia).
  unfold good in Hk. cbv zeta in Hk. rewrite Z2Nat.id in Hk by lia.
  apply andb_true_iff in Hk. destruct Hk as [Hl Hp]. apply Nat.eqb_eq in Hl.
  split; [exact Hl |].
  destruct (parseInt (padStart 2 48 (Z_toString r))) as [|z]; [discriminate Hp |].
  apply Z.eqb_eq in Hp. congruence.
Qed.

(** The audio option of the card. *)
Lemma audioFormat_choice (formats : list Client.Format) :
  (VideoInfo.audioFormat formats = None
   <-> forall f, In f formats -> audio_only f = false)
  /\ (forall a, VideoInfo.audioFormat formats = Some a ->
                In a formats /\ audio_only a = true)
  /\ (Forall rated formats ->
      forall a, VideoInfo.audioFormat formats = Some a ->
        (forall f, In f formats -> audio_only f = true -> (rate f <= rate a)%Z)
        /\ find (fun f => audio_only f && (rate f =? rate a)%Z) formats = Some a).
Proof.
  unfold VideoInfo.audioFormat.
  change (fun format : Client.Format => negb (Client.hasVideo format) && Client.hasAudio format)
    with audio_only.
  set (cmp := fun a b : Client.Format =>
                sub (number_of (Client.bitrate b)) (number_of (Client.bitrate a))).
  set (l := filter audio_only formats).
  pose proof (sort_permutes _ cmp l) as Hp.
  assert (Hhead : forall a rest, sort cmp l = a :: rest ->
                                 In a formats /\ audio_only a = true).
  { intros a rest E.
    assert (Ha : In a l) by (apply (Permutation_in _ Hp); rewrite E; left; reflexivity).
    apply filter_In in Ha. exact Ha. }
  split; [| split].
  - split.
    + intros H f Hf. destruct (audio_only f) eqn:Ea; [| reflexivity].
      assert (Hin : In f l) by (apply filter_In; auto).
      apply (Permutation_in _ (Permutation_sym Hp)) in Hin.
      destruct (sort cmp l); [destruct Hin | discriminate H].
    + intros H. destruct (sort cmp l) as [|a rest] eqn:E; [reflexivity |].
      destruct (Hhead a rest eq_refl) as [Ha1 Ha2]. rewrite (H a Ha1) in Ha2.
      discriminate Ha2.
  - intros a Ha. destruct (sort cmp l) as [|a' rest] eqn:E; [discriminate Ha |].
    cbn [hd_error] in Ha. inversion Ha; subst a'. exact (Hhead a rest eq_refl).
  - intros Hrated a Ha.
    assert (Hall : Forall (fun f => Client.bitrate f <> None) l).
    { apply Forall_forall. intros f Hf. apply filter_In in Hf. destruct Hf as [Hf Hfa].
      rewrite Forall_forall in Hrated. destruct (Hrated f Hf Hfa) as (b & -> & _).
      discriminate. }
    pose proof (sort_sorted _ cmp (fun f => (0, - rate f)%Z)
                  (fun f => Client.bitrate f <> None) by_bitrate_key l Hall) as Hs.
    destruct (sort cmp l) as [|a' rest] eqn:E; [discriminate Ha |].
    cbn [hd_error] in Ha. inversion Ha; subst a'. split.
    + intros f Hf Hfa.
      assert (Hin : In f (a :: rest)).
      { apply (Permutation_in _ (Permutation_sym Hp)). apply filter_In. auto. }
      destruct (sorted_head _ a rest f Hs Hin) as [-> | H]; [lia |].
      unfold rank_lt in H. cbn [fst snd] in H. lia.
    + pose proof (sort_stable _ cmp (fun f => (0, - rate f)%Z)
                    (fun f => Client.bitrate f <> None)
                    by_bitrate_key (fun f => (rate f =? rate a)%Z)) as Hst.
      rewrite <- find_filter. fold l. rewrite <- hd_error_find, <- Hst; [| | exact Hall].
      * fold cmp. rewrite E. cbn [filter]. rewrite Z.eqb_refl. reflexivity.
      * intros x y Hx Hy. apply Z.eqb_eq in Hx, Hy. cbv beta. congruence.
Qed.

End CardFacts.

Import CardFacts.




(** X19.  The audio option of the card: there is none exactly when no format
    of the input has sound without picture; otherwise it is such a format.
    When each such format has a bit rate, a number below 2^53 in magnitude,
    no other one has a higher bit rate, and among those of its bit rate it is
    the first of the input. *)
Theorem audioFormat_spec (formats : list Client.Format) :
  (VideoInfo.audioFormat formats = None
   <-> forall f, In f formats -> audio_only f = false)
  /\ (forall a, VideoInfo.audioFormat formats = Some a ->
                In a formats /\ audio_only a = true)
  /\ (Forall rated formats ->
      forall a, VideoInfo.audioFormat formats = Some a ->
        (forall f, In f formats -> audio_only f = true -> (rate f <= rate a)%Z)
        /\ find (fun f => audio_only f && (rate f =? rate a)%Z) formats = Some a).
Proof. exact (audioFormat_choice formats). Qed.

Example audioFormat_highest_rate :
  VideoInfo.audioFormat
    [ sample_card_format "18" "360p" 0 true true;
      sample_card_format "140" "Audio Only" 128000 false true;
      sample_card_format "251" "Audio Only" 160000 false true ]
  = Some (sample_card_format "251" "Audio Only" 160000 false true).
Proof. vm_compute. reflexivity. Qed.

Lemma audioFormat_spec_witness :
  find (fun f => audio_only f && (rate f =? 160000)%Z)
       [ sample_card_format "18" "360p" 0 true true;
         sample_card_format "140" "Audio Only" 128000 false true;
         sample_card_format "251" "Audio Only" 160000 false true ]
  = Some (sample_card_format "251" "Audio Only" 160000 false true).
Proof.
  refine (proj2 (proj2 (proj2 (audioFormat_spec _)) _ _ audioFormat_highest_rate)).
  repeat (apply Forall_cons;
          [intros H; first [discriminate H
                           | eexists; split; [reflexivity | unfold safe_integer; lia]] |]).
  apply Forall_nil.
Defined.

(** X20.  The duration the card shows.  For a text that [parseInt] reads as
    a number from 0 to below 2^53, it is the minutes, a colon and the seconds
    in two digits, which read back as the quotient and the remainder by 60;
    for a text that [parseInt] cannot read it is [NaN:NaN]. *)
Theorem formatDuration_spec (seconds : jsstring) :
  (forall n, (0 <= n < 2 ^ 53)%Z -> parseInt seconds = Num n ->
     exists mm ss,
       VideoInfo.formatDuration seconds = mm ++ [58%N] ++ ss
       /\ parseInt mm = Num (n / 60) /\ length ss = 2 /\ parseInt ss = Num (n mod 60))
  /\ (parseInt seconds = NaN -> VideoInfo.formatDuration seconds = js "NaN:NaN").
Proof.
  unfold VideoInfo.formatDuration. split.
  - intros n [Hn _] ->. cbn [floor_div remainder number_toString].
    rewrite Z.rem_mod_nonneg by lia.
    destruct (two_digits (n mod 60)) as [Hl Hp]; [apply Z.mod_pos_bound; lia |].
    do 2 eexists. split; [reflexivity |].
    split; [apply parseInt_Z_toString |]. split; [exact Hl | exact Hp].
  - intros ->. reflexivity.
Qed.

Lemma formatDuration_spec_witness :
  exists mm ss,
    VideoInfo.formatDuration (js "213") = mm ++ [58%N] ++ ss
    /\ parseInt mm = Num 3 /\ length ss = 2 /\ parseInt ss = Num 33.
Proof.
  refine (proj1 (formatDuration_spec (js "213")) 213%Z _ _).
  - lia.
  - reflexivity.
Defined.

(** ** The page *)

Module PageFacts.

Import Home.

Ltac run_page :=
  cbv beta iota zeta delta
    [Eff.finally Eff.try_catch Eff.bind Eff.lift Eff.modify Eff.ret Eff.throw
     setLoading setVideoInfo setDownloadHistory setShowInterstitial toast
     window_open setTimeout fetch];
  cbn [url loading videoInfo downloadHistory showInterstitial toasts requests
       windows timers fst snd negb].

(** The run of [handleDownload] on a page with video information, case by
    case. *)
Lemma handleDownload_run outcome now i fmt s info :
  videoInfo s = Some info ->
  handleDownload outcome now i fmt s
  = (Returned tt,
     {| url := url s; loading := loading s; videoInfo := Some info;
        downloadHistory :=
          match download_result outcome with
          | Some st =>
              mark (id (new_entry info i fmt now)) st
                   (new_entry info i fmt now :: downloadHistory s)
          | None => new_entry info i fmt now :: downloadHistory s
          end;
        showInterstitial :=
          match download_result outcome with
          | Some st => if jsstring_eqb st (js "redirected") then true
                       else showInterstitial s
          | None => showInterstitial s
          end;
        toasts :=
          toasts s
          ++ ToastLoading preparing
             :: match outcome with
                | Responded st (Returned data) =>
                    if ok st
                    then if success data && truthy (redirectUrl data)
                         then [ToastDismiss preparing;
                               ToastSuccess (js "Redirected to download service!")]
                         else [ToastDismiss preparing;
                               ToastError (or_else (error data)
                                             (js "Failed to get download URL"))]
                    else [ToastDismiss preparing;
                          ToastError (or_else (error data) (js "Download failed"))]
                | _ => [ToastError (js "An error occurred during download")]
                end;
        requests := requests s ++ [download_request info i fmt];
        windows :=
          windows s
          ++ match outcome with
             | Responded st (Returned data) =>
                 if ok st && success data && truthy (redirectUrl data)
                 then [or_else (redirectUrl data) []]
                 else []
             | _ => []
             end;
        timers :=
          timers s
          ++ match download_result outcome with
             | Some st => if jsstring_eqb st (js "redirected") then [5000%N] else []
             | None => []
             end |}).
Proof.
  intros Ev. unfold handleDownload. rewrite Ev. unfold download_result.
  destruct outcome as [e | st [data | e]].
  - run_page. rewrite Ev, <- !app_assoc, !app_nil_r. reflexivity.
  - destruct (ok st) eqn:Eok; run_page; rewrite Eok; run_page; cbn [andb].
    + destruct (success data && truthy (redirectUrl data)) eqn:Es; run_page;
        rewrite Ev, <- ?app_assoc, ?app_nil_r; reflexivity.
    + rewrite Ev, <- ?app_assoc, ?app_nil_r. reflexivity.
  - destruct (ok st) eqn:Eok; run_page; rewrite Eok; run_page;
      rewrite Ev, <- ?app_assoc, ?app_nil_r; reflexivity.
Qed.

Lemma trim_start_blank s : trim_start s = [] <-> forallb is_space s = true.
Proof.
  induction s as [|c s IH]; cbn [trim_start forallb]; [tauto |].
  destruct (is_space c); cbn [andb]; [exact IH |]. split; discriminate.
Qed.

Lemma trim_start_head c t s : trim_start s = c :: t -> is_space c = false.
Proof.
  induction s as [|x s IH]; cbn [trim_start]; [discriminate |].
  destruct (is_space x) eqn:E; [exact IH |]. intros H. inversion H; subst. exact E.
Qed.

(** A text is trimmed to nothing exactly when it is white space only. *)
Lemma trim_blank s : falsy_string (trim s) = true <-> forallb is_space s = true.
Proof.
  unfold trim, trim_end. split.
  - intros H.
    destruct (rev (trim_start (rev (trim_start s)))) as [|c t] eqn:E; [| discriminate H].
    apply (f_equal (@rev N)) in E. rewrite rev_involutive in E. cbn [rev] in E.
    apply trim_start_blank in E. rewrite forallb_forall in E.
    destruct (trim_start s) as [|x u] eqn:Es; [apply trim_start_blank; exact Es |].
    pose proof (trim_start_head x u s Es) as Hx.
    rewrite (E x) in Hx; [discriminate Hx |]. apply in_rev. rewrite rev_involutive.
    left. reflexivity.
  - intros H. apply trim_start_blank in H. rewrite H. reflexivity.
Qed.

(** The formats of a response of the route, as the components read them:
    those with sound and no picture are in order of falling bit rate. *)
Lemma shown_audio_sorted fs :
  Forall graded fs ->
  StronglySorted
    (fun a b =>
       sort_after (fun a b => sub (number_of (Client.bitrate b))
                                  (number_of (Client.bitrate a))) a b = false)
    (filter audio_only (map Client.of_route (sort InfoRoute.compare_formats fs))).
Proof.
  intros Hp.
  pose proof (sort_sorted _ InfoRoute.compare_formats rank graded
                compare_formats_rank fs Hp) as Hs.
  pose proof (sort_Forall _ InfoRoute.compare_formats graded fs Hp) as Hg.
  set (l := sort InfoRoute.compare_formats fs) in *. clearbody l.
  induction Hs as [|a l Hs IH Ha]; [constructor |].
  inversion Hg as [|? ? Hga Hgl]; subst.
  cbn [map filter]. destruct (audio_only (Client.of_route a)) eqn:Ea; [| exact (IH Hgl)].
  constructor; [exact (IH Hgl) |].
  rewrite Forall_forall in *. intros y Hy. apply filter_In in Hy. destruct Hy as [Hy Hya].
  apply in_map_iff in Hy. destruct Hy as (b & <- & Hb).
  specialize (Ha b Hb). cbv beta in Ha. specialize (Hgl b Hb).
  unfold audio_only in Ea, Hya. cbn [Client.of_route Client.hasVideo Client.hasAudio] in Ea, Hya.
  apply andb_true_iff in Ea, Hya. destruct Ea as [Ea _]. destruct Hya as [Hya _].
  apply negb_true_iff in Ea, Hya.
  unfold graded in Hga, Hgl. rewrite Ea in Hga. rewrite Hya in Hgl.
  destruct Hga as (ba & Hba & _). destruct Hgl as (bb & Hbb & _).
  unfold sort_after. cbn [Client.of_route Client.bitrate]. rewrite Hba, Hbb.
  cbn [number_of sub].
  apply Z.ltb_ge. unfold rank_lt, rank, bitrate_value in Ha.
  rewrite Ea, Hya, Hba, Hbb in Ha. cbn [fst snd] in Ha. lia.
Qed.

(** The formats of a graded response are rated on the client. *)
Lemma shown_rated fs :
  Forall graded fs ->
  Forall rated (map Client.of_route (sort InfoRoute.compare_formats fs)).
Proof.
  intros Hp. apply Forall_forall. intros y Hy.
  apply in_map_iff in Hy. destruct Hy as (f & <- & Hf).
  apply (Permutation_in _ (sort_permutes _ _ fs)) in Hf.
  rewrite Forall_forall in Hp. specialize (Hp f Hf).
  unfold rated, audio_only, graded in *.
  cbn [Client.of_route Client.hasVideo Client.hasAudio Client.bitrate].
  intros Ha. apply andb_true_iff in Ha. destruct Ha as [Ha _].
  apply negb_true_iff in Ha. rewrite Ha in Hp. exact Hp.
Qed.

End PageFacts.

Import PageFacts.

(** X21.  [handleDownload] on the page. Without video information it does
    nothing. Otherwise it returns, having sent one request and put one entry
    in front of the history; the entry ends as [redirected] exactly when the
    response is ok and its body has a true [success] and a [redirectUrl],
    which is then the one window opened; it ends as [failed] for any other
    body that parses; and it stays [downloading] when the request is rejected
    or the body does not parse. Older entries are kept, in order. *)
Theorem handleDownload_outcome
        (outcome : FetchOutcome Home.Json) (now itag fmt : jsstring) (s : Home.State) :
  fst (Home.handleDownload outcome now itag fmt s) = Returned tt
  /\ match Home.videoInfo s with
     | None => snd (Home.handleDownload outcome now itag fmt s) = s
     | Some info =>
         let s' := snd (Home.handleDownload outcome now itag fmt s) in
         let entry := new_entry info itag fmt now in
         Home.requests s' = Home.requests s ++ [download_request info itag fmt]
         /\ Home.downloadHistory s'
            = match download_result outcome with
              | Some st => Home.mark (Home.id entry) st (entry :: Home.downloadHistory s)
              | None => entry :: Home.downloadHistory s
              end
         /\ length (Home.downloadHistory s') = S (length (Home.downloadHistory s))
         /\ Home.windows s'
            = Home.windows s
              ++ match outcome with
                 | Responded st (Returned data) =>
                     if ok st && Home.success data && truthy (Home.redirectUrl data)
                     then [or_else (Home.redirectUrl data) []]
                     else []
                 | _ => []
                 end
         /\ Home.videoInfo s' = Home.videoInfo s
     end.
Proof.
  destruct (Home.videoInfo s) as [info|] eqn:Ev.
  2:{ unfold Home.handleDownload. rewrite Ev. split; reflexivity. }
  rewrite (handleDownload_run outcome now itag fmt s info Ev).
  cbv zeta. cbn [fst snd Home.requests Home.downloadHistory Home.windows Home.videoInfo].
  split; [reflexivity |]. split; [reflexivity |]. split; [reflexivity |].
  split; [| split; reflexivity].
  destruct (download_result outcome); [| reflexivity].
  unfold Home.mark. rewrite length_map. reflexivity.
Qed.

(** X22.  For the formats of a response of the /info route that the
    comparator can grade (every video label parses, every audio has a bit
    rate, all below 2^53 in magnitude), the page and the card offer the same
    audio format: the first format with sound and no picture, which is one
    of the highest bit rate. *)
Theorem audio_choice_agrees (fs : list InfoRoute.VideoFormat) :
  Forall graded fs ->
  let shown := map Client.of_route (sort InfoRoute.compare_formats fs) in
  Home.audio_button shown
  = match VideoInfo.audioFormat shown with Some a => [a] | None => [] end
  /\ forall a, VideoInfo.audioFormat shown = Some a ->
       forall f, In f fs -> InfoRoute.hasVideo f = false -> InfoRoute.hasAudio f = true ->
                 (bitrate_value f <= rate a)%Z.
Proof.
  intros Hp shown. subst shown. split.
  - unfold Home.audio_button, VideoInfo.audioFormat.
    change (fun format : Client.Format =>
              negb (Client.hasVideo format) && Client.hasAudio format) with audio_only.
    rewrite (sort_sorted_id _ _ (shown_audio_sorted fs Hp)).
    destruct (filter audio_only _); reflexivity.
  - intros a Ha f Hf Hv Hau.
    destruct (audioFormat_choice
                (map Client.of_route (sort InfoRoute.compare_formats fs)))
      as (_ & _ & H).
    destruct (H (shown_rated fs Hp) a Ha) as [Hmax _].
    apply (Hmax (Client.of_route f)).
    + apply in_map.
      apply (Permutation_in _ (Permutation_sym (sort_permutes _ _ fs))). exact Hf.
    + unfold audio_only. cbn [Client.of_route Client.hasVideo Client.hasAudio].
      rewrite Hv, Hau. reflexivity.
Qed.

Lemma audio_choice_agrees_witness :
  Home.audio_button (map Client.of_route (sort InfoRoute.compare_formats mixed_formats))
  = [Client.of_route (sample_format "Audio Only" 256000 false)].
Proof.
  assert (H : Forall graded mixed_formats).
  { unfold mixed_formats.
    repeat (apply Forall_cons;
            [eexists; split; [vm_compute; reflexivity | unfold safe_integer; lia] |]).
    apply Forall_nil. }
  rewrite (proj1 (audio_choice_agrees mixed_formats H)). vm_compute. reflexivity.
Defined.

(** X23.  [handleSubmit] on the page. It always returns with [loading] false
    and the history untouched. For an input of white space only it sends no
    request and shows an error toast. Otherwise it sends at most one request,
    for the input as typed (not trimmed); the video information is what an ok
    response with a body that parses holds, and is cleared in every other
    case. *)
Theorem page_submit_outcome
        (encodeURIComponent : jsstring -> Result jsstring)
        (outcome : FetchOutcome Home.InfoJson) (s : Home.State) :
  let run := Home.handleSubmit encodeURIComponent outcome s in
  fst run = Returned tt
  /\ Home.loading (snd run) = false
  /\ Home.downloadHistory (snd run) = Home.downloadHistory s
  /\ if forallb is_space (Home.url s)
     then Home.requests (snd run) = Home.requests s
          /\ Home.videoInfo (snd run) = None
          /\ Home.toasts (snd run)
             = Home.toasts s ++ [ToastError (js "Please enter a YouTube URL or video ID")]
     else Home.requests (snd run)
          = Home.requests s
            ++ match encodeURIComponent (Home.url s) with
               | Returned q => [js "http://localhost:5000/api/info?url=" ++ q]
               | Threw _ => []
               end
          /\ Home.videoInfo (snd run) = fetched (encodeURIComponent (Home.url s)) outcome.
Proof.
  intros run. subst run. unfold Home.handleSubmit.
  destruct (forallb is_space (Home.url s)) eqn:Eb.
  - pose proof (proj2 (trim_blank _) Eb) as Ht.
    run_page. rewrite Ht. run_page. repeat split.
  - assert (Ht : falsy_string (trim (Home.url s)) = false).
    { destruct (falsy_string (trim (Home.url s))) eqn:E; [| reflexivity].
      apply trim_blank in E. congruence. }
    unfold fetched.
    run_page. rewrite Ht. run_page.
    destruct (encodeURIComponent (Home.url s)) as [q | e]; run_page.
    2:{ rewrite app_nil_r. repeat split. }
    destruct outcome as [e | st [data | e]]; run_page; [repeat split | |].
    + destruct (ok st); run_page; repeat split.
    + destruct (ok st); run_page; repeat split.
Qed.

(** ** The card's download and the two routes together *)

Module CardDownloadFacts.

Import VideoInfo.

Ltac run_card :=
  cbv beta iota zeta delta
    [Eff.finally Eff.try_catch Eff.bind Eff.lift Eff.modify Eff.ret Eff.throw
     setDownloading toast window_open through_api];
  cbn [downloading toasts windows fst snd].

End CardDownloadFacts.

Import CardDownloadFacts.

(** X24.  [handleDownload] of the card always returns with [downloading]
    cleared. In the browser it opens one window: the format's own address when
    the video information has direct addresses and the first format of the tag
    has one, and otherwise the download route with the title of the video,
    encoded, as the [url] parameter, the tag and the format; it opens none,
    and shows an error, when the title cannot be encoded. *)
Theorem card_download_outcome
        (encodeURIComponent : jsstring -> Result jsstring)
        (info : VideoInfo.VideoDetails) (i fmt : jsstring) (s : VideoInfo.State) :
  let run := VideoInfo.handleDownload encodeURIComponent true info i fmt s in
  fst run = Returned tt
  /\ VideoInfo.downloading (snd run) = None
  /\ VideoInfo.windows (snd run)
     = VideoInfo.windows s
       ++ match direct_url info i with
          | Some u => [u]
          | None =>
              match encodeURIComponent (VideoInfo.title info) with
              | Returned q =>
                  [js "/api/download?url=" ++ q ++ js "&itag=" ++ i ++ js "&format=" ++ fmt]
              | Threw _ => []
              end
          end
  /\ VideoInfo.toasts (snd run)
     = VideoInfo.toasts s
       ++ [match direct_url info i, encodeURIComponent (VideoInfo.title info) with
           | None, Threw _ => ToastError (js "Failed to start download")
           | _, _ => ToastSuccess (js "Download started!")
           end].
Proof.
  intros run. subst run. unfold VideoInfo.handleDownload, direct_url.
  destruct (VideoInfo.directUrls info);
    [destruct (find _ (VideoInfo.formats info)) as [f|];
     [destruct (truthy (Client.url f)) eqn:Et |] |].
  - run_card. destruct (Client.url f) as [[|c u]|]; try discriminate Et. repeat split.
  - destruct (encodeURIComponent (VideoInfo.title info)) eqn:Ee; run_card; rewrite Ee;
      run_card; rewrite ?app_nil_r; repeat split.
  - destruct (encodeURIComponent (VideoInfo.title info)) eqn:Ee; run_card; rewrite Ee;
      run_card; rewrite ?app_nil_r; repeat split.
  - destruct (encodeURIComponent (VideoInfo.title info)) eqn:Ee; run_card; rewrite Ee;
      run_card; rewrite ?app_nil_r; repeat split.
Qed.

(** X8.  What the /info route answers with video information for, the
    /download route redirects for: given the same URL, or the [videoId] of
    the response, it sends the same redirect, whose [Location] is the mirror
    address of that identifier as the URL parser writes it back. *)
Theorem info_then_download
        (w : InfoRoute.World) (caret : bool) (u : jsstring) (r : InfoRoute.Response)
        (info : InfoRoute.InfoResponse) (itag format : option jsstring) :
  fst (InfoRoute.serve w (Some u)) = Returned r ->
  InfoRoute.body r = InfoRoute.InfoBody info ->
  exists resp,
    DownloadRoute.serve caret (Some u) itag format None = (Returned resp, [])
    /\ DownloadRoute.serve caret None itag format (Some (InfoRoute.videoId info))
       = (Returned resp, [])
    /\ redirects_for caret (InfoRoute.videoId info) itag format resp.
Proof.
  intros Hr Hb.
  assert (Hx : Info.extractVideoId u = Some (InfoRoute.videoId info)).
  { destruct (serve_cases w (Some u))
      as [(e & Hs & _) | [(u0 & v & data & fs & Hu & Hx & _ & _ & Hs)
                         | (u0 & v & Hu & Hx & Hf & Hs)]];
      rewrite Hs in Hr; cbn [fst] in Hr; inversion Hr; subst r.
    - discriminate Hb.
    - inversion Hu; subst u0. cbn in Hb. inversion Hb; subst info. exact Hx.
    - inversion Hu; subst u0. unfold after_primary_failure in Hb.
      destruct (fallback_outcome w v); [| discriminate Hb].
      cbn in Hb. inversion Hb; subst info. exact Hx. }
  destruct (extracted_nonempty u _ Hx) as [Hu Hv].
  destruct (download_link_redirects caret (InfoRoute.videoId info) itag format)
    as (resp & Hrun & Hresp).
  exists resp. rewrite extractVideoId_agree in Hx.
  destruct u as [|c u]; [congruence |].
  destruct (InfoRoute.videoId info) as [|d v] eqn:Ev; [congruence |].
  unfold DownloadRoute.serve, DownloadRoute.GET. cbn [falsy falsy_string andb].
  rewrite Hx. unfold try_catch. rewrite Hrun. auto.
Qed.

Lemma info_then_download_witness :
  DownloadRoute.serve true (Some (js "https://youtu.be/dQw4w9WgXcQ")) None
                      (Some (js "mp3")) None
  = (Returned (DownloadRoute.Redirect
                 (js "https://www.y2mate.com/youtube-mp3/dQw4w9WgXcQ")), []).
Proof.
  destruct (info_then_download primary_up true (js "https://youtu.be/dQw4w9WgXcQ")
              (primary_response (js "dQw4w9WgXcQ") one_audio [webm_format])
              {| InfoRoute.videoId := js "dQw4w9WgXcQ";
                 InfoRoute.title := Some (js "T");
                 InfoRoute.author := Some (js "Unknown");
                 InfoRoute.lengthSeconds := js "0";
                 InfoRoute.viewCount := js "0";
                 InfoRoute.thumbnailUrl := Some [];
                 InfoRoute.formats := [webm_format] |}
              None (Some (js "mp3")) ltac:(vm_compute; reflexivity) eq_refl)
    as (resp & H1 & _ & address & location & -> & Ht & _ & Hkept).
  rewrite H1. rewrite (Hkept eq_refl (or_introl eq_refl)).
  destruct Ht as [[_ ->] | [[H _] | [H _]]]; [reflexivity | |]; congruence.
Defined.

(** ** The identifier extractor and the hosts *)

Import ExtractorFacts ExtractorResults.

Module HostFacts.

Lemma names_host_app u : forall t, host_at t = true -> names_host (u ++ t) = true.
Proof.
  induction u as [|c u IH]; intros t H; cbn [app].
  - destruct t; cbn [names_host]; rewrite H; reflexivity.
  - cbn [names_host]. rewrite (IH t H). apply orb_true_r.
Qed.

(** A rule that starts with a host matches only where the host stands. *)
Lemma host_rule_inv host r i t st' l :
  exec true (Seq (lit host) r) (mk i t None) = st' :: l ->
  is_present (strip true (js host) t) = true.
Proof.
  rewrite exec_seq. unfold lit. rewrite exec_chars. intros H.
  destruct (strip true (js host) t); [reflexivity | discriminate H].
Qed.

Lemma strip_front ic a : forall b s r,
  strip ic (a ++ b) s = Some r -> is_present (strip ic a s) = true.
Proof.
  induction a as [|x a IH]; intros b s r H; [reflexivity |].
  cbn [app strip] in *. destruct s as [|c s]; [discriminate H |].
  destruct (atom_match ic (Chr x) c); [eauto | discriminate H].
Qed.

(** The same for a rule that starts with a path at [youtube.com/]. *)
Lemma path_rule_inv path r i t st' l :
  exec true (Seq (chars (js "youtube.com/" ++ path)) r) (mk i t None) = st' :: l ->
  host_at t = true.
Proof.
  rewrite exec_seq, exec_chars. intros H. unfold host_at.
  destruct (strip true (js "youtube.com/" ++ path) t) eqn:Es; [| discriminate H].
  rewrite (strip_front _ _ _ _ _ Es). reflexivity.
Qed.

Lemma first_rule_inv i t st' l :
  exec true (Seq rule1_head (Group (Times 11 not_delimiter))) (mk i t None) = st' :: l ->
  host_at t = true.
Proof.
  rewrite exec_seq. unfold rule1_head. rewrite exec_alt. unfold host_at.
  rewrite exec_seq. unfold lit. rewrite !exec_chars. intros H.
  destruct (strip true (js "youtube.com/") t); [reflexivity |].
  destruct (strip true (js "youtu.be/") t); [reflexivity |].
  cbn [flat_map app] in H. discriminate H.
Qed.

End HostFacts.

Import HostFacts.

(** X25.  [extractVideoId] returns null for every text that names neither
    host, [youtube.com/] nor [youtu.be/] in any letter case, and is not a bare
    identifier: an identifier is never read out of an unrelated text. *)
Theorem extractVideoId_needs_host (url : jsstring) :
  names_host url = false -> ~ valid_id url -> Info.extractVideoId url = None.
Proof.
  intros Hh Hv. destruct (Info.extractVideoId url) as [v|] eqn:E; [| reflexivity].
  exfalso. apply extractVideoId_inv in E.
  destruct E as (p & u & t & st' & l & Hp & Hu & He & Hc).
  assert (Hhost : host_at t = true -> False).
  { intros H. rewrite Hu, (names_host_app u t H) in Hh. discriminate Hh. }
  assert (Hrule : forall host r,
             exec true (Seq (lit host) r) (mk (length u) t None) = st' :: l ->
             host = "youtube.com/"%string \/ host = "youtu.be/"%string -> False).
  { intros host r H Hwhich. apply Hhost. unfold host_at.
    pose proof (host_rule_inv host r _ _ _ _ H) as Hs.
    destruct Hwhich as [-> | ->]; rewrite Hs; [reflexivity | apply orb_true_r]. }
  unfold Info.patterns in Hp. cbn [In] in Hp.
  destruct Hp as [<- | [<- | [<- | [<- | [<- | [<- | []]]]]]];
    cbn [source ignoreCase] in He.
  - apply Hhost. exact (first_rule_inv _ _ _ _ He).
  - exact (Hrule _ _ He (or_intror eq_refl)).
  - apply Hhost. exact (path_rule_inv (js "embed/") _ _ _ _ _ He).
  - apply Hhost. exact (path_rule_inv (js "shorts/") _ _ _ _ _ He).
  - apply Hhost. exact (path_rule_inv (js "v/") _ _ _ _ _ He).
  - assert (Hin : In st' (exec false (Seq Bol (Seq (Group (Times 11 id_char)) Eol))
                               (mk (length u) t None)))
      by (rewrite He; left; reflexivity).
    apply anchored_group_inv in Hin. destruct Hin as (_ & Hl & Hall & H0 & _).
    cbn [rest endIndex mk] in *. destruct u; [| discriminate H0].
    cbn [app] in Hu. subst t. apply Hv. split; [exact Hl |].
    eapply Forall_impl; [| exact Hall]. intros c Hm. cbv beta in Hm.
    rewrite id_char_spec in Hm. exact Hm.
Qed.

Lemma extractVideoId_needs_host_witness :
  Info.extractVideoId (js "https://vimeo.com/watch?v=dQw4w9WgXcQ") = None.
Proof.
  refine (extractVideoId_needs_host _ _ _).
  - vm_compute. reflexivity.
  - intros [Hl _]. discriminate Hl.
Defined.
